(** * mod-npc-beastmaster: the pet catalogue, the gossip action codes and the
    tracked-pet life cycle of [src/NpcBeastmaster.cpp], embedded in Rocq.

    The embedding is shallow.  C++ [uint32] values are integers of [Z] with
    the wrap-around written where the source does arithmetic on them;
    [std::set] is [gset], [std::unordered_map] and the player's [DataMap] are
    [gmap], [std::vector] is [list].  The handlers of the script run for one
    player at a time: the mutable state a handler can touch is gathered in
    [Sys] and threaded explicitly, what it only reads is in [Env].  A handler
    returns [None] where the C++ dereferences a null pointer.

    Database statements take effect in program order (the asynchronous
    queueing of [CharacterDatabase.Execute] is not modelled), logging is
    left out. *)

From Stdlib Require Import ZArith Lia Ascii String.
From stdpp Require Import gmap strings list fin_maps pretty.

Open Scope Z_scope.

(** ** Machine integers *)

(** Arithmetic on [uint32] is modulo [2^32]. *)
Definition wrap32 (x : Z) : Z := x mod 2 ^ 32.

(** Conversion of an unsigned value to a 32-bit [int]. *)
Definition to_int (x : Z) : Z :=
  let y := x mod 2 ^ 32 in if y <? 2 ^ 31 then y else y - 2 ^ 32.

(** ** Characters and strings ([<cctype>] in the "C" locale) *)

Definition char_code (c : ascii) : Z := Z.of_nat (nat_of_ascii c).

Definition is_upper (c : ascii) : bool := (65 <=? char_code c) && (char_code c <=? 90).
Definition is_lower (c : ascii) : bool := (97 <=? char_code c) && (char_code c <=? 122).

(** The character class [[A-Za-z]]. *)
Definition is_letter (c : ascii) : bool := is_upper c || is_lower c.

(** The character class [[A-Za-z \-']]. *)
Definition is_name_char (c : ascii) : bool :=
  is_letter c || (char_code c =? 32) || (char_code c =? 45) || (char_code c =? 39).

(** [std::isspace]: space, and the controls from tab to carriage return. *)
Definition isspace (c : ascii) : bool :=
  (char_code c =? 32) || ((9 <=? char_code c) && (char_code c <=? 13)).

(** [::tolower] on one character. *)
Definition tolower (c : ascii) : ascii :=
  if is_upper c then ascii_of_nat (nat_of_ascii c + 32) else c.

(** [std::transform(s.begin(), s.end(), s.begin(), ::tolower)]. *)
Fixpoint str_tolower (s : string) : string :=
  match s with
  | EmptyString => EmptyString
  | String c s' => String (tolower c) (str_tolower s')
  end.

(** [hay.find(needle) != std::string::npos]. *)
Fixpoint str_contains (needle hay : string) : bool :=
  String.prefix needle hay ||
  match hay with
  | EmptyString => false
  | String _ hay' => str_contains needle hay'
  end.

(** The last character of a string, [s.back()]. *)
Fixpoint str_back (s : string) : option ascii :=
  match s with
  | EmptyString => None
  | String c EmptyString => Some c
  | String _ s' => str_back s'
  end.

Definition str_front (s : string) : option ascii :=
  match s with
  | EmptyString => None
  | String c _ => Some c
  end.

(** [s.pop_back()]. *)
Fixpoint str_pop_back (s : string) : string :=
  match s with
  | EmptyString => EmptyString
  | String c EmptyString => EmptyString
  | String c s' => String c (str_pop_back s')
  end.

Definition str_length (s : string) : Z := Z.of_nat (String.length s).

(** ** Regular expressions ([std::regex_match] on the whole string)

    A matcher by derivatives; character classes are predicates. *)

Inductive regex : Type :=
  | Void
  | Eps
  | Class (p : ascii -> bool)
  | Cat (r1 r2 : regex)
  | Alt (r1 r2 : regex)
  | Star (r : regex).

Fixpoint nullable (r : regex) : bool :=
  match r with
  | Void => false
  | Eps => true
  | Class _ => false
  | Cat r1 r2 => nullable r1 && nullable r2
  | Alt r1 r2 => nullable r1 || nullable r2
  | Star _ => true
  end.

Fixpoint deriv (c : ascii) (r : regex) : regex :=
  match r with
  | Void => Void
  | Eps => Void
  | Class p => if p c then Eps else Void
  | Cat r1 r2 =>
      if nullable r1 then Alt (Cat (deriv c r1) r2) (deriv c r2)
      else Cat (deriv c r1) r2
  | Alt r1 r2 => Alt (deriv c r1) (deriv c r2)
  | Star r1 => Cat (deriv c r1) (Star r1)
  end.

Fixpoint regex_match (r : regex) (s : string) : bool :=
  match s with
  | EmptyString => nullable r
  | String c s' => regex_match (deriv c r) s'
  end.

(** The language of a regular expression, for the proofs. *)
Inductive Matches : regex -> string -> Prop :=
  | MEps : Matches Eps EmptyString
  | MClass p c : p c = true -> Matches (Class p) (String c EmptyString)
  | MCat r1 r2 s1 s2 :
      Matches r1 s1 -> Matches r2 s2 -> Matches (Cat r1 r2) (s1 +:+ s2)
  | MAltL r1 r2 s : Matches r1 s -> Matches (Alt r1 r2) s
  | MAltR r1 r2 s : Matches r2 s -> Matches (Alt r1 r2) s
  | MStarNil r : Matches (Star r) EmptyString
  | MStarCons r s1 s2 :
      Matches r s1 -> Matches (Star r) s2 -> Matches (Star r) (s1 +:+ s2).

(** ** Host types

    What the script uses of the server's [Player], [Pet], gossip menu and
    [DataMap] classes. *)

Inductive GossipIcon : Type :=
  | GOSSIP_ICON_CHAT
  | GOSSIP_ICON_VENDOR
  | GOSSIP_ICON_TAXI
  | GOSSIP_ICON_TRAINER
  | GOSSIP_ICON_INTERACT_1
  | GOSSIP_ICON_MONEY_BAG
  | GOSSIP_ICON_TALK
  | GOSSIP_ICON_BATTLE.

(** One [AddGossipItemFor] entry; the sender is always [GOSSIP_SENDER_MAIN]. *)
Record GossipItem : Type := mkItem {
  item_icon : GossipIcon;
  item_label : string;
  item_action : Z
}.

(** The values the script stores in [player->CustomData]. *)
Inductive DataValue : Type :=
  | BeastmasterBool (value : bool)
  | BeastmasterUInt32 (value : Z)
  | BeastmasterPetMap (map : gmap Z Z).

Record Pet : Type := mkPet {
  pet_entry : Z;
  pet_name : string;
  pet_created_by : Z;
  pet_happiness : Z
}.

Record Player : Type := mkPlayer {
  guid : Z;                          (* GetGUID(): counter and raw value *)
  player_name : string;
  getClass : Z;
  getRace : Z;
  GetLevel : Z;
  IsExistPet : bool;
  GetPet : option Pet;
  spells : gset Z;                   (* HasSpell *)
  talents : gset Z;                  (* HasTalent(_, GetActiveSpec()) *)
  CustomData : gmap string DataValue;
  PlayerMenu : list GossipItem       (* the gossip menu under construction *)
}.

(** What the player's client and the world observe. *)
Inductive Event : Type :=
  | Whisper (msg : string)
  | SysMessage (msg : string)
  | SendGossipMenu (textId : Z) (items : list GossipItem)
  | CloseGossipMenu
  | PlayDirectSound (sound : Z)
  | SendStablePet
  | SendListInventory.

(** ** The catalogue and the runtime singleton *)

(** [PetInfo] of NpcBeastmaster.h, with the fields the script reads and
    writes. *)
Record PetInfo : Type := mkPetInfo {
  entry : Z;
  name : string;
  family : Z;
  rarity : string;
  icon : GossipIcon
}.

(** [BeastmasterRuntime::Config]. *)
Record Config : Type := mkConfig {
  hunterOnly : bool;
  allowExotic : bool;
  keepPetHappy : bool;
  minLevel : Z;
  maxLevel : Z;
  hunterBeastMasteryRequired : bool;
  trackTamedPets : bool;
  maxTrackedPets : Z;
  allowedRaces : gset Z;
  allowedClasses : gset Z
}.

(** A cached row of the tracked list: entry, custom name, date tamed. *)
Definition TrackedTuple : Type := (Z * string * Z)%type.

Record BeastmasterRuntime : Type := mkRuntime {
  config : Config;
  allPets : list PetInfo;
  normalPets : list PetInfo;
  exoticPets : list PetInfo;
  rarePets : list PetInfo;
  rareExoticPets : list PetInfo;
  rarePetEntries : gset Z;
  rareExoticPetEntries : gset Z;
  allPetsByEntry : gmap Z PetInfo;
  tamedEntriesCache : gmap Z (gset Z);
  trackedPetsCache : gmap Z (list TrackedTuple)
}.

Definition hunterSpells : list Z := [883; 982; 2641; 6991; 48990; 1002; 1462; 6197].

Definition PET_BEASTMASTER_HOWL : Z := 9036.
Definition PET_SPELL_CALL_PET : Z := 883.
Definition PET_SPELL_TAME_BEAST : Z := 13481.
Definition PET_SPELL_BEAST_MASTERY : Z := 53270.
Definition PET_MAX_HAPPINESS : Z := 1048000.

(** [BeastmasterRuntime::Gossip]: page size and action ranges. *)
Module Gossip.
Definition PageSize : Z := 13.
Definition PetsStart : Z := 501.
Definition ExoticStart : Z := 601.
Definition RareStart : Z := 701.
Definition RareExoticStart : Z := 801.
Definition PetEntryOffset : Z := 901.
Definition MainMenu : Z := 50.
Definition RemoveSkills : Z := 80.
Definition GossipHello : Z := 601026.
Definition GossipBrowse : Z := 601027.
Definition TrackedPetsMenu : Z := 1000.
End Gossip.

(** [BeastmasterRuntime::Tracked]. *)
Module Tracked.
Definition MenuBase : Z := 1000.
Definition SummonBase : Z := 2000.
Definition RenameBase : Z := 3000.
Definition DeleteBase : Z := 4000.
Definition PageSize : Z := 10.
End Tracked.

(** Helpers to interpret action codes. *)
Definition IsBrowseNormal (a : Z) : bool :=
  (Gossip.PetsStart <=? a) && (a <? Gossip.ExoticStart).
Definition IsBrowseExotic (a : Z) : bool :=
  (Gossip.ExoticStart <=? a) && (a <? Gossip.RareStart).
Definition IsBrowseRare (a : Z) : bool :=
  (Gossip.RareStart <=? a) && (a <? Gossip.RareExoticStart).
Definition IsBrowseRareExotic (a : Z) : bool :=
  (Gossip.RareExoticStart <=? a) && (a <? Gossip.PetEntryOffset).
Definition IsAdoptAction (a : Z) : bool := Gossip.PetEntryOffset <=? a.
Definition IsTrackedMenu (a : Z) : bool :=
  (Gossip.TrackedPetsMenu <=? a) && (a <? Tracked.SummonBase).
Definition IsTrackedSummon (a : Z) : bool :=
  (Tracked.SummonBase <=? a) && (a <? Tracked.RenameBase).
Definition IsTrackedRename (a : Z) : bool :=
  (Tracked.RenameBase <=? a) && (a <? Tracked.DeleteBase).
Definition IsTrackedDelete (a : Z) : bool :=
  (Tracked.DeleteBase <=? a) && (a <? Tracked.DeleteBase + 1000).

(** ** The environment a handler reads *)

(** Enumerators of the server headers that the script compares against;
    their values are not part of this repository. *)
Record HostEnums : Type := mkHost {
  CLASS_HUNTER : Z;
  GOSSIP_OPTION_VENDOR : Z;
  GOSSIP_OPTION_STABLEPET : Z
}.

(** The options of the configuration file, as [sConfigMgr] returns them;
    the four lists are the sets their parsers produce. *)
Record ConfigFile : Type := mkConfigFile {
  opt_Enable : bool;
  opt_ProfanityFilter : bool;
  opt_HunterOnly : bool;
  opt_AllowExotic : bool;
  opt_KeepPetHappy : bool;
  opt_MinLevel : Z;
  opt_MaxLevel : Z;
  opt_HunterBeastMasteryRequired : bool;
  opt_TrackTamedPets : bool;
  opt_MaxTrackedPets : Z;
  opt_AllowedRaces : gset Z;
  opt_AllowedClasses : gset Z;
  opt_RarePets : gset Z;
  opt_RareExoticPets : gset Z
}.

(** A row of the world table [beastmaster_tames]. *)
Record TameRow : Type := mkTameRow {
  tame_entry : Z;
  tame_name : string;
  tame_family : Z;
  tame_rarity : string
}.

(** A row of the characters table [beastmaster_tamed_pets]. *)
Record TamedRow : Type := mkTamedRow {
  owner_guid : Z;
  tamed_entry : Z;
  tamed_name : string;
  date_tamed : Z
}.

(** The number of rows of the table for one (owner, entry) pair, and the
    uniqueness the table is declared with. *)
Definition count_pair (tbl : list TamedRow) (owner e : Z) : nat :=
  length (filter (fun r => owner_guid r = owner /\ tamed_entry r = e) tbl).

Definition unique_rows (tbl : list TamedRow) : Prop :=
  forall owner e, (count_pair tbl owner e <= 1)%nat.

(** conf/profanity.txt as [stat] and [std::ifstream] see it: modification
    time (0 when [stat] fails) and the lines when the file opens. *)
Record ProfanityFile : Type := mkProfanityFile {
  file_mtime : Z;
  file_lines : option (list string)
}.

(** Modelled from the spec: the declaration of the table
    beastmaster_tamed_pets is not among the sources.  The specification has
    the table "logically unique on (ownerId, entry)"; the database is taken
    to keep that key whatever text it is handed. *)
Definition keeps_key (execute : string -> list TamedRow -> list TamedRow) : Prop :=
  forall text tbl, unique_rows tbl -> unique_rows (execute text tbl).

Record Env : Type := mkEnv {
  host : HostEnums;
  conf : ConfigFile;
  beastmaster_tames : list TameRow;
  creature_template : gmap Z string;  (* entries Player::CreatePet can instantiate *)
  profanity_txt : ProfanityFile;
  now : Z;                            (* default of the column date_tamed *)
  (* The characters database, for a text that is not a statement of the
     source as written (see [Execute_pasted]): the table afterwards. *)
  CharacterDatabase_Execute : string -> list TamedRow -> list TamedRow;
  CharacterDatabase_key : keeps_key CharacterDatabase_Execute
}.

(** ** The state a handler changes *)

Record Sys : Type := mkSys {
  rt : BeastmasterRuntime;
  beastmaster_tamed_pets : list TamedRow;
  sProfanityList : gset string;
  sProfanityListMTime : Z;
  player : Player;
  out : list Event
}.

(** Field updates. *)
Definition with_rt (r : BeastmasterRuntime) (s : Sys) : Sys :=
  mkSys r (beastmaster_tamed_pets s) (sProfanityList s) (sProfanityListMTime s)
        (player s) (out s).
Definition with_table (t : list TamedRow) (s : Sys) : Sys :=
  mkSys (rt s) t (sProfanityList s) (sProfanityListMTime s) (player s) (out s).
Definition with_profanity (l : gset string) (mtime : Z) (s : Sys) : Sys :=
  mkSys (rt s) (beastmaster_tamed_pets s) l mtime (player s) (out s).
Definition with_player (p : Player) (s : Sys) : Sys :=
  mkSys (rt s) (beastmaster_tamed_pets s) (sProfanityList s)
        (sProfanityListMTime s) p (out s).
Definition emit (e : Event) (s : Sys) : Sys :=
  mkSys (rt s) (beastmaster_tamed_pets s) (sProfanityList s)
        (sProfanityListMTime s) (player s) (out s ++ [e]).

Definition with_tamedEntriesCache (c : gmap Z (gset Z)) (r : BeastmasterRuntime)
  : BeastmasterRuntime :=
  mkRuntime (config r) (allPets r) (normalPets r) (exoticPets r) (rarePets r)
            (rareExoticPets r) (rarePetEntries r) (rareExoticPetEntries r)
            (allPetsByEntry r) c (trackedPetsCache r).
Definition with_trackedPetsCache (c : gmap Z (list TrackedTuple))
  (r : BeastmasterRuntime) : BeastmasterRuntime :=
  mkRuntime (config r) (allPets r) (normalPets r) (exoticPets r) (rarePets r)
            (rareExoticPets r) (rarePetEntries r) (rareExoticPetEntries r)
            (allPetsByEntry r) (tamedEntriesCache r) c.

Definition with_CustomData (d : gmap string DataValue) (p : Player) : Player :=
  mkPlayer (guid p) (player_name p) (getClass p) (getRace p) (GetLevel p)
           (IsExistPet p) (GetPet p) (spells p) (talents p) d (PlayerMenu p).
Definition with_PlayerMenu (m : list GossipItem) (p : Player) : Player :=
  mkPlayer (guid p) (player_name p) (getClass p) (getRace p) (GetLevel p)
           (IsExistPet p) (GetPet p) (spells p) (talents p) (CustomData p) m.
Definition with_spells (sp : gset Z) (p : Player) : Player :=
  mkPlayer (guid p) (player_name p) (getClass p) (getRace p) (GetLevel p)
           (IsExistPet p) (GetPet p) sp (talents p) (CustomData p) (PlayerMenu p).
Definition with_pet (pt : Pet) (p : Player) : Player :=
  mkPlayer (guid p) (player_name p) (getClass p) (getRace p) (GetLevel p)
           true (Some pt) (spells p) (talents p) (CustomData p) (PlayerMenu p).

(** ** Host operations on the player *)

Definition HasSpell (p : Player) (spell : Z) : bool := bool_decide (spell ∈ spells p).
Definition HasTalent (p : Player) (spell : Z) : bool := bool_decide (spell ∈ talents p).

Definition ClearGossipMenuFor (s : Sys) : Sys :=
  with_player (with_PlayerMenu [] (player s)) s.
Definition AddGossipItemFor (i : GossipIcon) (label : string) (action : Z) (s : Sys)
  : Sys :=
  with_player (with_PlayerMenu (PlayerMenu (player s) ++ [mkItem i label action])
                               (player s)) s.
Definition SendGossipMenuFor (textId : Z) (s : Sys) : Sys :=
  emit (SendGossipMenu textId (PlayerMenu (player s))) s.
Definition CloseGossipMenuFor (s : Sys) : Sys := emit CloseGossipMenu s.

(** [creature->Whisper] when the creature is there, the chat handler's
    [PSendSysMessage] otherwise. *)
Definition tell (creature : option Z) (msg : string) (s : Sys) : Sys :=
  match creature with
  | Some _ => emit (Whisper msg) s
  | None => emit (SysMessage msg) s
  end.

(** [player->CustomData.Get<T>(key)] for the three stored types. *)
Definition Get_Bool (p : Player) (key : string) : option bool :=
  match CustomData p !! key with
  | Some (BeastmasterBool b) => Some b
  | _ => None
  end.
Definition Get_UInt32 (p : Player) (key : string) : option Z :=
  match CustomData p !! key with
  | Some (BeastmasterUInt32 v) => Some v
  | _ => None
  end.
Definition Get_PetMap (p : Player) (key : string) : option (gmap Z Z) :=
  match CustomData p !! key with
  | Some (BeastmasterPetMap m) => Some m
  | _ => None
  end.

Definition CustomData_Set (key : string) (v : DataValue) (s : Sys) : Sys :=
  with_player (with_CustomData (<[key := v]> (CustomData (player s))) (player s)) s.
Definition CustomData_Erase (key : string) (s : Sys) : Sys :=
  with_player (with_CustomData (delete key (CustomData (player s))) (player s)) s.

(** [player->CreatePet(entry, spell)] of the server: a pet of the creature
    template, or null when the player has a pet or the template is missing. *)
Definition Player_CreatePet (env : Env) (p : Player) (petEntry spell : Z)
  : option Pet :=
  if IsExistPet p then None
  else match creature_template env !! petEntry with
       | Some nm => Some (mkPet petEntry nm spell 0)
       | None => None
       end.

(** ** Statements with a pasted string *)

(** Two statements are formatted with a string between apostrophes,
    ['{}'], and the string is pasted as it is, without escaping.  A string
    with no apostrophe and no backslash is the literal it looks like. *)
Fixpoint sql_plain (s : string) : bool :=
  match s with
  | EmptyString => true
  | String c s' =>
      negb (Ascii.eqb c "'") && negb (Ascii.eqb c "\") && sql_plain s'
  end.

(** [CharacterDatabase.Execute(fmt, ..., pasted, ...)]: with a plain
    string the text is the statement written in the source and [written]
    is its effect on the table; with any other string the text is some
    other text, and the table becomes what the database makes of it. *)
Definition Execute_pasted (env : Env) (pasted text : string)
  (written : list TamedRow -> list TamedRow) (tbl : list TamedRow)
  : list TamedRow :=
  if sql_plain pasted then written tbl
  else CharacterDatabase_Execute env text tbl.

(** ** BeastmasterDB *)

Module BeastmasterDB.

(** [SELECT 1 ... WHERE owner_guid = {} AND entry = {}] has a row. *)
Definition tracked (tbl : list TamedRow) (owner creatureEntry : Z) : bool :=
  existsb (fun r => (owner_guid r =? owner) && (tamed_entry r =? creatureEntry)) tbl.

(** The text of the INSERT. *)
Definition insert_text (owner creatureEntry : Z) (petName : string) : string :=
  "INSERT INTO beastmaster_tamed_pets (owner_guid, entry, name) VALUES ("
  +:+ pretty owner +:+ ", " +:+ pretty creatureEntry +:+ ", '" +:+ petName +:+ "')".

(** The INSERT is executed and [true] returned without a look at what
    became of it. *)
Definition TrackTamedPet (env : Env) (p : Player) (creatureEntry : Z)
  (petName : string) (tbl : list TamedRow) : list TamedRow * bool :=
  if tracked tbl (guid p) creatureEntry then (tbl, false)
  else (Execute_pasted env petName (insert_text (guid p) creatureEntry petName)
          (fun t => t ++ [mkTamedRow (guid p) creatureEntry petName (now env)]) tbl,
        true).

End BeastmasterDB.

(** [SELECT COUNT( * ) ... WHERE owner_guid = {}]. *)
Definition count_tamed (tbl : list TamedRow) (owner : Z) : Z :=
  Z.of_nat (length (filter (fun r => owner_guid r = owner) tbl)).

(** [ORDER BY date_tamed DESC]: insertion into a list sorted by falling
    date, behind the rows of the same date. *)
Fixpoint insert_by_date (r : TamedRow) (l : list TamedRow) : list TamedRow :=
  match l with
  | [] => [r]
  | x :: l' =>
      if date_tamed x <? date_tamed r then r :: x :: l'
      else x :: insert_by_date r l'
  end.

Definition order_by_date_desc (l : list TamedRow) : list TamedRow :=
  foldl (fun acc r => insert_by_date r acc) [] l.

(** ** Pet names *)

Definition LoadProfanityListIfNeeded (env : Env) (s : Sys) : Sys :=
  let mtime := file_mtime (profanity_txt env) in
  if mtime =? 0 then s
  else if (mtime =? sProfanityListMTime s) && negb (bool_decide (sProfanityList s = ∅))
  then s
  else
    match file_lines (profanity_txt env) with
    | None => with_profanity ∅ (sProfanityListMTime s) s
    | Some lines =>
        with_profanity
          (foldl (fun (acc : gset string) word =>
                    let word := str_tolower word in
                    if String.eqb word "" then acc else {[word]} ∪ acc)
                 ∅ lines)
          mtime s
    end.

Definition IsProfane (env : Env) (name : string) (s : Sys) : Sys * bool :=
  if negb (opt_ProfanityFilter (conf env)) then (s, false)
  else
    let s := LoadProfanityListIfNeeded env s in
    let lower := str_tolower name in
    (s, existsb (fun bad => str_contains bad lower) (elements (sProfanityList s))).

(** The pattern [^[A-Za-z][A-Za-z \-']*[A-Za-z]$]. *)
Definition allowed : regex :=
  Cat (Class is_letter) (Cat (Star (Class is_name_char)) (Class is_letter)).

Definition IsValidPetName (name : string) : bool :=
  if (str_length name <? 2) || (16 <? str_length name) then false
  else if from_option isspace false (str_front name)
          || from_option isspace false (str_back name) then false
  else regex_match allowed name.

(** ** LoadSystem *)

Definition TrainerIconFamilies : list Z :=
  [1; 2; 3; 4; 7; 8; 9; 10; 15; 20; 21; 30; 24; 31; 25; 34; 27].

Definition fetch_info (row : TameRow) : PetInfo :=
  mkPetInfo (tame_entry row) (tame_name row) (tame_family row) (tame_rarity row)
            (if bool_decide (tame_family row ∈ TrainerIconFamilies)
             then GOSSIP_ICON_TRAINER else GOSSIP_ICON_VENDOR).

(** The configuration snapshot, with the level bounds put in order. *)
Definition read_config (c : ConfigFile) : Config :=
  let swap := negb (opt_MaxLevel c =? 0) && (opt_MaxLevel c <? opt_MinLevel c)
              && negb (opt_MinLevel c =? 0) in
  mkConfig (opt_HunterOnly c) (opt_AllowExotic c) (opt_KeepPetHappy c)
           (if swap then opt_MaxLevel c else opt_MinLevel c)
           (if swap then opt_MinLevel c else opt_MaxLevel c)
           (opt_HunterBeastMasteryRequired c) (opt_TrackTamedPets c)
           (opt_MaxTrackedPets c) (opt_AllowedRaces c) (opt_AllowedClasses c).

(** The body of the loop over the rows of [beastmaster_tames]. *)
Definition load_row (r : BeastmasterRuntime) (row : TameRow) : BeastmasterRuntime :=
  let info := fetch_info row in
  let all := allPets r ++ [info] in
  let byEntry := <[entry info := info]> (allPetsByEntry r) in
  if bool_decide (entry info ∈ rarePetEntries r) then
    mkRuntime (config r) all (normalPets r) (exoticPets r) (rarePets r ++ [info])
              (rareExoticPets r) (rarePetEntries r) (rareExoticPetEntries r)
              byEntry (tamedEntriesCache r) (trackedPetsCache r)
  else if bool_decide (entry info ∈ rareExoticPetEntries r) then
    mkRuntime (config r) all (normalPets r) (exoticPets r) (rarePets r)
              (rareExoticPets r ++ [info]) (rarePetEntries r)
              (rareExoticPetEntries r) byEntry (tamedEntriesCache r)
              (trackedPetsCache r)
  else if String.eqb (rarity info) "exotic" then
    mkRuntime (config r) all (normalPets r) (exoticPets r ++ [info]) (rarePets r)
              (rareExoticPets r) (rarePetEntries r) (rareExoticPetEntries r)
              byEntry (tamedEntriesCache r) (trackedPetsCache r)
  else
    mkRuntime (config r) all (normalPets r ++ [info]) (exoticPets r) (rarePets r)
              (rareExoticPets r) (rarePetEntries r) (rareExoticPetEntries r)
              byEntry (tamedEntriesCache r) (trackedPetsCache r).

Definition LoadSystem_rt (env : Env) (r : BeastmasterRuntime) : BeastmasterRuntime :=
  let cleared :=
    mkRuntime (read_config (conf env)) [] [] [] [] []
              (opt_RarePets (conf env)) (opt_RareExoticPets (conf env))
              ∅ (tamedEntriesCache r) (trackedPetsCache r) in
  match beastmaster_tames env with
  | [] => cleared
  | rows => foldl load_row cleared rows
  end.

Definition LoadSystem (env : Env) (s : Sys) : Sys := with_rt (LoadSystem_rt env (rt s)) s.

Definition FindPetInfo (s : Sys) (e : Z) : option PetInfo := allPetsByEntry (rt s) !! e.

(** ** The main menu *)

Definition has_beast_mastery (p : Player) : bool :=
  HasSpell p PET_SPELL_BEAST_MASTERY || HasTalent p PET_SPELL_BEAST_MASTERY.

Definition add_exotic_items (s : Sys) : Sys :=
  AddGossipItemFor GOSSIP_ICON_BATTLE "Browse Rare Exotic Pets" Gossip.RareExoticStart
    (AddGossipItemFor GOSSIP_ICON_BATTLE "Browse Exotic Pets" Gossip.ExoticStart s).

Definition ShowMainMenu (env : Env) (creature : option Z) (s : Sys) : Sys :=
  if negb (opt_Enable (conf env)) then s
  else
    let needLoad := bool_decide (allPets (rt s) = []) in
    let s := if needLoad then LoadSystem env s else s in
    if needLoad && bool_decide (allPets (rt s) = []) then
      tell creature
        "No pets available (beastmaster_tames table empty?). Contact an administrator." s
    else
      let p := player s in
      let cfg := config (rt s) in
      let hunter := getClass p =? CLASS_HUNTER (host env) in
      if hunterOnly cfg && negb hunter then
        tell creature "I am sorry, but pets are for hunters only." s
      else if negb (bool_decide (allowedClasses cfg = ∅))
              && negb (bool_decide (getClass p ∈ allowedClasses cfg)) then
        tell creature "Your class is not allowed to adopt pets." s
      else if negb (bool_decide (allowedRaces cfg = ∅))
              && negb (bool_decide (getRace p ∈ allowedRaces cfg)) then
        tell creature "Your race is not allowed to adopt pets." s
      else if (GetLevel p <? minLevel cfg) && negb (minLevel cfg =? 0) then
        tell creature
          ("Sorry " +:+ player_name p +:+ ", but you must reach level "
           +:+ pretty (minLevel cfg) +:+ " before adopting a pet.") s
      else if negb (maxLevel cfg =? 0) && (maxLevel cfg <? GetLevel p) then
        tell creature
          ("Sorry " +:+ player_name p +:+ ", but you must be level "
           +:+ pretty (maxLevel cfg) +:+ " or lower to adopt a pet.") s
      else
        let s := ClearGossipMenuFor s in
        let s := AddGossipItemFor GOSSIP_ICON_BATTLE "Browse Pets" Gossip.PetsStart s in
        let s := AddGossipItemFor GOSSIP_ICON_BATTLE "Browse Rare Pets" Gossip.RareStart s in
        let s :=
          if allowExotic cfg || has_beast_mastery p then
            if negb hunter then add_exotic_items s
            else if negb (hunterBeastMasteryRequired cfg)
                    || HasTalent p PET_SPELL_BEAST_MASTERY then add_exotic_items s
            else s
          else s in
        let s :=
          if negb hunter && HasSpell p PET_SPELL_CALL_PET then
            AddGossipItemFor GOSSIP_ICON_BATTLE "Unlearn Hunter Abilities"
                             Gossip.RemoveSkills s
          else s in
        let s :=
          if trackTamedPets cfg then
            AddGossipItemFor GOSSIP_ICON_CHAT "My Tamed Pets" Gossip.TrackedPetsMenu s
          else s in
        let s :=
          if hunter then
            AddGossipItemFor GOSSIP_ICON_TAXI "Visit Stable"
                             (GOSSIP_OPTION_STABLEPET (host env)) s
          else s in
        let s := AddGossipItemFor GOSSIP_ICON_MONEY_BAG "Buy Pet Food"
                                  (GOSSIP_OPTION_VENDOR (host env)) s in
        let s := SendGossipMenuFor Gossip.GossipHello s in
        emit (PlayDirectSound PET_BEASTMASTER_HOWL) s.

(** ** Browsing a bucket *)

(** The loop of [AddPetsToGossip]: [count] runs from 1 over the bucket. *)
Fixpoint pets_loop (tamedEntries : gset Z) (page : Z) (pets : list PetInfo)
  (count : Z) (s : Sys) : Sys :=
  match pets with
  | [] => s
  | pet :: rest =>
      let s :=
        if (wrap32 ((page - 1) * Gossip.PageSize) <? count)
           && (count <=? wrap32 (page * Gossip.PageSize)) then
          if bool_decide (entry pet ∈ tamedEntries) then
            AddGossipItemFor GOSSIP_ICON_CHAT (name pet +:+ " (Already Tamed)") 0 s
          else
            AddGossipItemFor (icon pet) (name pet)
                             (wrap32 (entry pet + Gossip.PetEntryOffset)) s
        else s in
      pets_loop tamedEntries page rest (wrap32 (count + 1)) s
  end.

(** [SELECT entry FROM beastmaster_tamed_pets WHERE owner_guid = {}]. *)
Definition tamed_entries_of (tbl : list TamedRow) (owner : Z) : gset Z :=
  list_to_set (tamed_entry <$> filter (fun r => owner_guid r = owner) tbl).

Definition AddPetsToGossip (pets : list PetInfo) (page : Z) (s : Sys) : Sys :=
  let g := guid (player s) in
  let '(s, tamedEntries) :=
    if trackTamedPets (config (rt s)) then
      match tamedEntriesCache (rt s) !! g with
      | Some t => (s, t)
      | None =>
          let snapshot := tamed_entries_of (beastmaster_tamed_pets s) g in
          (with_rt (with_tamedEntriesCache (<[g := snapshot]> (tamedEntriesCache (rt s)))
                                           (rt s)) s,
           snapshot)
      end
    else (s, ∅) in
  pets_loop tamedEntries page pets 1 s.

(** [size / PageSize + (size % PageSize != 0)], stored in an [int]. *)
Definition maxPage_of (pets : list PetInfo) : Z :=
  let size := Z.of_nat (length pets) in
  to_int (size / Gossip.PageSize + (if size mod Gossip.PageSize =? 0 then 0 else 1)).

(** The body shared by the four browse branches of [GossipSelect]; [start]
    is the base of the range and [pets] the bucket. *)
Definition browse_branch (start : Z) (pets : list PetInfo) (creature : option Z)
  (action : Z) (s : Sys) : option Sys :=
  let s := AddGossipItemFor GOSSIP_ICON_TALK "Back.." Gossip.MainMenu s in
  let page := to_int (action - start + 1) in
  let maxPage := maxPage_of pets in
  let s :=
    if 1 <? page then
      AddGossipItemFor GOSSIP_ICON_INTERACT_1 "Previous.." (wrap32 (start + page - 2)) s
    else s in
  let s :=
    if page <? maxPage then
      AddGossipItemFor GOSSIP_ICON_INTERACT_1 "Next.." (wrap32 (start + page)) s
    else s in
  let s := AddPetsToGossip pets (wrap32 page) s in
  match creature with
  | Some _ => Some (SendGossipMenuFor Gossip.GossipBrowse s)
  | None => None
  end.

(** The exotic branches first teach Beast Mastery to a player without it. *)
Definition teach_beast_mastery (creature : option Z) (s : Sys) : option Sys :=
  let p := player s in
  if has_beast_mastery p then Some s
  else
    let s := with_player (with_spells ({[PET_SPELL_BEAST_MASTERY]} ∪ spells p) p) s in
    match creature with
    | Some _ =>
        Some (emit (Whisper ("I have taught you the art of Beast Mastery, "
                             +:+ player_name p +:+ ".")) s)
    | None => None
    end.

(** ** Tracked pets *)

Definition ClearTrackedPetsCache (s : Sys) : Sys :=
  let s := with_rt (with_trackedPetsCache
                      (delete (guid (player s)) (trackedPetsCache (rt s))) (rt s)) s in
  CustomData_Erase "BeastmasterMenuPetMap" s.

(** The loop of [ShowTrackedPetsMenu] over the rows from [offset] on. *)
Fixpoint tracked_loop (rows : list TrackedTuple) (shown : Z)
  (menuPetIndexToEntry : gmap Z Z) (s : Sys) : Sys * gmap Z Z :=
  match rows with
  | [] => (s, menuPetIndexToEntry)
  | (e, nm, _) :: rest =>
      if shown <? Tracked.PageSize then
        let label :=
          match FindPetInfo s e with
          | Some info => nm +:+ " [" +:+ name info +:+ ", " +:+ rarity info +:+ "]"
          | None => nm
          end in
        let idx := shown in
        let m := <[idx := e]> menuPetIndexToEntry in
        let s := AddGossipItemFor GOSSIP_ICON_TAXI ("Summon: " +:+ label)
                                  (Tracked.SummonBase + idx) s in
        let s := AddGossipItemFor GOSSIP_ICON_TRAINER ("Rename: " +:+ label)
                                  (Tracked.RenameBase + idx) s in
        let s := AddGossipItemFor GOSSIP_ICON_BATTLE ("Delete: " +:+ label)
                                  (Tracked.DeleteBase + idx) s in
        tracked_loop rest (shown + 1) m s
      else (s, menuPetIndexToEntry)
  end.

(** [SELECT entry, name, date_tamed ... ORDER BY date_tamed DESC]. *)
Definition tracked_rows_of (tbl : list TamedRow) (owner : Z) : list TrackedTuple :=
  (fun r => (tamed_entry r, tamed_name r, date_tamed r))
    <$> order_by_date_desc (filter (fun r => owner_guid r = owner) tbl).

Definition ShowTrackedPetsMenu (creature : option Z) (page : Z) (s : Sys)
  : option Sys :=
  let s := ClearGossipMenuFor s in
  let g := guid (player s) in
  let cached :=
    match trackedPetsCache (rt s) !! g with
    | Some l => Some (s, l)
    | None =>
        if trackTamedPets (config (rt s)) then
          let l := tracked_rows_of (beastmaster_tamed_pets s) g in
          Some (with_rt (with_trackedPetsCache (<[g := l]> (trackedPetsCache (rt s)))
                                               (rt s)) s, l)
        else None
    end in
  match cached with
  | None => None                    (* [*trackedPetsPtr] on a null pointer *)
  | Some (s, trackedPets) =>
      let offset := wrap32 ((page - 1) * Tracked.PageSize) in
      let '(s, m) := tracked_loop (drop (Z.to_nat offset) trackedPets) 0 ∅ s in
      let s := CustomData_Set "BeastmasterMenuPetMap" (BeastmasterPetMap m) s in
      Some (SendGossipMenuFor Gossip.GossipBrowse s)
  end.

(** ** Adoption *)

(** [creature->Whisper(...)]: the creature pointer is dereferenced. *)
Definition whisper (creature : option Z) (msg : string) (s : Sys) : option Sys :=
  match creature with
  | Some _ => Some (emit (Whisper msg) s)
  | None => None
  end.

Definition whisper_close (creature : option Z) (msg : string) (s : Sys) : option Sys :=
  CloseGossipMenuFor <$> whisper creature msg s.

Definition is_exotic (info : option PetInfo) : bool :=
  match info with
  | Some i => String.eqb (rarity i) "exotic"
  | None => false
  end.

Definition learn_hunter_spells (p : Player) : Player :=
  foldl (fun p spell => if HasSpell p spell then p
                        else with_spells ({[spell]} ∪ spells p) p)
        p hunterSpells.

Definition CreatePet (env : Env) (creature : option Z) (action : Z) (s : Sys)
  : option Sys :=
  if negb (opt_Enable (conf env)) then Some s
  else
    let petEntry := wrap32 (action - Gossip.PetEntryOffset) in
    let info := FindPetInfo s petEntry in
    let p := player s in
    let cfg := config (rt s) in
    let hunter := getClass p =? CLASS_HUNTER (host env) in
    if IsExistPet p then
      whisper_close creature "First you must abandon or stable your current pet!" s
    else if is_exotic info && negb hunter && negb (allowExotic cfg) then
      whisper_close creature "Only hunters can adopt exotic pets." s
    else if is_exotic info && hunter && hunterBeastMasteryRequired cfg
            && negb (HasTalent p PET_SPELL_BEAST_MASTERY) then
      whisper_close creature "You need the Beast Mastery talent to adopt exotic pets." s
    else if trackTamedPets cfg && (0 <? maxTrackedPets cfg)
            && (maxTrackedPets cfg <=? count_tamed (beastmaster_tamed_pets s) (guid p))
    then
      whisper_close creature "You have reached the maximum number of tracked pets." s
    else
      match Player_CreatePet env p petEntry
              (if hunter then PET_SPELL_TAME_BEAST else PET_SPELL_CALL_PET) with
      | None => whisper creature "First you must abandon or stable your current pet!" s
      | Some pet =>
          let s := with_player (with_pet pet p) s in
          let s :=
            if trackTamedPets cfg then
              let '(tbl, added) :=
                BeastmasterDB.TrackTamedPet env (player s) petEntry (pet_name pet)
                                            (beastmaster_tamed_pets s) in
              let s := with_table tbl s in
              if added then
                let cache := tamedEntriesCache (rt s) in
                let old := default ∅ (cache !! guid p) in
                with_rt (with_tamedEntriesCache (<[guid p := {[petEntry]} ∪ old]> cache)
                                                (rt s)) s
              else s
            else s in
          let pet := mkPet (pet_entry pet) (pet_name pet) (pet_created_by pet)
                           PET_MAX_HAPPINESS in
          let s := with_player (with_pet pet (player s)) s in
          let s :=
            if negb hunter && negb (HasSpell (player s) PET_SPELL_CALL_PET) then
              with_player (learn_hunter_spells (player s)) s
            else s in
          whisper_close creature
            ("A fine choice " +:+ player_name p +:+ "! Take good care of your "
             +:+ pet_name pet +:+ " and you will never face your enemies alone.") s
      end.

(** ** GossipSelect *)

(** What the chain of tests in [GossipSelect] makes of an action code, in
    the order of the source. *)
Inductive Intent : Type :=
  | IMainMenu
  | IBrowseNormal (page : Z)
  | IBrowseExotic (page : Z)
  | IBrowseRare (page : Z)
  | IBrowseRareExotic (page : Z)
  | IRemoveSkills
  | IStablePet
  | IVendor
  | ITrackedMenu (page : Z)
  | ITrackedSummon (idx : Z)
  | ITrackedRename (idx : Z)
  | ITrackedDelete (idx : Z)
  | IAdopt (petEntry : Z)
  | INone.

Definition decode (h : HostEnums) (action : Z) : Intent :=
  if action =? Gossip.MainMenu then IMainMenu
  else if IsBrowseNormal action then IBrowseNormal (to_int (action - Gossip.PetsStart + 1))
  else if IsBrowseExotic action then IBrowseExotic (to_int (action - Gossip.ExoticStart + 1))
  else if IsBrowseRare action then IBrowseRare (to_int (action - Gossip.RareStart + 1))
  else if IsBrowseRareExotic action then
    IBrowseRareExotic (to_int (action - Gossip.RareExoticStart + 1))
  else if action =? Gossip.RemoveSkills then IRemoveSkills
  else if action =? GOSSIP_OPTION_STABLEPET h then IStablePet
  else if action =? GOSSIP_OPTION_VENDOR h then IVendor
  else if IsTrackedMenu action then
    ITrackedMenu (wrap32 (action - Gossip.TrackedPetsMenu + 1))
  else if IsTrackedSummon action then ITrackedSummon (wrap32 (action - Tracked.SummonBase))
  else if IsTrackedRename action then ITrackedRename (wrap32 (action - Tracked.RenameBase))
  else if IsTrackedDelete action then ITrackedDelete (wrap32 (action - Tracked.DeleteBase))
  else if IsAdoptAction action then IAdopt (wrap32 (action - Gossip.PetEntryOffset))
  else INone.

(** The action code each menu item is given where the menus are built. *)
Definition encode (h : HostEnums) (i : Intent) : Z :=
  match i with
  | IMainMenu => Gossip.MainMenu
  | IBrowseNormal page => wrap32 (Gossip.PetsStart + page - 1)
  | IBrowseExotic page => wrap32 (Gossip.ExoticStart + page - 1)
  | IBrowseRare page => wrap32 (Gossip.RareStart + page - 1)
  | IBrowseRareExotic page => wrap32 (Gossip.RareExoticStart + page - 1)
  | IRemoveSkills => Gossip.RemoveSkills
  | IStablePet => GOSSIP_OPTION_STABLEPET h
  | IVendor => GOSSIP_OPTION_VENDOR h
  | ITrackedMenu page => wrap32 (Gossip.TrackedPetsMenu + page - 1)
  | ITrackedSummon idx => Tracked.SummonBase + idx
  | ITrackedRename idx => Tracked.RenameBase + idx
  | ITrackedDelete idx => Tracked.DeleteBase + idx
  | IAdopt petEntry => wrap32 (petEntry + Gossip.PetEntryOffset)
  | INone => 0
  end.

(** The slot of the current tracked page, or nothing when the map is gone. *)
Definition slot_entry (p : Player) (idx : Z) : option Z :=
  match Get_PetMap p "BeastmasterMenuPetMap" with
  | Some m => m !! idx
  | None => None
  end.

Definition tracked_summon (env : Env) (creature : option Z) (idx : Z) (s : Sys)
  : option Sys :=
  match slot_entry (player s) idx with
  | None => Some s
  | Some e =>
      let p := player s in
      if IsExistPet p then
        whisper_close creature "First you must abandon or stable your current pet!" s
      else
        match Player_CreatePet env p e PET_SPELL_CALL_PET with
        | Some pet =>
            let customName :=
              match filter (fun r => owner_guid r = guid p ∧ tamed_entry r = e)
                           (beastmaster_tamed_pets s) with
              | r :: _ => tamed_name r
              | [] => pet_name pet
              end in
            let pet := mkPet (pet_entry pet) customName (pet_created_by pet)
                             PET_MAX_HAPPINESS in
            let s := with_player (with_pet pet p) s in
            whisper_close creature "Your tracked pet has been summoned!" s
        | None => whisper_close creature "Failed to summon pet." s
        end
  end.

Definition tracked_rename (creature : option Z) (idx : Z) (s : Sys) : option Sys :=
  match slot_entry (player s) idx with
  | None => Some s
  | Some e =>
      let s := CustomData_Set "BeastmasterRenamePetEntry" (BeastmasterUInt32 e) s in
      let s := CustomData_Set "BeastmasterExpectRename" (BeastmasterBool true) s in
      let msg := "To rename your pet, type: .petname rename <newname> in chat. To cancel, type: .petname cancel" in
      let s := emit (SysMessage msg) s in
      let s := match creature with
               | Some _ => emit (Whisper msg) s
               | None => s
               end in
      Some (CloseGossipMenuFor s)
  end.

(** [DELETE FROM beastmaster_tamed_pets WHERE owner_guid = {} AND entry = {}]. *)
Definition delete_tamed (tbl : list TamedRow) (owner e : Z) : list TamedRow :=
  filter (fun r => ¬ (owner_guid r = owner ∧ tamed_entry r = e)) tbl.

(** The delete branch up to its message: the row, the two caches. *)
Definition forget_tracked (e : Z) (s : Sys) : Sys :=
  let g := guid (player s) in
  let s := with_table (delete_tamed (beastmaster_tamed_pets s) g e) s in
  let s := ClearTrackedPetsCache s in
  let s :=
    if trackTamedPets (config (rt s)) then
      match tamedEntriesCache (rt s) !! g with
      | Some t =>
          with_rt (with_tamedEntriesCache
                     (<[g := t ∖ {[e]}]> (tamedEntriesCache (rt s))) (rt s)) s
      | None => s
      end
    else s in
  emit (SysMessage ("Tracked pet deleted (entry " +:+ pretty e +:+ ").")) s.

(** The page the delete branch renders next. *)
Definition page_after_delete (idx totalPets : Z) : Z :=
  let page := wrap32 (idx / Tracked.PageSize + 1) in
  let maxPage := wrap32 (totalPets + Tracked.PageSize - 1) / Tracked.PageSize in
  let page := if (maxPage <? page) && (0 <? maxPage) then maxPage else page in
  if page =? 0 then 1 else page.

Definition tracked_delete (creature : option Z) (idx : Z) (s : Sys) : option Sys :=
  match slot_entry (player s) idx with
  | None => Some s
  | Some e =>
      let s := forget_tracked e s in
      let totalPets :=
        wrap32 (count_tamed (beastmaster_tamed_pets s) (guid (player s))) in
      ShowTrackedPetsMenu creature (page_after_delete idx totalPets) s
  end.

Definition remove_skills (s : Sys) : Sys :=
  let p := player s in
  let sp := foldl (fun (acc : gset Z) spell => acc ∖ {[spell]}) (spells p) hunterSpells in
  let s := with_player (with_spells (sp ∖ {[PET_SPELL_BEAST_MASTERY]}) p) s in
  CloseGossipMenuFor s.

(** Sequencing of steps that may fail. *)
Definition and_then (o : option Sys) (f : Sys -> option Sys) : option Sys :=
  match o with
  | Some s => f s
  | None => None
  end.

Definition GossipSelect (env : Env) (creature : option Z) (action : Z) (s : Sys)
  : option Sys :=
  if negb (opt_Enable (conf env)) then Some s
  else
    let s := if bool_decide (allPets (rt s) = []) then LoadSystem env s else s in
    let s := ClearGossipMenuFor s in
    (* the test that follows the chain, for the branches that do not return *)
    let after (s : Sys) : option Sys :=
      if IsAdoptAction action then CreatePet env creature action s else Some s in
    match decode (host env) action with
    | IMainMenu => after (ShowMainMenu env creature s)
    | IBrowseNormal _ =>
        and_then (browse_branch Gossip.PetsStart (normalPets (rt s)) creature action s)
                 after
    | IBrowseExotic _ =>
        and_then
          (and_then (teach_beast_mastery creature s)
                    (browse_branch Gossip.ExoticStart (exoticPets (rt s)) creature action))
          after
    | IBrowseRare _ =>
        and_then (browse_branch Gossip.RareStart (rarePets (rt s)) creature action s)
                 after
    | IBrowseRareExotic _ =>
        and_then
          (and_then (teach_beast_mastery creature s)
                    (browse_branch Gossip.RareExoticStart (rareExoticPets (rt s))
                                   creature action))
          after
    | IRemoveSkills => after (remove_skills s)
    | IStablePet =>
        match creature with
        | Some _ => after (emit SendStablePet s)
        | None => None
        end
    | IVendor =>
        match creature with
        | Some _ => after (emit SendListInventory s)
        | None => None
        end
    | ITrackedMenu page => ShowTrackedPetsMenu creature page s
    | ITrackedSummon idx => tracked_summon env creature idx s
    | ITrackedRename idx => tracked_rename creature idx s
    | ITrackedDelete idx => tracked_delete creature idx s
    | IAdopt _ => after s
    | INone => after s
    end.

(** ** The chat commands of the rename protocol *)

(** [while (!s.empty() && isspace(s.front())) s.erase(s.begin())]. *)
Fixpoint erase_front_spaces (s : string) : string :=
  match s with
  | EmptyString => EmptyString
  | String c s' => if isspace c then erase_front_spaces s' else s
  end.

(** [while (!s.empty() && isspace(s.back())) s.pop_back()], at most one
    turn per character. *)
Fixpoint pop_back_spaces (turns : nat) (s : string) : string :=
  match turns with
  | O => s
  | S turns' =>
      match str_back s with
      | Some c => if isspace c then pop_back_spaces turns' (str_pop_back s) else s
      | None => s
      end
  end.

Definition trim (args : string) : string :=
  let s := erase_front_spaces args in
  pop_back_spaces (String.length s) s.

(** [UPDATE beastmaster_tamed_pets SET name = '{}' WHERE owner_guid = {} AND
    entry = {}] as it is written, that is for a name that is a plain
    string (see [Execute_pasted]). *)
Definition update_name (tbl : list TamedRow) (newName : string) (owner e : Z)
  : list TamedRow :=
  (fun r => if bool_decide (owner_guid r = owner ∧ tamed_entry r = e)
            then mkTamedRow (owner_guid r) (tamed_entry r) newName (date_tamed r)
            else r) <$> tbl.

(** The text of the UPDATE. *)
Definition update_text (newName : string) (owner e : Z) : string :=
  "UPDATE beastmaster_tamed_pets SET name = '" +:+ newName
  +:+ "' WHERE owner_guid = " +:+ pretty owner +:+ " AND entry = " +:+ pretty e.

Definition HandlePetnameRenameCommand (env : Env) (args : string) (s : Sys) : Sys :=
  let p := player s in
  match Get_Bool p "BeastmasterExpectRename",
        Get_UInt32 p "BeastmasterRenamePetEntry" with
  | Some true, Some renameEntry =>
      let newName := trim args in
      if String.eqb newName "" then
        emit (SysMessage "Usage: .petname rename <newname>") s
      else
        let invalid := "Invalid or profane pet name. Please try again with .petname rename <newname>." in
        if negb (IsValidPetName newName) then emit (SysMessage invalid) s
        else
          let '(s, profane) := IsProfane env newName s in
          if profane then emit (SysMessage invalid) s
          else
            let s :=
              with_table
                (Execute_pasted env newName (update_text newName (guid p) renameEntry)
                   (fun t => update_name t newName (guid p) renameEntry)
                   (beastmaster_tamed_pets s)) s in
            let s := CustomData_Erase "BeastmasterExpectRename" s in
            let s := CustomData_Erase "BeastmasterRenamePetEntry" s in
            let s := emit (SysMessage ("Pet renamed to '" +:+ newName +:+ "'.")) s in
            ClearTrackedPetsCache s
  | _, _ =>
      emit (SysMessage "You are not renaming a pet right now. Use the Beastmaster NPC to start renaming.") s
  end.

Definition HandlePetnameCancelCommand (s : Sys) : Sys :=
  match Get_Bool (player s) "BeastmasterExpectRename" with
  | Some true =>
      let s := CustomData_Erase "BeastmasterExpectRename" s in
      let s := CustomData_Erase "BeastmasterRenamePetEntry" s in
      emit (SysMessage "Pet renaming cancelled.") s
  | _ => emit (SysMessage "You are not renaming a pet right now.") s
  end.

(** ** Definitions used to state the properties *)

(** [sub] occurs in [s]. *)
Definition substring (sub s : string) : Prop :=
  exists pre post, s = pre +:+ sub +:+ post.

(** Every character of [s] satisfies [p]. *)
Fixpoint str_forall (p : ascii -> bool) (s : string) : bool :=
  match s with
  | EmptyString => true
  | String c s' => p c && str_forall p s'
  end.

(** The name grammar in the words of the specification: 2 to 16
    characters, a letter at both ends, letters, space, hyphen and apostrophe
    in between, no white space at either end. *)
Definition name_grammar (s : string) : Prop :=
  2 <= str_length s <= 16 /\
  (exists a mid z,
      s = String a (mid +:+ String z EmptyString) /\
      is_letter a = true /\ str_forall is_name_char mid = true /\
      is_letter z = true) /\
  from_option isspace false (str_front s) = false /\
  from_option isspace false (str_back s) = false.

(** [name] contains a word of the list, whatever the case of its letters
    (the list holds lower-case words). *)
Definition denylisted (words : gset string) (name : string) : Prop :=
  exists bad, bad ∈ words /\ substring bad (str_tolower name).

(** The test of the rename command: the name is refused when
    [!IsValidPetName(newName) || IsProfane(newName)]. *)
Definition name_accepted (env : Env) (name : string) (s : Sys) : bool :=
  IsValidPetName name && negb (snd (IsProfane env name s)).

(** The four display buckets and the rule of the specification: the rare
    override set first, then the rare-exotic one, then the rarity field. *)
Inductive Bucket : Type := Normal | Exotic | Rare | RareExotic.

Definition bucket_of (rare rareExotic : gset Z) (info : PetInfo) : Bucket :=
  if bool_decide (entry info ∈ rare) then Rare
  else if bool_decide (entry info ∈ rareExotic) then RareExotic
  else if String.eqb (rarity info) "exotic" then Exotic
  else Normal.

Definition bucket_list (r : BeastmasterRuntime) (b : Bucket) : list PetInfo :=
  match b with
  | Normal => normalPets r
  | Exotic => exoticPets r
  | Rare => rarePets r
  | RareExotic => rareExoticPets r
  end.

Global Instance Bucket_eq_dec : EqDecision Bucket.
Proof. solve_decision. Defined.

(** ** Sample data for the closed examples *)

(** The enumerators as the server headers give them. *)
Definition acore : HostEnums := mkHost 3 3 14.

(** A configuration with tracking on and a cap of two tracked pets. *)
Definition sample_conf (enable filter hunterOnlyMode : bool) (classes : gset Z)
  : ConfigFile :=
  mkConfigFile enable filter hunterOnlyMode false false 10 0 true true 2 ∅ classes ∅ ∅.

Definition sample_tames : list TameRow :=
  [mkTameRow 99 "Wolf" 1 "normal"; mkTameRow 101 "Boar" 5 "normal";
   mkTameRow 5000 "Devilsaur" 39 "exotic"].

Definition sample_templates : gmap Z string :=
  list_to_map [(99, "Wolf"); (101, "Boar"); (5000, "Devilsaur")].

(** [s] without the prefix [pre]. *)
Fixpoint strip_prefix (pre s : string) : option string :=
  match pre, s with
  | EmptyString, _ => Some s
  | String a pre', String b s' => if Ascii.eqb a b then strip_prefix pre' s' else None
  | String _ _, EmptyString => None
  end.

(** The text up to the first apostrophe and the text behind it. *)
Fixpoint split_at_apostrophe (s : string) : option (string * string) :=
  match s with
  | EmptyString => None
  | String c s' =>
      if Ascii.eqb c "'" then Some (EmptyString, s')
      else match split_at_apostrophe s' with
           | Some (a, b) => Some (String c a, b)
           | None => None
           end
  end.

(** The database of the samples.  Of the texts that are not a statement
    of the source as written it knows one: the UPDATE of the name in which
    the literal ends early and the rest, the WHERE clause with it, has
    become a comment; it renames every row.  Any other text is an error
    and changes nothing. *)
Definition sample_database (text : string) (tbl : list TamedRow) : list TamedRow :=
  match strip_prefix "UPDATE beastmaster_tamed_pets SET name = '" text with
  | Some rest =>
      match split_at_apostrophe rest with
      | Some (literal, behind) =>
          if sql_plain literal && String.prefix " -- " behind then
            (fun r => mkTamedRow (owner_guid r) (tamed_entry r) literal (date_tamed r))
              <$> tbl
          else tbl
      | None => tbl
      end
  | None => tbl
  end.

Definition sample_database_key : keeps_key sample_database.
Proof.
  intros text tbl. unfold sample_database. intros Hu.
  destruct (strip_prefix _ text) as [rest|]; [|exact Hu].
  destruct (split_at_apostrophe rest) as [[literal behind]|]; [|exact Hu].
  destruct (sql_plain literal && String.prefix " -- " behind); [|exact Hu].
  intros o e. specialize (Hu o e). unfold count_pair in *.
  assert (E : forall l : list TamedRow,
             length (filter (fun r => owner_guid r = o /\ tamed_entry r = e)
                       ((fun r => mkTamedRow (owner_guid r) (tamed_entry r) literal
                                             (date_tamed r)) <$> l))
             = length (filter (fun r => owner_guid r = o /\ tamed_entry r = e) l)).
  { induction l as [|r l IH]; [reflexivity|].
    rewrite fmap_cons, !filter_cons. simpl.
    destruct (decide _); simpl; now rewrite IH. }
  now rewrite E.
Qed.

Definition sample_env (c : ConfigFile) : Env :=
  mkEnv acore c sample_tames sample_templates (mkProfanityFile 1 (Some ["Bad"])) 1000
        sample_database sample_database_key.

(** The sample configuration with tracking switched off. *)
Definition untracked_conf : ConfigFile :=
  mkConfigFile true true false false false 10 0 true false 2 ∅ ∅ ∅ ∅.

Definition sample_player (cls lvl : Z) (exist : bool) (d : gmap string DataValue)
  : Player :=
  mkPlayer 7 "Rexxar" cls 2 lvl exist None ∅ ∅ d [].

(** A system whose catalogue is loaded and whose word list is in memory. *)
Definition sample_sys (e : Env) (tbl : list TamedRow) (p : Player) : Sys :=
  mkSys (LoadSystem_rt e (mkRuntime (read_config (conf e)) [] [] [] [] [] ∅ ∅ ∅ ∅ ∅))
        tbl {["bad"]} 1 p [].


(** The rename-pending state of a player: the flag and its target entry. *)
Definition rename_flag (p : Player) : option bool :=
  Get_Bool p "BeastmasterExpectRename".
Definition rename_target (p : Player) : option Z :=
  Get_UInt32 p "BeastmasterRenamePetEntry".

(** The slice of a bucket that page [page] lists, the item a pet is shown
    as, the tamed-entry set a render works with, and the pages 1..maxPage. *)
Definition page_window (pets : list PetInfo) (page : Z) : list PetInfo :=
  take (Z.to_nat Gossip.PageSize)
       (drop (Z.to_nat ((page - 1) * Gossip.PageSize)) pets).

Definition pet_item (tamedEntries : gset Z) (pet : PetInfo) : GossipItem :=
  if bool_decide (entry pet ∈ tamedEntries) then
    mkItem GOSSIP_ICON_CHAT (name pet +:+ " (Already Tamed)") 0
  else mkItem (icon pet) (name pet) (wrap32 (entry pet + Gossip.PetEntryOffset)).

Definition tamed_view (s : Sys) : gset Z :=
  if trackTamedPets (config (rt s)) then
    match tamedEntriesCache (rt s) !! guid (player s) with
    | Some t => t
    | None => tamed_entries_of (beastmaster_tamed_pets s) (guid (player s))
    end
  else ∅.

Definition pages (maxPage : Z) : list Z := Z.of_nat <$> seq 1 (Z.to_nat maxPage).

(** A bucket of thirty pets with the entries 1..30. *)
Definition thirty_pets : list PetInfo :=
  (fun i => mkPetInfo (Z.of_nat i) "Pet" 1 "normal" GOSSIP_ICON_TRAINER) <$> seq 1 30.

(** ** The eligibility gates of the main menu, as the specification lists them *)

Inductive Check : Type :=
  | ChkEnabled
  | ChkCatalog
  | ChkClass
  | ChkRace
  | ChkMinLevel
  | ChkMaxLevel.

(** The state the gates look at: the catalogue after the one lazy reload. *)
Definition after_lazy_load (env : Env) (s : Sys) : Sys :=
  if opt_Enable (conf env) && bool_decide (allPets (rt s) = []) then LoadSystem env s
  else s.

(** The first failing check, in the order and with the class rule of the
    specification: in hunter-only mode non-hunters fail, otherwise (and only
    then) a non-empty allowed-class set must contain the class. *)
Definition first_failing (env : Env) (s : Sys) : option Check :=
  let p := player s in
  let cfg := config (rt s) in
  if negb (opt_Enable (conf env)) then Some ChkEnabled
  else if bool_decide (allPets (rt s) = []) then Some ChkCatalog
  else if (if hunterOnly cfg then negb (getClass p =? CLASS_HUNTER (host env))
           else negb (bool_decide (allowedClasses cfg = ∅))
                && negb (bool_decide (getClass p ∈ allowedClasses cfg)))
  then Some ChkClass
  else if negb (bool_decide (allowedRaces cfg = ∅))
          && negb (bool_decide (getRace p ∈ allowedRaces cfg))
  then Some ChkRace
  else if negb (minLevel cfg =? 0) && (GetLevel p <? minLevel cfg) then Some ChkMinLevel
  else if negb (maxLevel cfg =? 0) && (maxLevel cfg <? GetLevel p) then Some ChkMaxLevel
  else None.

Definition refusal_message (chk : Check) (cfg : Config) (p : Player) : string :=
  match chk with
  | ChkEnabled => ""
  | ChkCatalog =>
      "No pets available (beastmaster_tames table empty?). Contact an administrator."
  | ChkClass =>
      if hunterOnly cfg then "I am sorry, but pets are for hunters only."
      else "Your class is not allowed to adopt pets."
  | ChkRace => "Your race is not allowed to adopt pets."
  | ChkMinLevel =>
      "Sorry " +:+ player_name p +:+ ", but you must reach level "
      +:+ pretty (minLevel cfg) +:+ " before adopting a pet."
  | ChkMaxLevel =>
      "Sorry " +:+ player_name p +:+ ", but you must be level "
      +:+ pretty (maxLevel cfg) +:+ " or lower to adopt a pet."
  end.

(** The handler sent the main menu, or one refusal and nothing else. *)
Definition menu_shown (s s' : Sys) : Prop :=
  exists items,
    out s' = out s ++ [SendGossipMenu Gossip.GossipHello items;
                       PlayDirectSound PET_BEASTMASTER_HOWL].

Definition refused (creature : option Z) (s s' : Sys) : Prop :=
  exists msg, s' = tell creature msg s.

(** The gating of the main menu as the specification states it: the first
    failing check gives a refusal, no failing check gives the menu. *)
Definition main_menu_as_specified (env : Env) (creature : option Z) (s : Sys) : Prop :=
  let s1 := after_lazy_load env s in
  match first_failing env s1 with
  | Some _ => refused creature s1 (ShowMainMenu env creature s)
  | None => menu_shown s1 (ShowMainMenu env creature s)
  end.

(** The one situation the class rule of the specification and the two
    tests of the code treat differently. *)
Definition hunter_outside_allowed_classes (env : Env) (s : Sys) : Prop :=
  hunterOnly (config (rt s)) = true /\
  getClass (player s) = CLASS_HUNTER (host env) /\
  allowedClasses (config (rt s)) <> ∅ /\
  getClass (player s) ∉ allowedClasses (config (rt s)).

(** ** The capacity gate of an adoption *)

(** Tracking is on, a cap is configured and the player's rows reach it. *)
Definition at_capacity (s : Sys) : Prop :=
  trackTamedPets (config (rt s)) = true /\
  0 < maxTrackedPets (config (rt s)) /\
  maxTrackedPets (config (rt s))
    <= count_tamed (beastmaster_tamed_pets s) (guid (player s)).

Definition capacity_message : string :=
  "You have reached the maximum number of tracked pets.".

(** The two exotic refusals that [CreatePet] tests before the cap. *)
Definition exotic_refused (env : Env) (action : Z) (s : Sys) : bool :=
  let info := FindPetInfo s (wrap32 (action - Gossip.PetEntryOffset)) in
  let p := player s in
  let cfg := config (rt s) in
  let hunter := getClass p =? CLASS_HUNTER (host env) in
  (is_exotic info && negb hunter && negb (allowExotic cfg))
  || (is_exotic info && hunter && hunterBeastMasteryRequired cfg
      && negb (HasTalent p PET_SPELL_BEAST_MASTERY)).

(** The claim in the words of the specification: at capacity, the attempt
    ends with the capacity message and changes nothing else. *)
Definition capacity_as_specified (env : Env) (c action : Z) (s : Sys) : Prop :=
  at_capacity s ->
  CreatePet env (Some c) action s =
  Some (CloseGossipMenuFor (emit (Whisper capacity_message) s)).

(** Two tracked pets of the sample player. *)
Definition two_tamed : list TamedRow :=
  [mkTamedRow 7 99 "Wolf" 5; mkTamedRow 7 5000 "Rex" 6].

(** ** The tracked menu after a delete *)

(** Twenty-one tracked pets of the sample player, entries 101..121, tamed
    one after the other: three pages of the tracked menu. *)
Definition many_tamed : list TamedRow :=
  (fun i => mkTamedRow 7 (100 + Z.of_nat i) "Pet" (Z.of_nat i)) <$> seq 1 21.

(** The slot map a player carries. *)
Definition slot_map (p : Player) : option (gmap Z Z) :=
  Get_PetMap p "BeastmasterMenuPetMap".

(** Two runtimes differ at most in the two caches of player [g]. *)
Definition rt_same_but_caches (g : Z) (r r' : BeastmasterRuntime) : Prop :=
  with_tamedEntriesCache ∅ (with_trackedPetsCache ∅ r') =
    with_tamedEntriesCache ∅ (with_trackedPetsCache ∅ r) /\
  (forall k, k <> g -> tamedEntriesCache r' !! k = tamedEntriesCache r !! k) /\
  (forall k, k <> g -> trackedPetsCache r' !! k = trackedPetsCache r !! k).

(** The frame of the delete action as the specification states it: the
    row, the two caches of the player, and nothing of the data stored on
    the player. *)
Definition delete_as_specified (creature : option Z) (idx : Z) (s : Sys) : Prop :=
  forall e s',
    slot_entry (player s) idx = Some e ->
    tracked_delete creature idx s = Some s' ->
    beastmaster_tamed_pets s' =
      delete_tamed (beastmaster_tamed_pets s) (guid (player s)) e /\
    rt_same_but_caches (guid (player s)) (rt s) (rt s') /\
    CustomData (player s') = CustomData (player s).

(** The claim takes the delete action to come to an end: a confirm command
    follows it. *)
Definition delete_ends_as_specified (creature : option Z) (idx : Z) (s : Sys) : Prop :=
  forall e, slot_entry (player s) idx = Some e ->
            is_Some (tracked_delete creature idx s).

(** The confirm command after the delete as the specification states it:
    the pending check passes and the rename update is applied against the
    deleted entry. *)
Definition confirm_as_specified (env : Env) (creature : option Z) (idx : Z)
  (s : Sys) (args : string) : Prop :=
  forall e s',
    slot_entry (player s) idx = Some e ->
    tracked_delete creature idx s = Some s' ->
    rename_flag (player s) = Some true ->
    rename_target (player s) = Some e ->
    name_accepted env (trim args) s' = true ->
    rename_flag (player s') = Some true /\
    beastmaster_tamed_pets (HandlePetnameRenameCommand env args s') =
      update_name (beastmaster_tamed_pets s') (trim args) (guid (player s)) e.

(** The player without the data stored on it and without the menu under
    construction: identity, class, race, level, pet, spells, talents. *)
Definition player_core (p : Player) : Player :=
  with_CustomData ∅ (with_PlayerMenu [] p).

Definition tracked_env : Env := sample_env (sample_conf true true false ∅).

(** The sample player with twenty-one tracked pets, looking at page 3. *)
Definition on_page_three : Sys :=
  let s := sample_sys tracked_env many_tamed (sample_player 3 20 false ∅) in
  default s (ShowTrackedPetsMenu (Some 1) 3 s).

(** The sample player with two tracked pets: the tracked menu is opened,
    "Rename" is chosen for slot 0, and the menu is opened again. *)
Definition rename_armed : Sys :=
  let s0 := sample_sys tracked_env two_tamed (sample_player 3 20 false ∅) in
  let s1 := default s0 (ShowTrackedPetsMenu (Some 1) 1 s0) in
  let s2 := default s1 (tracked_rename (Some 1) 0 s1) in
  default s2 (ShowTrackedPetsMenu (Some 1) 1 s2).

(** The state after the delete of slot 0 in [rename_armed]. *)
Definition after_delete : Sys :=
  default rename_armed (tracked_delete (Some 1) 0 rename_armed).

(** [rename_armed] after tracking was switched off in the configuration
    file and the configuration reloaded: the tracked list is still cached
    and the menu still shown. *)
Definition reloaded_untracked : Sys :=
  LoadSystem (sample_env untracked_conf) rename_armed.

(** ** The parsers of the comma-separated options *)

(** The items [std::getline(ss, item, ',')] yields in turn: the text up to
    each comma, and the text after the last comma unless it is empty.
    [item] holds the characters read so far. *)
Fixpoint getline_items (item s : string) : list string :=
  match s with
  | EmptyString => if String.eqb item "" then [] else [item]
  | String c s' =>
      if Ascii.eqb c "," then item :: getline_items "" s'
      else getline_items (item +:+ String c "") s'
  end.

Definition is_digit (c : ascii) : bool := (48 <=? char_code c) && (char_code c <=? 57).

(** The value of the digits a string starts with, after [acc]. *)
Fixpoint read_digits (acc : Z) (s : string) : Z :=
  match s with
  | EmptyString => acc
  | String c s' =>
      if is_digit c then read_digits (acc * 10 + (char_code c - 48)) s' else acc
  end.

(** [std::stoul(item)] in base 10 with a 64-bit [unsigned long]: white
    space is skipped, a sign is allowed, the digits that follow are read;
    [None] stands for the exception thrown when there is no digit or the
    number does not fit.  A minus sign negates within the unsigned type. *)
Definition stoul (item : string) : option Z :=
  let s := erase_front_spaces item in
  let '(negative, s) :=
    match s with
    | String c s' =>
        if Ascii.eqb c "-" then (true, s')
        else if Ascii.eqb c "+" then (false, s')
        else (false, s)
    | EmptyString => (false, s)
    end in
  match s with
  | String c _ =>
      if is_digit c then
        let v := read_digits 0 s in
        if 2 ^ 64 <=? v then None
        else Some (if negative then (- v) mod 2 ^ 64 else v)
      else None
  | EmptyString => None
  end.

(** The loop shared by [ParseAllowedRaces] and [ParseAllowedClasses]: the
    number is cast to [uint8] and kept when it is not 0. *)
Definition parse_uint8_list (csv : string) : gset Z :=
  foldl (fun (result : gset Z) item =>
           match stoul item with
           | Some v => let x := v mod 2 ^ 8 in
                       if 0 <? x then {[x]} ∪ result else result
           | None => result
           end)
        ∅ (getline_items "" csv).

Definition ParseAllowedRaces (csv : string) : gset Z := parse_uint8_list csv.
Definition ParseAllowedClasses (csv : string) : gset Z := parse_uint8_list csv.

(** [ParseEntryList]: the number is stored as a [uint32]. *)
Definition ParseEntryList (csv : string) : gset Z :=
  foldl (fun (result : gset Z) item =>
           match stoul item with
           | Some v => {[wrap32 v]} ∪ result
           | None => result
           end)
        ∅ (getline_items "" csv).

(** ** The summon command

    [HandleBeastmasterCommand] keeps the time of the last summon of each
    player in a static map.  [cooldown] is the option
    BeastMaster.SummonCooldown, [now] the clock, [summoned] whether the
    server could place the creature; the result is the new map and the
    message to the player. *)
Definition HandleBeastmasterCommand (cooldown now : Z) (summoned : bool) (p : Player)
  (lastSummonTime : gmap Z Z) : gmap Z Z * Event :=
  match lastSummonTime !! guid p with
  | Some last =>
      if now - last <? cooldown then
        (lastSummonTime,
         SysMessage ("You must wait " +:+ pretty (cooldown - (now - last))
                     +:+ " seconds before summoning the Beastmaster again."))
      else
        (<[guid p := now]> lastSummonTime,
         if summoned
         then SysMessage "The Beastmaster has arrived and will remain for 2 minutes."
         else SysMessage "Failed to summon the Beastmaster. Please contact an admin.")
  | None =>
      (<[guid p := now]> lastSummonTime,
       if summoned
       then SysMessage "The Beastmaster has arrived and will remain for 2 minutes."
       else SysMessage "Failed to summon the Beastmaster. Please contact an admin.")
  end.

(** ** Definitions used to state further properties *)

(** The state [GossipSelect] dispatches on: catalogue loaded if it was
    empty, menu under construction cleared. *)
Definition dispatch_state (env : Env) (s : Sys) : Sys :=
  ClearGossipMenuFor
    (if bool_decide (allPets (rt s) = []) then LoadSystem env s else s).

(** Everything of the player but the menu under construction. *)
Definition player_sans_menu (p : Player) : Player := with_PlayerMenu [] p.

(** An item with this label is on the menu. *)
Definition has_label (label : string) (items : list GossipItem) : bool :=
  existsb (fun i => String.eqb (item_label i) label) items.

(** The sample player with two tracked pets, looking at the tracked menu. *)
Definition two_listed : Sys :=
  let s := sample_sys tracked_env two_tamed (sample_player 3 20 false ∅) in
  default s (ShowTrackedPetsMenu (Some 1) 1 s).

(** The tamed-entry sets in memory agree with the table: what is cached
    for a player is the set of entries of the player's rows. *)
Definition tamed_cache_ok (s : Sys) : Prop :=
  forall g t, tamedEntriesCache (rt s) !! g = Some t ->
              t = tamed_entries_of (beastmaster_tamed_pets s) g.

(** * Properties *)

(** ** Strings and regular expressions *)

Lemma append_nil_l (s : string) : "" +:+ s = s.
Proof. reflexivity. Qed.

Lemma append_cons c (a b : string) : String c a +:+ b = String c (a +:+ b).
Proof. reflexivity. Qed.

Ltac str_simpl := rewrite ?append_cons, ?append_nil_l in *.

Lemma append_nil_r (s : string) : s +:+ "" = s.
Proof. induction s as [|c s IH]; str_simpl; [reflexivity | now rewrite IH]. Qed.

Lemma append_assoc (a b c : string) : (a +:+ b) +:+ c = a +:+ (b +:+ c).
Proof. induction a as [|x a IH]; str_simpl; [reflexivity | now rewrite IH]. Qed.

Lemma append_length (a b : string) :
  String.length (a +:+ b) = (String.length a + String.length b)%nat.
Proof. induction a as [|x a IH]; str_simpl; simpl; [reflexivity | now rewrite IH]. Qed.

Lemma append_eq_nil (a b : string) : a +:+ b = "" -> a = "" /\ b = "".
Proof. destruct a; str_simpl; [auto | discriminate]. Qed.

Lemma append_eq_cons (a b : string) c s :
  a +:+ b = String c s ->
  (a = "" /\ b = String c s) \/ (exists a', a = String c a' /\ s = a' +:+ b).
Proof.
  destruct a as [|x a]; str_simpl; intros H.
  - left. auto.
  - right. injection H as -> <-. eauto.
Qed.

Ltac invc H := inversion H; subst; clear H.

Ltac split_append :=
  match goal with
  | E : _ +:+ _ = "" |- _ => apply append_eq_nil in E as [-> ->]
  | E : _ +:+ _ = String _ _ |- _ =>
      apply append_eq_cons in E as [[-> ->]|(? & -> & ->)]
  end.

Lemma nullable_spec r : nullable r = true <-> Matches r "".
Proof.
  induction r as [| |p|r1 IH1 r2 IH2|r1 IH1 r2 IH2|r IH]; simpl.
  - split; [discriminate | intros H; invc H].
  - split; [constructor | reflexivity].
  - split; [discriminate | intros H; invc H].
  - rewrite andb_true_iff, IH1, IH2. split.
    + intros [H1 H2]. exact (MCat _ _ "" "" H1 H2).
    + intros H. invc H. split_append. auto.
  - rewrite orb_true_iff, IH1, IH2. split.
    + intros [H|H]; [apply MAltL | apply MAltR]; exact H.
    + intros H. invc H; auto.
  - split; [constructor | reflexivity].
Qed.

(** A non-empty word of [Star r] starts with a non-empty word of [r]. *)
Lemma star_cons_inv r c s :
  Matches (Star r) (String c s) ->
  exists s1 s2, s = s1 +:+ s2 /\ Matches r (String c s1) /\ Matches (Star r) s2.
Proof.
  intros H. remember (Star r) as r' eqn:Er. remember (String c s) as w eqn:Ew.
  revert c s Ew.
  induction H as [| | | | | |r0 s1 s2 H1 _ H2 IH2]; try discriminate.
  injection Er as ->. intros c s Ew.
  split_append.
  - apply IH2; reflexivity.
  - eauto.
Qed.

Lemma cat_cons_inv r1 r2 c s :
  Matches (Cat r1 r2) (String c s) ->
  (exists s1 s2, s = s1 +:+ s2 /\ Matches r1 (String c s1) /\ Matches r2 s2) \/
  (Matches r1 "" /\ Matches r2 (String c s)).
Proof.
  intros H. invc H. split_append.
  - right. auto.
  - left. eauto.
Qed.

Lemma deriv_spec c r s : Matches (deriv c r) s <-> Matches r (String c s).
Proof.
  revert s.
  induction r as [| |p|r1 IH1 r2 IH2|r1 IH1 r2 IH2|r IH]; intros s; simpl.
  - split; intros H; invc H.
  - split; intros H; invc H.
  - destruct (p c) eqn:Hp; split; intros H; invc H.
    + now constructor.
    + constructor.
    + congruence.
  - assert (Hcat : Matches (Cat (deriv c r1) r2) s ->
                   Matches (Cat r1 r2) (String c s)).
    { intros H. invc H.
      match goal with H1 : Matches (deriv c r1) ?s1, H2 : Matches r2 ?s2 |- _ =>
        apply IH1 in H1; exact (MCat _ _ (String c s1) s2 H1 H2) end. }
    assert (Hinv : Matches (Cat r1 r2) (String c s) ->
                   Matches (Cat (deriv c r1) r2) s \/
                   (Matches r1 "" /\ Matches r2 (String c s))).
    { intros H. destruct (cat_cons_inv _ _ _ _ H) as [(s1 & s2 & -> & H1 & H2)|H'].
      - left. apply MCat; [now apply IH1 | exact H2].
      - right. exact H'. }
    destruct (nullable r1) eqn:Hn; split.
    + intros H. invc H; [auto|].
      apply nullable_spec in Hn.
      match goal with H : Matches (deriv c r2) _ |- _ =>
        apply IH2 in H; exact (MCat _ _ "" _ Hn H) end.
    + intros H. destruct (Hinv H) as [H'|[_ H']].
      * now apply MAltL.
      * apply MAltR. now apply IH2.
    + exact Hcat.
    + intros H. destruct (Hinv H) as [H'|[H' _]]; [exact H'|].
      apply nullable_spec in H'. congruence.
  - split; intros H; invc H;
      solve [apply MAltL; now apply IH1 | apply MAltR; now apply IH2].
  - split.
    + intros H. invc H.
      match goal with H1 : Matches (deriv c r) ?s1, H2 : Matches (Star r) ?s2 |- _ =>
        apply IH in H1; exact (MStarCons _ (String c s1) s2 H1 H2) end.
    + intros H. destruct (star_cons_inv _ _ _ H) as (s1 & s2 & -> & H1 & H2).
      apply MCat; [now apply IH | exact H2].
Qed.

Lemma regex_match_spec r s : regex_match r s = true <-> Matches r s.
Proof.
  revert r. induction s as [|c s IH]; intros r; simpl.
  - apply nullable_spec.
  - rewrite IH. apply deriv_spec.
Qed.

Lemma star_class_forall p s :
  Matches (Star (Class p)) s <-> str_forall p s = true.
Proof.
  split.
  - intros H. remember (Star (Class p)) as r eqn:Er.
    induction H as [| | | | | |r0 s1 s2 H1 _ H2 IH2]; try discriminate.
    + reflexivity.
    + injection Er as ->. invc H1. str_simpl. simpl.
      rewrite IH2 by reflexivity. now rewrite andb_true_r.
  - induction s as [|c s IH]; simpl; intros H.
    + constructor.
    + apply andb_true_iff in H as [Hc Hs].
      apply (MStarCons _ (String c "") s); [now constructor | auto].
Qed.

Lemma matches_allowed s :
  Matches allowed s <->
  exists a mid z,
    s = String a (mid +:+ String z "") /\
    is_letter a = true /\ str_forall is_name_char mid = true /\ is_letter z = true.
Proof.
  unfold allowed. split.
  - intros H. invc H.
    match goal with H : Matches (Class _) _ |- _ => invc H end.
    match goal with H : Matches (Cat _ _) _ |- _ => invc H end.
    match goal with H : Matches (Class _) _ |- _ => invc H end.
    match goal with H : Matches (Star _) _ |- _ => apply star_class_forall in H end.
    str_simpl. eauto 10.
  - intros (a & mid & z & -> & Ha & Hmid & Hz).
    apply (MCat _ _ (String a "") (mid +:+ String z "")); [now constructor|].
    apply MCat; [now apply star_class_forall | now constructor].
Qed.

(** [IsValidPetName] accepts exactly the names of the grammar. *)
Lemma IsValidPetName_spec name : IsValidPetName name = true <-> name_grammar name.
Proof.
  unfold IsValidPetName, name_grammar.
  rewrite <- matches_allowed, <- regex_match_spec.
  destruct (str_length name <? 2) eqn:H2; simpl.
  { split; [discriminate | lia]. }
  destruct (16 <? str_length name) eqn:H16.
  { split; [discriminate | lia]. }
  destruct (from_option isspace false (str_front name)); simpl.
  { split; [discriminate | intros (_ & _ & ? & _); discriminate]. }
  destruct (from_option isspace false (str_back name)).
  { split; [discriminate | intros (_ & _ & _ & ?); discriminate]. }
  split; [intros H; repeat split; (lia || assumption) | tauto].
Qed.

Lemma prefix_spec a b : String.prefix a b = true <-> exists post, b = a +:+ post.
Proof.
  revert b. induction a as [|x a IH]; intros [|y b]; simpl.
  - split; [exists ""; reflexivity | reflexivity].
  - split; [eauto | reflexivity].
  - split; [discriminate | intros [post H]; discriminate].
  - destruct (ascii_dec x y) as [->|Hne].
    + rewrite IH. split; intros [post H]; exists post; str_simpl; congruence.
    + split; [discriminate | intros [post H]; str_simpl; congruence].
Qed.

Lemma str_contains_nil needle : str_contains needle "" = String.prefix needle "" || false.
Proof. reflexivity. Qed.

Lemma str_contains_cons needle c hay :
  str_contains needle (String c hay) =
  String.prefix needle (String c hay) || str_contains needle hay.
Proof. reflexivity. Qed.

(** [find] succeeds exactly on the strings in which the needle occurs. *)
Lemma str_contains_spec needle hay :
  str_contains needle hay = true <-> substring needle hay.
Proof.
  unfold substring. induction hay as [|c hay IH].
  - rewrite str_contains_nil, orb_false_r, prefix_spec. split.
    + intros [post H]. exists "", post. exact H.
    + intros (pre & post & H). symmetry in H.
      apply append_eq_nil in H as [-> H]. str_simpl. eauto.
  - rewrite str_contains_cons, orb_true_iff, prefix_spec, IH. split.
    + intros [[post H]|(pre & post & H)].
      * exists "", post. exact H.
      * exists (String c pre), post. str_simpl. now rewrite H.
    + intros (pre & post & H). destruct pre as [|x pre]; str_simpl.
      * left. eauto.
      * right. injection H as -> ->. eauto.
Qed.

Lemma tolower_idem c : tolower (tolower c) = tolower c.
Proof. destruct c as [[] [] [] [] [] [] [] []]; reflexivity. Qed.

Lemma str_tolower_idem s : str_tolower (str_tolower s) = str_tolower s.
Proof. induction s as [|c s IH]; simpl; [reflexivity | now rewrite tolower_idem, IH]. Qed.

(** X5.  The loader keeps the list in lower case: with the lowered name, the
    search of [IsProfane] ignores the case of both sides. *)
Lemma LoadProfanityListIfNeeded_lower env s :
  (forall w, w ∈ sProfanityList s -> str_tolower w = w) ->
  forall w, w ∈ sProfanityList (LoadProfanityListIfNeeded env s) -> str_tolower w = w.
Proof.
  intros Hs. unfold LoadProfanityListIfNeeded.
  destruct (_ =? 0); [exact Hs|].
  destruct (_ && _); [exact Hs|].
  destruct (file_lines _) as [lines|]; simpl; [|set_solver].
  assert (Hfold : forall (acc : gset string),
             (forall w, w ∈ acc -> str_tolower w = w) ->
             forall w,
               w ∈ foldl (fun (acc : gset string) word =>
                            let word := str_tolower word in
                            if String.eqb word "" then acc else {[word]} ∪ acc)
                         acc lines ->
               str_tolower w = w).
  { induction lines as [|l lines IH]; intros acc Hacc; simpl; [exact Hacc|].
    apply IH. destruct (String.eqb _ _); [exact Hacc|].
    intros w [->%elem_of_singleton|Hw]%elem_of_union; [apply str_tolower_idem | auto]. }
  apply Hfold. set_solver.
Qed.

(** ** The catalogue partition *)

Lemma load_rows_spec rows : forall r0,
  let r' := foldl load_row r0 rows in
  rarePetEntries r' = rarePetEntries r0 /\
  rareExoticPetEntries r' = rareExoticPetEntries r0 /\
  allPets r' = allPets r0 ++ (fetch_info <$> rows) /\
  forall b,
    bucket_list r' b =
    bucket_list r0 b ++
    filter (fun i => bucket_of (rarePetEntries r0) (rareExoticPetEntries r0) i = b)
           (fetch_info <$> rows).
Proof.
  induction rows as [|row rows IH]; intros r0; simpl.
  - repeat split; try (now rewrite app_nil_r). intros b. now rewrite app_nil_r.
  - destruct (IH (load_row r0 row)) as (Hr & Hx & Hall & Hb). clear IH.
    assert (Hr0 : rarePetEntries (load_row r0 row) = rarePetEntries r0).
    { unfold load_row. repeat case_match; reflexivity. }
    assert (Hx0 : rareExoticPetEntries (load_row r0 row) = rareExoticPetEntries r0).
    { unfold load_row. repeat case_match; reflexivity. }
    assert (Hall0 : allPets (load_row r0 row) = allPets r0 ++ [fetch_info row]).
    { unfold load_row. repeat case_match; reflexivity. }
    rewrite Hr, Hx, Hall, Hr0, Hx0, Hall0. repeat split.
    + now rewrite <- app_assoc.
    + intros b. rewrite Hb, Hr0, Hx0, filter_cons.
      destruct (bucket_of (rarePetEntries r0) (rareExoticPetEntries r0)
                          (fetch_info row)) eqn:Hbk;
        unfold bucket_of in Hbk; unfold load_row;
        repeat case_match; try discriminate;
        destruct b; simpl; rewrite <- ?app_assoc; try reflexivity;
        try congruence.
Qed.

Lemma LoadSystem_rt_fold env r :
  LoadSystem_rt env r =
  foldl load_row
        (mkRuntime (read_config (conf env)) [] [] [] [] []
                   (opt_RarePets (conf env)) (opt_RareExoticPets (conf env))
                   ∅ (tamedEntriesCache r) (trackedPetsCache r))
        (beastmaster_tames env).
Proof. unfold LoadSystem_rt. destruct (beastmaster_tames env); reflexivity. Qed.

(** C2.  Loading the catalogue puts every row of beastmaster_tames into
    exactly one of the four bucket lists, the one the priority rule names:
    the rare override set first, the rare-exotic override set second, the
    rarity field "exotic" third, Normal otherwise.  Each bucket list is the
    loaded catalogue filtered by that rule, in catalogue order. *)
Theorem LoadSystem_buckets env r :
  let r' := LoadSystem_rt env r in
  let rare := opt_RarePets (conf env) in
  let rareExotic := opt_RareExoticPets (conf env) in
  allPets r' = fetch_info <$> beastmaster_tames env /\
  (forall b,
      bucket_list r' b = filter (fun i => bucket_of rare rareExotic i = b) (allPets r')) /\
  (forall info b,
      info ∈ allPets r' ->
      (info ∈ bucket_list r' b <-> b = bucket_of rare rareExotic info)) /\
  (forall info,
      (entry info ∈ rare -> bucket_of rare rareExotic info = Rare) /\
      (entry info ∉ rare -> entry info ∈ rareExotic ->
       bucket_of rare rareExotic info = RareExotic) /\
      (entry info ∉ rare -> entry info ∉ rareExotic -> rarity info = "exotic" ->
       bucket_of rare rareExotic info = Exotic) /\
      (entry info ∉ rare -> entry info ∉ rareExotic -> rarity info <> "exotic" ->
       bucket_of rare rareExotic info = Normal)).
Proof.
  intros r' rare rareExotic. subst r'. rewrite LoadSystem_rt_fold.
  match goal with |- context [foldl load_row ?c _] =>
    destruct (load_rows_spec (beastmaster_tames env) c) as (_ & _ & Hall & Hb) end.
  simpl in Hall, Hb. fold rare rareExotic in Hb.
  assert (Hfilter : forall b,
             bucket_list (foldl load_row
                            (mkRuntime (read_config (conf env)) [] [] [] [] [] rare
                                       rareExotic ∅ (tamedEntriesCache r)
                                       (trackedPetsCache r))
                            (beastmaster_tames env)) b =
             filter (fun i => bucket_of rare rareExotic i = b)
                    (fetch_info <$> beastmaster_tames env)).
  { intros b. rewrite Hb. now destruct b. }
  split; [exact Hall|]. rewrite Hall.
  split; [exact Hfilter|]. split.
  - intros info b Hin. rewrite Hfilter, list_elem_of_filter. split.
    + intros [<- _]. reflexivity.
    + intros ->. auto.
  - intros info. unfold bucket_of. repeat split.
    + intros H. now rewrite bool_decide_eq_true_2.
    + intros H1 H2. now rewrite bool_decide_eq_false_2, bool_decide_eq_true_2.
    + intros H1 H2 H3. rewrite !bool_decide_eq_false_2 by assumption.
      now rewrite (proj2 (String.eqb_eq _ _) H3).
    + intros H1 H2 H3. rewrite !bool_decide_eq_false_2 by assumption.
      now rewrite (proj2 (String.eqb_neq _ _) H3).
Qed.

(** ** Pet names *)

Lemma profane_spec env name s :
  opt_ProfanityFilter (conf env) = true ->
  snd (IsProfane env name s) = true <->
  denylisted (sProfanityList (LoadProfanityListIfNeeded env s)) name.
Proof.
  intros Hf. unfold IsProfane, denylisted. rewrite Hf. simpl.
  rewrite existsb_exists. split.
  - intros (bad & Hin & Hc). exists bad. split.
    + apply elem_of_elements, list_elem_of_In, Hin.
    + now apply str_contains_spec.
  - intros (bad & Hin & Hc). exists bad. split.
    + apply list_elem_of_In, elem_of_elements, Hin.
    + now apply str_contains_spec.
Qed.

(** C7 (amended).  A candidate name passes the test of the rename command
    exactly when it follows the name grammar (2 to 16 characters, letters at
    both ends, letters, space, hyphen and apostrophe inside, no white space
    at the ends) and, provided the option BeastMaster.ProfanityFilter is on,
    contains no word of the list once lowered; with the filter off the list
    is not consulted.  "Al" and "Al-Tair" follow the grammar, "A", "Al1" and
    the raw " Al " are refused, and " Al " follows the grammar once trimmed. *)
Theorem pet_name_accepted_iff env name s :
  (name_accepted env name s = true <->
   name_grammar name /\
   (opt_ProfanityFilter (conf env) = true ->
    ~ denylisted (sProfanityList (LoadProfanityListIfNeeded env s)) name)) /\
  IsValidPetName "Al" = true /\
  IsValidPetName "Al-Tair" = true /\
  name_accepted env "A" s = false /\
  name_accepted env "Al1" s = false /\
  name_accepted env " Al " s = false /\
  IsValidPetName (trim " Al ") = true.
Proof.
  split; [|repeat split; reflexivity].
  unfold name_accepted. rewrite andb_true_iff, IsValidPetName_spec, negb_true_iff.
  destruct (opt_ProfanityFilter (conf env)) eqn:Hf.
  - pose proof (profane_spec env name s Hf) as Hp.
    destruct (snd (IsProfane env name s)).
    + split; [intros [_ ?]; discriminate|]. intros [_ H]. exfalso. apply H; tauto.
    + split; [|tauto]. intros [Hg _]. split; [exact Hg|].
      intros _ Hd. apply Hp in Hd. discriminate.
  - unfold IsProfane. rewrite Hf. simpl. split; [|tauto].
    intros [Hg _]. split; [exact Hg | discriminate].
Qed.

(** C7 as stated fails: with the filter switched off a name that contains a
    listed word is accepted. *)
Lemma pet_name_filter_off :
  let env := sample_env (sample_conf true false false ∅) in
  let s := sample_sys env [] (sample_player 3 20 false ∅) in
  ~ (name_accepted env "Bad" s = true <->
     name_grammar "Bad" /\
     ~ denylisted (sProfanityList (LoadProfanityListIfNeeded env s)) "Bad").
Proof.
  intros env s [H _].
  assert (Hacc : name_accepted env "Bad" s = true) by (vm_compute; reflexivity).
  apply H in Hacc as [_ Hnd]. apply Hnd.
  exists "bad". split.
  - assert (Hl : sProfanityList (LoadProfanityListIfNeeded env s) = {["bad"]})
      by (vm_compute; reflexivity).
    rewrite Hl. now apply elem_of_singleton.
  - exists "", "". reflexivity.
Qed.

(** ** Tracking a tamed pet *)

Lemma count_pair_app tbl r owner e :
  count_pair (tbl ++ [r]) owner e =
  (count_pair tbl owner e +
   if decide (owner_guid r = owner /\ tamed_entry r = e) then 1 else 0)%nat.
Proof.
  unfold count_pair. rewrite filter_app, length_app, filter_cons, filter_nil.
  now destruct (decide _).
Qed.

Lemma tracked_spec tbl owner e :
  BeastmasterDB.tracked tbl owner e = true <-> count_pair tbl owner e <> 0%nat.
Proof.
  unfold BeastmasterDB.tracked, count_pair.
  induction tbl as [|r tbl IH]; simpl.
  - split; [discriminate | congruence].
  - rewrite filter_cons, orb_true_iff, IH, andb_true_iff, !Z.eqb_eq.
    destruct (decide _) as [Hd|Hd]; simpl; split; auto; tauto.
Qed.


Lemma untracked_spec tbl owner e :
  BeastmasterDB.tracked tbl owner e = false <-> count_pair tbl owner e = 0%nat.
Proof.
  pose proof (tracked_spec tbl owner e) as H.
  destruct (BeastmasterDB.tracked tbl owner e).
  - split; [discriminate|]. intros Hz. exfalso. apply (proj1 H); auto.
  - split; [|reflexivity]. intros _.
    destruct (count_pair tbl owner e); [reflexivity|].
    assert (false = true) by (apply H; lia). discriminate.
Qed.

(** C9.  On a table that holds at most one row per (owner, entry) pair,
    TrackTamedPet answers true exactly when the pair has no row.  When the
    pet name is a plain string (no apostrophe, no backslash), or the pair
    has a row already, it is as the claim says: the row is inserted exactly
    when the pair has none, a second call for the pair returns false, leaves
    the table as it is, and exactly one row for the pair exists afterwards.
    With any other name the INSERT is a text of its own: where the database
    refuses it, no row is inserted, the answer is true all the same, and the
    second call does the same again. *)
Theorem TrackTamedPet_idempotent env p e nm nm' tbl :
  unique_rows tbl ->
  let r1 := BeastmasterDB.TrackTamedPet env p e nm tbl in
  let r2 := BeastmasterDB.TrackTamedPet env p e nm' (fst r1) in
  (snd r1 = true <-> count_pair tbl (guid p) e = 0%nat) /\
  (sql_plain nm = true \/ count_pair tbl (guid p) e <> 0%nat ->
   fst r1 = (if snd r1 then tbl ++ [mkTamedRow (guid p) e nm (now env)] else tbl) /\
   snd r2 = false /\
   fst r2 = fst r1 /\
   count_pair (fst r2) (guid p) e = 1%nat) /\
  (sql_plain nm = false ->
   count_pair tbl (guid p) e = 0%nat ->
   CharacterDatabase_Execute env (BeastmasterDB.insert_text (guid p) e nm) tbl = tbl ->
   r1 = (tbl, true) /\
   BeastmasterDB.TrackTamedPet env p e nm (fst r1) = (tbl, true) /\
   count_pair (fst r1) (guid p) e = 0%nat).
Proof.
  intros Hu r1 r2.
  assert (Hret : snd r1 = true <-> count_pair tbl (guid p) e = 0%nat).
  { subst r1. unfold BeastmasterDB.TrackTamedPet.
    destruct (BeastmasterDB.tracked tbl (guid p) e) eqn:Ht; simpl.
    - apply tracked_spec in Ht. split; [discriminate | congruence].
    - apply untracked_spec in Ht. tauto. }
  split; [exact Hret|]. split.
  - intros Hcase.
    assert (E1 : fst r1 = (if snd r1 then tbl ++ [mkTamedRow (guid p) e nm (now env)]
                           else tbl)).
    { subst r1. unfold BeastmasterDB.TrackTamedPet, Execute_pasted.
      destruct (BeastmasterDB.tracked tbl (guid p) e) eqn:Ht; simpl; [reflexivity|].
      apply untracked_spec in Ht. destruct Hcase as [-> | Hn]; [reflexivity | tauto]. }
    assert (H1 : count_pair (fst r1) (guid p) e = 1%nat).
    { rewrite E1. destruct (snd r1) eqn:Hs.
      - rewrite count_pair_app. simpl. rewrite decide_True by auto.
        assert (count_pair tbl (guid p) e = 0%nat) by (apply Hret; reflexivity).
        lia.
      - specialize (Hu (guid p) e).
        destruct (count_pair tbl (guid p) e) as [|n] eqn:Hc; [|lia].
        assert (false = true) by (apply Hret; reflexivity). discriminate. }
    assert (H2 : BeastmasterDB.tracked (fst r1) (guid p) e = true)
      by (apply tracked_spec; lia).
    assert (E2 : r2 = (fst r1, false)).
    { subst r2. unfold BeastmasterDB.TrackTamedPet. now rewrite H2. }
    rewrite E2. simpl. auto.
  - intros Hp Hz Hdb.
    assert (Ht : BeastmasterDB.tracked tbl (guid p) e = false)
      by now apply untracked_spec.
    assert (E1 : r1 = (tbl, true)).
    { subst r1. unfold BeastmasterDB.TrackTamedPet, Execute_pasted.
      now rewrite Ht, Hp, Hdb. }
    rewrite E1. simpl. split; [reflexivity|]. split; [|exact Hz].
    unfold BeastmasterDB.TrackTamedPet, Execute_pasted. now rewrite Ht, Hp, Hdb.
Qed.

Lemma TrackTamedPet_idempotent_witness :
  let p := sample_player 3 20 false ∅ in
  let env := sample_env (sample_conf true true false ∅) in
  let tbl := [mkTamedRow 7 101 "Boar" 5] in
  (unique_rows tbl /\
   sql_plain "Loque'nahak" = false /\
   count_pair tbl (guid p) 32517 = 0%nat /\
   CharacterDatabase_Execute env
     (BeastmasterDB.insert_text (guid p) 32517 "Loque'nahak") tbl = tbl) /\
  BeastmasterDB.TrackTamedPet env p 32517 "Loque'nahak" tbl = (tbl, true) /\
  BeastmasterDB.TrackTamedPet env p 32517 "Loque'nahak"
    (fst (BeastmasterDB.TrackTamedPet env p 32517 "Loque'nahak" tbl)) = (tbl, true) /\
  count_pair (fst (BeastmasterDB.TrackTamedPet env p 32517 "Loque'nahak" tbl))
             (guid p) 32517 = 0%nat.
Proof.
  intros p env tbl.
  assert (Hu : unique_rows tbl).
  { intros o e. unfold count_pair, tbl. rewrite filter_cons, filter_nil.
    destruct (decide _); simpl; lia. }
  assert (Hp : sql_plain "Loque'nahak" = false) by reflexivity.
  assert (Hz : count_pair tbl (guid p) 32517 = 0%nat) by reflexivity.
  assert (Hdb : CharacterDatabase_Execute env
                  (BeastmasterDB.insert_text (guid p) 32517 "Loque'nahak") tbl = tbl)
    by (vm_compute; reflexivity).
  split; [auto|].
  exact (proj2 (proj2 (TrackTamedPet_idempotent env p 32517 "Loque'nahak" "Loque'nahak"
                         tbl Hu)) Hp Hz Hdb).
Defined.

(** ** The rename protocol *)

Lemma str_forall_app p a b :
  str_forall p (a +:+ b) = str_forall p a && str_forall p b.
Proof.
  induction a as [|c a IH]; str_simpl; simpl; [reflexivity|].
  now rewrite IH, andb_assoc.
Qed.

Lemma str_back_none s : str_back s = None -> s = "".
Proof.
  induction s as [|c s IH]; [reflexivity|]. simpl.
  destruct s; [discriminate | auto]. intros H. apply IH in H. discriminate.
Qed.

Lemma str_back_pop s c :
  str_back s = Some c ->
  s = str_pop_back s +:+ String c "" /\
  S (String.length (str_pop_back s)) = String.length s.
Proof.
  induction s as [|x s IH]; [discriminate|].
  destruct s as [|y s].
  - simpl. intros [= ->]. auto.
  - intros H. change (str_back (String y s) = Some c) in H.
    destruct (IH H) as [E L].
    change (str_pop_back (String x (String y s)))
      with (String x (str_pop_back (String y s))).
    str_simpl. rewrite <- E. simpl in *. auto.
Qed.




Ltac map_lookup :=
  repeat first
    [ rewrite lookup_delete_eq
    | rewrite lookup_insert_eq
    | rewrite lookup_delete_ne by done
    | rewrite lookup_insert_ne by done ].

Lemma IsProfane_frame env nm s :
  let s' := fst (IsProfane env nm s) in
  rt s' = rt s /\ beastmaster_tamed_pets s' = beastmaster_tamed_pets s /\
  player s' = player s /\ out s' = out s.
Proof.
  unfold IsProfane. destruct (negb _); simpl; [auto|].
  unfold LoadProfanityListIfNeeded.
  repeat case_match; simpl; auto.
Qed.

Lemma IsValidPetName_nonempty nm : IsValidPetName nm = true -> String.eqb nm "" = false.
Proof. destruct nm; [discriminate | reflexivity]. Qed.



(** ** Browsing a bucket page by page *)

Lemma wrap32_small x : 0 <= x < 2 ^ 32 -> wrap32 x = x.
Proof. intros H. unfold wrap32. now apply Z.mod_small. Qed.

Lemma to_int_small x : 0 <= x < 2 ^ 31 -> to_int x = x.
Proof.
  intros H. unfold to_int. rewrite Z.mod_small by lia.
  destruct (x <? 2 ^ 31) eqn:E; [reflexivity | lia].
Qed.

Lemma AddGossipItemFor_menu i l a s :
  PlayerMenu (player (AddGossipItemFor i l a s)) =
  PlayerMenu (player s) ++ [mkItem i l a].
Proof. reflexivity. Qed.

(** The loop lists the pets whose running count lies in the window of the
    page, and touches nothing but the menu. *)
Lemma pets_loop_spec tamed page pets : forall count s,
  1 <= page -> page * Gossip.PageSize < 2 ^ 32 ->
  1 <= count -> count + Z.of_nat (length pets) < 2 ^ 32 ->
  PlayerMenu (player (pets_loop tamed page pets count s)) =
    PlayerMenu (player s) ++
    (pet_item tamed <$>
       take (Z.to_nat ((page - 1) * Gossip.PageSize + Gossip.PageSize
                       - Z.max ((page - 1) * Gossip.PageSize) (count - 1)))
            (drop (Z.to_nat ((page - 1) * Gossip.PageSize - (count - 1))) pets)) /\
  with_player (with_PlayerMenu [] (player (pets_loop tamed page pets count s)))
              (pets_loop tamed page pets count s) =
  with_player (with_PlayerMenu [] (player s)) s.
Proof.
  unfold Gossip.PageSize.
  induction pets as [|pet rest IH]; intros count s Hp Hp32 Hc Hn.
  - simpl. rewrite drop_nil, take_nil. simpl. now rewrite app_nil_r.
  - simpl pets_loop. unfold Gossip.PageSize.
    simpl length in Hn.
    rewrite !wrap32_small by lia.
    set (lo := (page - 1) * 13) in *.
    match goal with |- context [pets_loop tamed page rest (count + 1) ?s1] =>
      destruct (IH (count + 1) s1) as [IHm IHf]; try lia; set (s2 := s1) in * end.
    rewrite IHm, IHf. clear IHm IHf IH.
    replace (count + 1 - 1) with count by lia. subst s2.
    destruct (lo <? count) eqn:E1; [destruct (count <=? page * 13) eqn:E2|]; simpl.
    + assert (Hd : Z.to_nat (lo - (count - 1)) = 0%nat) by lia.
      assert (Hd' : Z.to_nat (lo - count) = 0%nat) by lia.
      assert (Ht : Z.to_nat (lo + 13 - Z.max lo (count - 1)) =
                   S (Z.to_nat (lo + 13 - Z.max lo count))) by lia.
      rewrite Hd, Hd', Ht. simpl. unfold pet_item at 2.
      destruct (bool_decide (entry pet ∈ tamed)); simpl;
        rewrite <- app_assoc; auto.
    + assert (Ht : Z.to_nat (lo + 13 - Z.max lo (count - 1)) = 0%nat) by lia.
      assert (Ht' : Z.to_nat (lo + 13 - Z.max lo count) = 0%nat) by lia.
      rewrite Ht, Ht'. simpl. auto.
    + assert (Hd : Z.to_nat (lo - (count - 1)) = S (Z.to_nat (lo - count))) by lia.
      assert (Ht : Z.max lo (count - 1) = Z.max lo count) by lia.
      rewrite Hd, Ht. simpl. auto.
Qed.

Lemma AddPetsToGossip_spec pets k s :
  1 <= k -> k * Gossip.PageSize < 2 ^ 32 ->
  1 + Z.of_nat (length pets) < 2 ^ 32 ->
  PlayerMenu (player (AddPetsToGossip pets k s)) =
    PlayerMenu (player s) ++ (pet_item (tamed_view s) <$> page_window pets k) /\
  out (AddPetsToGossip pets k s) = out s.
Proof.
  intros Hk Hk32 Hn. unfold AddPetsToGossip, tamed_view, page_window.
  assert (Hw : forall t s0,
             player s0 = player s -> out s0 = out s ->
             PlayerMenu (player (pets_loop t k pets 1 s0)) =
               PlayerMenu (player s) ++
               (pet_item t <$>
                  take (Z.to_nat Gossip.PageSize)
                       (drop (Z.to_nat ((k - 1) * Gossip.PageSize)) pets)) /\
             out (pets_loop t k pets 1 s0) = out s).
  { intros t s0 Hpl Hout.
    destruct (pets_loop_spec t k pets 1 s0) as [Hm Hf]; try lia.
    rewrite Hm, Hpl. unfold Gossip.PageSize in *. split.
    - replace (Z.to_nat ((k - 1) * 13 + 13 - Z.max ((k - 1) * 13) (1 - 1)))
        with (Z.to_nat 13) by lia.
      replace ((k - 1) * 13 - (1 - 1)) with ((k - 1) * 13) by lia.
      reflexivity.
    - apply (f_equal out) in Hf. simpl in Hf. congruence. }
  destruct (trackTamedPets (config (rt s))); [|now apply Hw].
  destruct (tamedEntriesCache (rt s) !! guid (player s)); now apply Hw.
Qed.

Lemma maxPage_of_ceil (pets : list PetInfo) :
  Z.of_nat (length pets) + Gossip.PageSize < 2 ^ 31 ->
  Z.of_nat (length pets) <= maxPage_of pets * Gossip.PageSize
    < Z.of_nat (length pets) + Gossip.PageSize.
Proof.
  unfold maxPage_of, Gossip.PageSize. intros Hn.
  set (n := Z.of_nat (length pets)) in *.
  pose proof (Z.div_mod n 13 ltac:(lia)) as Hdm.
  pose proof (Z.mod_pos_bound n 13 ltac:(lia)) as Hm.
  assert (0 <= n / 13) by (apply Z.div_pos; lia).
  rewrite to_int_small by (destruct (n mod 13 =? 0); lia).
  destruct (n mod 13 =? 0) eqn:E; lia.
Qed.

(** Cutting a list into windows of [p] and gluing them gives the list. *)
Lemma concat_windows {A} (p : nat) : forall m (l : list A),
  (length l <= m * p)%nat ->
  concat ((fun k => take p (drop (k * p) l)) <$> seq 0 m) = l.
Proof.
  induction m as [|m IH]; intros l Hl.
  - destruct l; [reflexivity | simpl in Hl; lia].
  - rewrite <- cons_seq, fmap_cons, concat_cons. simpl drop.
    rewrite <- fmap_S_seq, <- list_fmap_compose.
    transitivity (take p l ++ drop p l); [|apply take_drop]. f_equal.
    etransitivity; [|apply (IH (drop p l)); rewrite length_drop; lia].
    f_equal. apply list_fmap_ext. intros _ k _. simpl.
    now rewrite drop_drop.
Qed.

Lemma pages_windows (pets : list PetInfo) (m : nat) :
  page_window pets <$> (Z.of_nat <$> seq 1 m) =
  (fun k => take 13 (drop (k * 13) pets)) <$> seq 0 m.
Proof.
  rewrite <- fmap_S_seq, <- !list_fmap_compose.
  apply list_fmap_ext. intros _ k _. simpl. unfold page_window, Gossip.PageSize.
  do 2 f_equal. lia.
Qed.

(** C5.  For a bucket of n pets and the page size 13, the browse branch
    computes maxPage = ceil(n / 13) (the least m with n <= 13 m), and its
    menu is: the "Back.." item, a "Previous.." item exactly when page > 1,
    a "Next.." item exactly when page < maxPage, then one item for every
    pet of the page window.  A window holds at most 13 pets, and the
    windows of the pages 1..maxPage, one after the other, are the bucket:
    every pet is listed on exactly one page. *)
Theorem browse_pagination start pets c action s :
  Z.of_nat (length pets) + Gossip.PageSize < 2 ^ 31 ->
  0 <= start -> start + 100 < 2 ^ 31 ->
  start <= action < start + 100 ->
  let n := Z.of_nat (length pets) in
  let page := action - start + 1 in
  let maxPage := maxPage_of pets in
  n <= maxPage * Gossip.PageSize < n + Gossip.PageSize /\
  (exists s',
      browse_branch start pets (Some c) action s = Some s' /\
      PlayerMenu (player s') =
        PlayerMenu (player s)
        ++ [mkItem GOSSIP_ICON_TALK "Back.." Gossip.MainMenu]
        ++ (if 1 <? page
            then [mkItem GOSSIP_ICON_INTERACT_1 "Previous.." (start + page - 2)]
            else [])
        ++ (if page <? maxPage
            then [mkItem GOSSIP_ICON_INTERACT_1 "Next.." (start + page)]
            else [])
        ++ (pet_item (tamed_view s) <$> page_window pets page) /\
      out s' = out s ++ [SendGossipMenu Gossip.GossipBrowse (PlayerMenu (player s'))]) /\
  (forall k, 1 <= k <= maxPage ->
             PlayerMenu (player (AddPetsToGossip pets k s)) =
               PlayerMenu (player s) ++ (pet_item (tamed_view s) <$> page_window pets k)) /\
  (forall k, (length (page_window pets k) <= 13)%nat) /\
  concat (page_window pets <$> pages maxPage) = pets.
Proof.
  intros Hn Hs Hs31 Ha n page maxPage.
  pose proof (maxPage_of_ceil pets Hn) as Hceil. fold n maxPage in Hceil.
  unfold Gossip.PageSize in *.
  split; [exact Hceil|]. split; [|split; [|split]].
  - unfold browse_branch. rewrite to_int_small by lia. fold page maxPage.
    rewrite (wrap32_small page) by lia.
    eexists. split; [reflexivity|].
    match goal with |- context [AddPetsToGossip pets page ?s1] =>
      destruct (AddPetsToGossip_spec pets page s1) as [Hm Ho];
        [lia | unfold Gossip.PageSize; lia | lia |]; set (s2 := s1) in * end.
    unfold SendGossipMenuFor. simpl. rewrite Hm, Ho.
    assert (Htv : tamed_view s2 = tamed_view s).
    { subst s2. destruct (1 <? page), (page <? maxPage); reflexivity. }
    rewrite Htv. subst s2. split.
    + destruct (1 <? page) eqn:E1, (page <? maxPage) eqn:E2;
        rewrite ?AddGossipItemFor_menu, ?wrap32_small by lia;
        rewrite <- ?app_assoc; reflexivity.
    + destruct (1 <? page), (page <? maxPage); reflexivity.
  - intros k Hk.
    apply AddPetsToGossip_spec; unfold Gossip.PageSize; lia.
  - intros k. unfold page_window, Gossip.PageSize. rewrite length_take. lia.
  - unfold pages. rewrite pages_windows. apply concat_windows. lia.
Qed.

Lemma browse_pagination_witness :
  let env := sample_env (sample_conf true true false ∅) in
  let s := sample_sys env [mkTamedRow 7 14 "Pet" 5] (sample_player 3 20 false ∅) in
  (Z.of_nat (length thirty_pets) + Gossip.PageSize < 2 ^ 31 /\
   0 <= Gossip.PetsStart /\ Gossip.PetsStart + 100 < 2 ^ 31 /\
   Gossip.PetsStart <= 502 < Gossip.PetsStart + 100) /\
  maxPage_of thirty_pets = 3 /\
  (item_action <$> PlayerMenu (player (AddPetsToGossip thirty_pets 2 s))) =
    [0; 916; 917; 918; 919; 920; 921; 922; 923; 924; 925; 926; 927] /\
  concat (page_window thirty_pets <$> pages (maxPage_of thirty_pets)) = thirty_pets.
Proof.
  intros env s.
  assert (H1 : Z.of_nat (length thirty_pets) + Gossip.PageSize < 2 ^ 31)
    by (vm_compute; reflexivity).
  assert (H2 : 0 <= Gossip.PetsStart) by (vm_compute; discriminate).
  assert (H3 : Gossip.PetsStart + 100 < 2 ^ 31) by (vm_compute; reflexivity).
  assert (H4 : Gossip.PetsStart <= 502 < Gossip.PetsStart + 100)
    by (unfold Gossip.PetsStart; lia).
  destruct (browse_pagination Gossip.PetsStart thirty_pets 1 502 s H1 H2 H3 H4)
    as (_ & _ & Hw & _ & Hc).
  split; [auto|]. split; [reflexivity|]. split; [|exact Hc].
  rewrite (Hw 2) by (vm_compute; split; discriminate). reflexivity.
Defined.

(** ** The gates of the main menu *)

(** C3 (amended).  The main menu checks, in this order: module enabled,
    catalogue non-empty after one lazy reload, class, race, minimum level
    (0 switches it off), maximum level (0 switches it off).  A disabled
    module returns at once and sends nothing; every later failing check sends
    one refusal and no menu; when no check fails the menu is sent.  The class
    check refuses non-hunters in hunter-only mode and, outside hunter-only
    mode, refuses a class that is missing from a non-empty allowed-class
    set.  (The statement leaves open what a hunter meets in hunter-only
    mode when the allowed-class set is non-empty and lacks the hunter.) *)
Theorem ShowMainMenu_gates env creature s :
  let s1 := after_lazy_load env s in
  ~ hunter_outside_allowed_classes env s1 ->
  match first_failing env s1 with
  | Some ChkEnabled => ShowMainMenu env creature s = s
  | Some chk =>
      ShowMainMenu env creature s =
      tell creature (refusal_message chk (config (rt s1)) (player s1)) s1
  | None => menu_shown s1 (ShowMainMenu env creature s)
  end.
Proof.
  intros s1 Hopen. subst s1.
  unfold ShowMainMenu, first_failing, after_lazy_load in *.
  destruct (opt_Enable (conf env)); simpl in *; [|reflexivity].
  set (s1 := if bool_decide (allPets (rt s) = []) then LoadSystem env s else s) in *.
  destruct (bool_decide (allPets (rt s1) = [])) eqn:Hcat.
  { assert (Hneed : bool_decide (allPets (rt s) = []) = true).
    { subst s1. destruct (bool_decide (allPets (rt s) = [])) eqn:E; [reflexivity|].
      congruence. }
    rewrite Hneed. reflexivity. }
  rewrite andb_false_r.
  unfold hunter_outside_allowed_classes in Hopen.
  set (p := player s1) in *. set (cfg := config (rt s1)) in *.
  destruct (hunterOnly cfg) eqn:Hho; simpl.
  - destruct (getClass p =? CLASS_HUNTER (host env)) eqn:Hh; simpl;
      [|now rewrite Hho].
    apply Z.eqb_eq in Hh.
    assert (Hcls : negb (bool_decide (allowedClasses cfg = ∅))
                   && negb (bool_decide (getClass p ∈ allowedClasses cfg)) = false).
    { destruct (bool_decide (allowedClasses cfg = ∅)) eqn:E1; [reflexivity|].
      destruct (bool_decide (getClass p ∈ allowedClasses cfg)) eqn:E2; [reflexivity|].
      exfalso. apply Hopen.
      apply bool_decide_eq_false in E1. apply bool_decide_eq_false in E2. auto. }
    rewrite Hcls.
    destruct (negb _ && negb (bool_decide (getRace p ∈ _))); [reflexivity|].
    rewrite (andb_comm (GetLevel p <? minLevel cfg)).
    destruct (negb (minLevel cfg =? 0) && _); [reflexivity|].
    destruct (negb (maxLevel cfg =? 0) && _); [reflexivity|].
    unfold menu_shown. eexists. unfold SendGossipMenuFor. simpl.
    rewrite <- app_assoc. simpl. f_equal.
    repeat case_match; reflexivity.
  - destruct (negb _ && negb (bool_decide (getClass p ∈ _)));
      [simpl; now rewrite Hho|].
    destruct (negb _ && negb (bool_decide (getRace p ∈ _))); [reflexivity|].
    rewrite (andb_comm (GetLevel p <? minLevel cfg)).
    destruct (negb (minLevel cfg =? 0) && _); [reflexivity|].
    destruct (negb (maxLevel cfg =? 0) && _); [reflexivity|].
    unfold menu_shown. eexists. unfold SendGossipMenuFor. simpl.
    rewrite <- app_assoc. simpl. f_equal.
    repeat case_match; reflexivity.
Qed.

Lemma ShowMainMenu_gates_witness :
  let env := sample_env (sample_conf true true false ∅) in
  let s := sample_sys env [] (sample_player 3 5 false ∅) in
  ~ hunter_outside_allowed_classes env (after_lazy_load env s) /\
  ShowMainMenu env (Some 1) s =
    tell (Some 1) "Sorry Rexxar, but you must reach level 10 before adopting a pet." s.
Proof.
  intros env s.
  assert (Hopen : ~ hunter_outside_allowed_classes env (after_lazy_load env s)).
  { assert (E : hunterOnly (config (rt (after_lazy_load env s))) = false)
      by (vm_compute; reflexivity).
    intros (Hho & _). congruence. }
  split; [exact Hopen|].
  pose proof (ShowMainMenu_gates env (Some 1) s Hopen) as G.
  assert (Hf : first_failing env (after_lazy_load env s) = Some ChkMinLevel)
    by (vm_compute; reflexivity).
  rewrite Hf in G.
  assert (Hs : after_lazy_load env s = s) by (vm_compute; reflexivity).
  rewrite Hs in G. rewrite G. vm_compute. reflexivity.
Defined.

(** In hunter-only mode with the allowed-class set {1}, a hunter who passes
    every other check is turned away by the allowed-class test. *)
Lemma hunter_refused_in_hunter_only_mode :
  let env := sample_env (sample_conf true true true {[1]}) in
  let s := sample_sys env [] (sample_player 3 20 false ∅) in
  first_failing env (after_lazy_load env s) = None /\
  out (ShowMainMenu env (Some 1) s) =
    [Whisper "Your class is not allowed to adopt pets."].
Proof. split; vm_compute; reflexivity. Qed.

Lemma refusal_without_message env creature s chk :
  first_failing env (after_lazy_load env s) = Some chk ->
  out (ShowMainMenu env creature s) = out (after_lazy_load env s) ->
  ~ main_menu_as_specified env creature s.
Proof.
  intros Hf Ho H. unfold main_menu_as_specified in H. rewrite Hf in H.
  destruct H as [msg H]. rewrite H in Ho.
  apply (f_equal (@length Event)) in Ho.
  destruct creature; simpl in Ho; rewrite length_app in Ho; simpl in Ho; lia.
Qed.

Lemma whisper_without_menu env creature s msg :
  first_failing env (after_lazy_load env s) = None ->
  out (ShowMainMenu env creature s) = out (after_lazy_load env s) ++ [Whisper msg] ->
  ~ main_menu_as_specified env creature s.
Proof.
  intros Hf Ho H. unfold main_menu_as_specified in H. rewrite Hf in H.
  destruct H as [items H]. rewrite H in Ho.
  apply app_inv_head in Ho. discriminate.
Qed.

(** C3 as stated fails twice: a disabled module sends no refusal at all, and
    in hunter-only mode a hunter is still held to the allowed-class set. *)
Lemma main_menu_claim_counterexample :
  ~ main_menu_as_specified (sample_env (sample_conf false true true ∅)) (Some 1)
      (sample_sys (sample_env (sample_conf false true true ∅)) []
                  (sample_player 3 20 false ∅)) /\
  ~ main_menu_as_specified (sample_env (sample_conf true true true {[1]})) (Some 1)
      (sample_sys (sample_env (sample_conf true true true {[1]})) []
                  (sample_player 3 20 false ∅)).
Proof.
  split.
  - apply (refusal_without_message _ _ _ ChkEnabled); vm_compute; reflexivity.
  - apply (whisper_without_menu _ _ _ "Your class is not allowed to adopt pets.");
      vm_compute; reflexivity.
Qed.

(** ** Adoption at the cap *)

(** C8 (amended).  With tracking on and a cap configured, an adoption
    attempt of a player whose tracked rows have reached the cap is turned
    away: no pet is created, no row is added, nothing of the runtime or of
    the player changes.  The refusal is the capacity message whenever the
    earlier gates of the adoption (module enabled, no existing pet, the two
    exotic restrictions) let the attempt through; when one of them fires
    first, its own answer is given instead. *)
Theorem CreatePet_at_capacity env c action s :
  at_capacity s ->
  exists s',
    CreatePet env (Some c) action s = Some s' /\
    player s' = player s /\
    beastmaster_tamed_pets s' = beastmaster_tamed_pets s /\
    rt s' = rt s /\
    (opt_Enable (conf env) = true -> IsExistPet (player s) = false ->
     exotic_refused env action s = false ->
     out s' = out s ++ [Whisper capacity_message; CloseGossipMenu]).
Proof.
  intros (Ht & Hcap & Hcount). unfold CreatePet, exotic_refused.
  destruct (opt_Enable (conf env)); simpl.
  2:{ eexists. split; [reflexivity|]. repeat split. discriminate. }
  destruct (IsExistPet (player s)).
  { eexists. split; [reflexivity|]. repeat split. discriminate. }
  destruct (is_exotic _ && negb _ && negb _).
  { eexists. split; [reflexivity|]. repeat split. discriminate. }
  destruct (is_exotic _ && _ && _ && negb _).
  { eexists. split; [reflexivity|]. repeat split. discriminate. }
  rewrite Ht. simpl.
  assert (H1 : (0 <? maxTrackedPets (config (rt s))) = true) by lia.
  assert (H2 : (maxTrackedPets (config (rt s))
                <=? count_tamed (beastmaster_tamed_pets s) (guid (player s))) = true)
    by lia.
  rewrite H1, H2. simpl.
  eexists. split; [reflexivity|]. repeat split.
  intros _ _ _. simpl. unfold capacity_message. now rewrite <- app_assoc.
Qed.

Lemma CreatePet_at_capacity_witness :
  let env := sample_env (sample_conf true true false ∅) in
  let s := sample_sys env two_tamed (sample_player 3 20 false ∅) in
  at_capacity s /\
  exists s',
    CreatePet env (Some 1) (Gossip.PetEntryOffset + 101) s = Some s' /\
    GetPet (player s') = None /\
    beastmaster_tamed_pets s' = two_tamed /\
    out s' = [Whisper capacity_message; CloseGossipMenu].
Proof.
  intros env s.
  assert (Hcap : at_capacity s).
  { unfold at_capacity. vm_compute. repeat split; discriminate. }
  split; [exact Hcap|].
  destruct (CreatePet_at_capacity env 1 (Gossip.PetEntryOffset + 101) s Hcap)
    as (s' & Hc & Hp & Ht & _ & Ho).
  exists s'. split; [exact Hc|]. rewrite Hp, Ht.
  split; [vm_compute; reflexivity|]. split; [reflexivity|].
  apply Ho; vm_compute; reflexivity.
Defined.

(** C8 as stated fails: a player at the cap who still has a pet gets the
    answer of the earlier gate, not the capacity message. *)
Lemma capacity_message_counterexample :
  let env := sample_env (sample_conf true true false ∅) in
  let s := sample_sys env two_tamed (sample_player 3 20 true ∅) in
  at_capacity s /\
  CreatePet env (Some 1) (Gossip.PetEntryOffset + 101) s =
    Some (CloseGossipMenuFor
            (emit (Whisper "First you must abandon or stable your current pet!") s)) /\
  ~ capacity_as_specified env 1 (Gossip.PetEntryOffset + 101) s.
Proof.
  intros env s.
  assert (Hcap : at_capacity s).
  { unfold at_capacity. vm_compute. repeat split; discriminate. }
  assert (E : CreatePet env (Some 1) (Gossip.PetEntryOffset + 101) s =
              Some (CloseGossipMenuFor
                      (emit (Whisper "First you must abandon or stable your current pet!") s)))
    by (vm_compute; reflexivity).
  split; [exact Hcap|]. split; [exact E|].
  intros H. specialize (H Hcap). rewrite E in H.
  apply (f_equal (fun o => out <$> o)) in H. revert H. vm_compute. discriminate.
Qed.

(** ** The page after a tracked delete *)

Lemma page_after_delete_slot idx totalPets :
  0 <= idx < Tracked.PageSize -> page_after_delete idx totalPets = 1.
Proof.
  unfold page_after_delete, Tracked.PageSize. intros H.
  rewrite (Z.div_small idx 10) by lia. change (wrap32 (0 + 1)) with 1.
  destruct (_ <? 1) eqn:E1, (0 <? _) eqn:E2; simpl; try reflexivity. lia.
Qed.

(** The loop of the tracked menu fills slots below the page size only. *)
Lemma tracked_loop_keys rows : forall shown m s,
  0 <= shown ->
  (forall k, is_Some (m !! k) -> 0 <= k < Tracked.PageSize) ->
  forall k, is_Some (snd (tracked_loop rows shown m s) !! k) ->
            0 <= k < Tracked.PageSize.
Proof.
  induction rows as [|[[e nm] d] rows IH]; intros shown m s Hs Hm k; simpl.
  - apply Hm.
  - destruct (shown <? Tracked.PageSize) eqn:E; [|apply Hm].
    apply IH; [lia|]. intros k'. rewrite lookup_insert.
    destruct (decide (shown = k')) as [<-|Hne]; [lia | apply Hm].
Qed.

(** C6 (the defect).  A slot the tracked menu can offer is below the page
    size, and for such a slot the delete branch renders page 1 next,
    whatever page the player was on and however many pets are left: the
    page is never brought to the last valid one. *)
Theorem tracked_delete_first_page creature idx e s :
  slot_entry (player s) idx = Some e ->
  0 <= idx < Tracked.PageSize ->
  tracked_delete creature idx s =
  ShowTrackedPetsMenu creature 1 (forget_tracked e s).
Proof.
  intros He Hidx. unfold tracked_delete. rewrite He.
  now rewrite page_after_delete_slot.
Qed.

Lemma slot_below_page_size creature page s s' idx e :
  ShowTrackedPetsMenu creature page s = Some s' ->
  slot_entry (player s') idx = Some e ->
  0 <= idx < Tracked.PageSize.
Proof.
  unfold ShowTrackedPetsMenu, slot_entry, Get_PetMap. intros H.
  match type of H with
  | match ?c with _ => _ end = _ => destruct c as [[s1 l]|]; [|discriminate]
  end.
  match type of H with
  | context [tracked_loop ?rows 0 ∅ s1] =>
      pose proof (tracked_loop_keys rows 0 ∅ s1 ltac:(lia)) as Hk;
        destruct (tracked_loop rows 0 ∅ s1) as [s2 m]
  end.
  injection H as <-. simpl in *. rewrite lookup_insert_eq. intros Hm.
  apply Hk; [|rewrite Hm; eauto].
  intros k [x Hx]. rewrite lookup_empty in Hx. discriminate.
Qed.

Lemma tracked_delete_first_page_witness :
  (slot_entry (player on_page_three) 0 = Some 101 /\ 0 <= 0 < Tracked.PageSize) /\
  tracked_delete (Some 1) 0 on_page_three =
    ShowTrackedPetsMenu (Some 1) 1 (forget_tracked 101 on_page_three) /\
  (* twenty pets and two pages are left; the next menu is page 1 ... *)
  (fun s => count_tamed (beastmaster_tamed_pets s) 7)
    <$> tracked_delete (Some 1) 0 on_page_three = Some 20 /\
  (fun s => slot_map (player s)) <$> tracked_delete (Some 1) 0 on_page_three =
    Some (Some (list_to_map [(0, 121); (1, 120); (2, 119); (3, 118); (4, 117);
                             (5, 116); (6, 115); (7, 114); (8, 113); (9, 112)])) /\
  (* ... whereas page 2, the last valid page, holds the ten older pets *)
  (fun s => slot_map (player s))
    <$> ShowTrackedPetsMenu (Some 1) 2 (forget_tracked 101 on_page_three) =
    Some (Some (list_to_map [(0, 111); (1, 110); (2, 109); (3, 108); (4, 107);
                             (5, 106); (6, 105); (7, 104); (8, 103); (9, 102)])).
Proof.
  assert (Hslot : slot_entry (player on_page_three) 0 = Some 101)
    by (vm_compute; reflexivity).
  assert (Hidx : 0 <= 0 < Tracked.PageSize) by (unfold Tracked.PageSize; lia).
  split; [auto|]. split.
  - exact (tracked_delete_first_page (Some 1) 0 101 on_page_three Hslot Hidx).
  - repeat split; vm_compute; reflexivity.
Defined.

(** The part of C6 that holds: after the delete of the only tracked pet the
    tracked menu is empty, on page 1. *)
Example delete_only_record :
  let s0 := sample_sys tracked_env [mkTamedRow 7 99 "Wolf" 5]
                       (sample_player 3 20 false ∅) in
  let s1 := default s0 (ShowTrackedPetsMenu (Some 1) 1 s0) in
  slot_map (player s1) = Some {[0 := 99]} /\
  (fun s' => (beastmaster_tamed_pets s', PlayerMenu (player s'), slot_map (player s'),
              last (out s')))
    <$> tracked_delete (Some 1) 0 s1 =
  Some ([], [], Some ∅, Some (SendGossipMenu Gossip.GossipBrowse [])).
Proof. split; vm_compute; reflexivity. Qed.

(** ** A delete while a rename is pending *)

Lemma tracked_loop_frame rows : forall shown m s,
  with_player (with_PlayerMenu [] (player (fst (tracked_loop rows shown m s))))
              (fst (tracked_loop rows shown m s)) =
  with_player (with_PlayerMenu [] (player s)) s.
Proof.
  induction rows as [|[[e nm] d] rows IH]; intros shown m s; simpl; [reflexivity|].
  destruct (shown <? Tracked.PageSize); [|reflexivity].
  rewrite IH. reflexivity.
Qed.

(** What a render of the tracked menu leaves alone. *)
Lemma ShowTrackedPetsMenu_frame creature page s s' :
  ShowTrackedPetsMenu creature page s = Some s' ->
  beastmaster_tamed_pets s' = beastmaster_tamed_pets s /\
  with_trackedPetsCache ∅ (rt s') = with_trackedPetsCache ∅ (rt s) /\
  (forall k, k <> guid (player s) ->
             trackedPetsCache (rt s') !! k = trackedPetsCache (rt s) !! k) /\
  guid (player s') = guid (player s) /\
  (forall k, k <> "BeastmasterMenuPetMap" ->
             CustomData (player s') !! k = CustomData (player s) !! k).
Proof.
  unfold ShowTrackedPetsMenu. intros H.
  assert (Hgen : forall s1 l,
             beastmaster_tamed_pets s1 = beastmaster_tamed_pets s ->
             with_trackedPetsCache ∅ (rt s1) = with_trackedPetsCache ∅ (rt s) ->
             (forall k, k <> guid (player s) ->
                        trackedPetsCache (rt s1) !! k = trackedPetsCache (rt s) !! k) ->
             guid (player s1) = guid (player s) ->
             CustomData (player s1) = CustomData (player s) ->
             (let '(s2, m) := tracked_loop l 0 ∅ s1 in
              Some (SendGossipMenuFor Gossip.GossipBrowse
                      (CustomData_Set "BeastmasterMenuPetMap" (BeastmasterPetMap m) s2)))
             = Some s' ->
             beastmaster_tamed_pets s' = beastmaster_tamed_pets s /\
             with_trackedPetsCache ∅ (rt s') = with_trackedPetsCache ∅ (rt s) /\
             (forall k, k <> guid (player s) ->
                        trackedPetsCache (rt s') !! k = trackedPetsCache (rt s) !! k) /\
             guid (player s') = guid (player s) /\
             (forall k, k <> "BeastmasterMenuPetMap" ->
                        CustomData (player s') !! k = CustomData (player s) !! k)).
  { intros s1 l Ht Hr Hc Hg Hd Hs.
    pose proof (tracked_loop_frame l 0 ∅ s1) as Hf.
    destruct (tracked_loop l 0 ∅ s1) as [s2 m]. simpl in Hf.
    injection Hs as <-. simpl.
    assert (E1 : beastmaster_tamed_pets s2 = beastmaster_tamed_pets s1)
      by (apply (f_equal beastmaster_tamed_pets) in Hf; exact Hf).
    assert (E2 : rt s2 = rt s1) by (apply (f_equal rt) in Hf; exact Hf).
    assert (E3 : guid (player s2) = guid (player s1))
      by (apply (f_equal (fun x => guid (player x))) in Hf; exact Hf).
    assert (E4 : CustomData (player s2) = CustomData (player s1))
      by (apply (f_equal (fun x => CustomData (player x))) in Hf; exact Hf).
    rewrite E1, E2, E3, E4, Hd. repeat split; try assumption.
    intros k Hk. now rewrite lookup_insert_ne. }
  simpl in H.
  destruct (trackedPetsCache (rt s) !! guid (player s)) as [l|] eqn:Hc.
  - eapply Hgen; [..|exact H]; auto.
  - destruct (trackTamedPets (config (rt s))); [|discriminate].
    eapply Hgen; [..|exact H]; simpl; auto.
    intros k Hk. now rewrite lookup_insert_ne.
Qed.

Lemma ShowTrackedPetsMenu_tracking creature page s :
  trackTamedPets (config (rt s)) = true ->
  is_Some (ShowTrackedPetsMenu creature page s).
Proof.
  intros Ht. unfold ShowTrackedPetsMenu. simpl. rewrite Ht.
  destruct (trackedPetsCache (rt s) !! guid (player s));
    match goal with |- context [tracked_loop ?l 0 ∅ ?s1] =>
      destruct (tracked_loop l 0 ∅ s1) end; eauto.
Qed.

Lemma update_name_deleted tbl nm g e :
  update_name (delete_tamed tbl g e) nm g e = delete_tamed tbl g e.
Proof.
  unfold update_name, delete_tamed. induction tbl as [|r tbl IH]; [reflexivity|].
  rewrite filter_cons. destruct (decide _) as [Hn|Hn]; [|exact IH].
  rewrite fmap_cons, IH. now rewrite bool_decide_eq_false_2.
Qed.

(** What the delete branch does before it renders the menu again. *)
Lemma forget_tracked_frame e s :
  let s' := forget_tracked e s in
  beastmaster_tamed_pets s' =
    delete_tamed (beastmaster_tamed_pets s) (guid (player s)) e /\
  rt_same_but_caches (guid (player s)) (rt s) (rt s') /\
  config (rt s') = config (rt s) /\
  guid (player s') = guid (player s) /\
  CustomData (player s') = delete "BeastmasterMenuPetMap" (CustomData (player s)) /\
  out s' = out s ++ [SysMessage ("Tracked pet deleted (entry " +:+ pretty e +:+ ").")].
Proof.
  unfold forget_tracked, rt_same_but_caches. simpl.
  destruct (trackTamedPets (config (rt s))); simpl.
  - destruct (tamedEntriesCache (rt s) !! guid (player s)); simpl;
      repeat split; auto; intros k Hk;
      rewrite ?lookup_insert_ne, ?lookup_delete_ne by congruence; reflexivity.
  - repeat split; auto; intros k Hk;
      rewrite ?lookup_delete_ne by congruence; reflexivity.
Qed.

(** The run of an accepted confirm command. *)
Lemma rename_accepted_run env args s e :
  rename_flag (player s) = Some true ->
  rename_target (player s) = Some e ->
  name_accepted env (trim args) s = true ->
  let s' := HandlePetnameRenameCommand env args s in
  rename_flag (player s') = None /\
  rename_target (player s') = None /\
  beastmaster_tamed_pets s' =
    Execute_pasted env (trim args) (update_text (trim args) (guid (player s)) e)
      (fun t => update_name t (trim args) (guid (player s)) e)
      (beastmaster_tamed_pets s) /\
  out s' = out s ++ [SysMessage ("Pet renamed to '" +:+ trim args +:+ "'.")].
Proof.
  intros Hf Ht Hacc. unfold HandlePetnameRenameCommand.
  unfold rename_flag, rename_target in Hf, Ht. rewrite Hf, Ht.
  unfold name_accepted in Hacc. apply andb_true_iff in Hacc as [Hv Hp].
  rewrite (IsValidPetName_nonempty _ Hv), Hv. simpl.
  pose proof (IsProfane_frame env (trim args) s) as (Hrt & Htbl & Hpl & Hout).
  destruct (IsProfane env (trim args) s) as [s1 profane]. simpl in *.
  apply negb_true_iff in Hp. subst profane.
  unfold rename_flag, rename_target, Get_Bool, Get_UInt32. simpl.
  rewrite Htbl, Hout. map_lookup. auto.
Qed.

(** The rest of what a render of the tracked menu leaves alone. *)
Lemma ShowTrackedPetsMenu_rest creature page s s' :
  ShowTrackedPetsMenu creature page s = Some s' ->
  player_core (player s') = player_core (player s) /\
  sProfanityList s' = sProfanityList s /\
  sProfanityListMTime s' = sProfanityListMTime s /\
  out s' = out s ++ [SendGossipMenu Gossip.GossipBrowse (PlayerMenu (player s'))].
Proof.
  unfold ShowTrackedPetsMenu. intros H.
  assert (Hgen : forall s1 l,
             player_core (player s1) = player_core (player s) ->
             sProfanityList s1 = sProfanityList s ->
             sProfanityListMTime s1 = sProfanityListMTime s ->
             out s1 = out s ->
             (let '(s2, m) := tracked_loop l 0 ∅ s1 in
              Some (SendGossipMenuFor Gossip.GossipBrowse
                      (CustomData_Set "BeastmasterMenuPetMap" (BeastmasterPetMap m) s2)))
             = Some s' ->
             player_core (player s') = player_core (player s) /\
             sProfanityList s' = sProfanityList s /\
             sProfanityListMTime s' = sProfanityListMTime s /\
             out s' = out s ++
                      [SendGossipMenu Gossip.GossipBrowse (PlayerMenu (player s'))]).
  { intros s1 l Hp Hl Hm Ho Hs.
    pose proof (tracked_loop_frame l 0 ∅ s1) as Hf.
    destruct (tracked_loop l 0 ∅ s1) as [s2 m]. simpl in Hf.
    injection Hs as <-.
    assert (E1 : player_core (player s2) = player_core (player s1))
      by (apply (f_equal (fun x => with_CustomData ∅ (player x))) in Hf; exact Hf).
    assert (E2 : sProfanityList s2 = sProfanityList s1)
      by (apply (f_equal sProfanityList) in Hf; exact Hf).
    assert (E3 : sProfanityListMTime s2 = sProfanityListMTime s1)
      by (apply (f_equal sProfanityListMTime) in Hf; exact Hf).
    assert (E4 : out s2 = out s1) by (apply (f_equal out) in Hf; exact Hf).
    rewrite <- Hp, <- Hl, <- Hm, <- Ho, <- E1, <- E2, <- E3, <- E4.
    repeat split. }
  simpl in H.
  destruct (trackedPetsCache (rt s) !! guid (player s)) as [l|] eqn:Hc.
  - eapply Hgen; [..|exact H]; reflexivity.
  - destruct (trackTamedPets (config (rt s))); [|discriminate].
    eapply Hgen; [..|exact H]; reflexivity.
Qed.

Lemma forget_tracked_rest e s :
  player_core (player (forget_tracked e s)) = player_core (player s) /\
  PlayerMenu (player (forget_tracked e s)) = PlayerMenu (player s) /\
  sProfanityList (forget_tracked e s) = sProfanityList s /\
  sProfanityListMTime (forget_tracked e s) = sProfanityListMTime s.
Proof.
  unfold forget_tracked. simpl.
  destruct (trackTamedPets (config (rt s))); simpl;
    [destruct (tamedEntriesCache (rt s) !! guid (player s))|]; repeat split.
Qed.

(** C10 (amended).  With tracking on, deleting a tracked pet from the menu
    removes its row, touches the two caches of the player, the menu slot
    map and the menu under construction, sends its message and the menu,
    and changes nothing else: the rest of the data stored on the player
    (the rename flag and its target entry with it), the player's identity,
    pet, spells and talents, the catalogue, the configuration, the caches
    of other players and the word list are as before.  A confirm command
    that follows therefore still passes the pending check and executes its
    UPDATE for the deleted entry; when the name has no apostrophe the
    UPDATE matches no row; the command reports the rename and clears the
    flag. *)
Theorem delete_keeps_rename_pending env creature idx e s :
  trackTamedPets (config (rt s)) = true ->
  slot_entry (player s) idx = Some e ->
  exists s',
    tracked_delete creature idx s = Some s' /\
    beastmaster_tamed_pets s' =
      delete_tamed (beastmaster_tamed_pets s) (guid (player s)) e /\
    rt_same_but_caches (guid (player s)) (rt s) (rt s') /\
    sProfanityList s' = sProfanityList s /\
    sProfanityListMTime s' = sProfanityListMTime s /\
    player_core (player s') = player_core (player s) /\
    (forall k, k <> "BeastmasterMenuPetMap" ->
               CustomData (player s') !! k = CustomData (player s) !! k) /\
    out s' = out s ++
      [SysMessage ("Tracked pet deleted (entry " +:+ pretty e +:+ ").");
       SendGossipMenu Gossip.GossipBrowse (PlayerMenu (player s'))] /\
    rename_flag (player s') = rename_flag (player s) /\
    rename_target (player s') = rename_target (player s) /\
    (forall args,
        rename_flag (player s) = Some true ->
        rename_target (player s) = Some e ->
        name_accepted env (trim args) s' = true ->
        let s'' := HandlePetnameRenameCommand env args s' in
        beastmaster_tamed_pets s'' =
          Execute_pasted env (trim args) (update_text (trim args) (guid (player s)) e)
            (fun t => update_name t (trim args) (guid (player s)) e)
            (beastmaster_tamed_pets s') /\
        (sql_plain (trim args) = true ->
         beastmaster_tamed_pets s'' = beastmaster_tamed_pets s') /\
        rename_flag (player s'') = None /\
        out s'' = out s' ++ [SysMessage ("Pet renamed to '" +:+ trim args +:+ "'.")]).
Proof.
  intros Htrack Hslot. unfold tracked_delete. rewrite Hslot.
  pose proof (forget_tracked_frame e s) as (Ft & Fr & Fc & Fg & Fd & Fo).
  pose proof (forget_tracked_rest e s) as (Fp & _ & Fl & Fm).
  set (s1 := forget_tracked e s) in *.
  match goal with |- context [ShowTrackedPetsMenu creature ?pg s1] =>
    destruct (ShowTrackedPetsMenu_tracking creature pg s1) as [s' Hs'];
      [congruence|]; rewrite Hs'; set (page := pg) in * end.
  destruct (ShowTrackedPetsMenu_frame creature page s1 s' Hs')
    as (St & Sr & Sc & Sg & Sd).
  destruct (ShowTrackedPetsMenu_rest creature page s1 s' Hs')
    as (Sp & Sl & Sm & So).
  assert (Hdata : forall k, k <> "BeastmasterMenuPetMap" ->
                            CustomData (player s') !! k = CustomData (player s) !! k).
  { intros k Hk. rewrite Sd, Fd by exact Hk. now apply lookup_delete_ne. }
  assert (Hflag : rename_flag (player s') = rename_flag (player s)).
  { unfold rename_flag, Get_Bool. now rewrite Hdata. }
  assert (Htarget : rename_target (player s') = rename_target (player s)).
  { unfold rename_target, Get_UInt32. now rewrite Hdata. }
  exists s'. split; [reflexivity|]. split; [congruence|]. split.
  { destruct Fr as (Fr1 & Fr2 & Fr3). unfold rt_same_but_caches. repeat split.
    - rewrite <- Fr1.
      apply (f_equal (with_tamedEntriesCache ∅)) in Sr. exact Sr.
    - intros k Hk. rewrite <- (Fr2 k Hk).
      apply (f_equal tamedEntriesCache) in Sr. simpl in Sr. now rewrite Sr.
    - intros k Hk. rewrite <- (Fr3 k Hk). apply Sc. congruence. }
  split; [congruence|]. split; [congruence|]. split; [congruence|].
  split; [exact Hdata|].
  split; [rewrite So, Fo, <- app_assoc; reflexivity|].
  split; [exact Hflag|]. split; [exact Htarget|].
  intros args Hf Ht Hacc.
  destruct (rename_accepted_run env args s' e) as (R1 & _ & R3 & R4);
    [congruence | congruence | exact Hacc |].
  rewrite Sg, Fg in R3.
  split; [exact R3|]. split; [|split; assumption].
  intros Hplain. rewrite R3. unfold Execute_pasted. rewrite Hplain.
  rewrite St, Ft. apply update_name_deleted.
Qed.

Lemma delete_keeps_rename_pending_witness :
  (trackTamedPets (config (rt rename_armed)) = true /\
   slot_entry (player rename_armed) 0 = Some 5000 /\
   rename_flag (player rename_armed) = Some true /\
   rename_target (player rename_armed) = Some 5000) /\
  tracked_delete (Some 1) 0 rename_armed = Some after_delete /\
  beastmaster_tamed_pets after_delete = [mkTamedRow 7 99 "Wolf" 5] /\
  rename_flag (player after_delete) = Some true /\
  rename_target (player after_delete) = Some 5000 /\
  beastmaster_tamed_pets (HandlePetnameRenameCommand tracked_env "Fang" after_delete) =
    [mkTamedRow 7 99 "Wolf" 5] /\
  rename_flag (player (HandlePetnameRenameCommand tracked_env "Fang" after_delete)) = None.
Proof.
  assert (H1 : trackTamedPets (config (rt rename_armed)) = true)
    by (vm_compute; reflexivity).
  assert (H2 : slot_entry (player rename_armed) 0 = Some 5000)
    by (vm_compute; reflexivity).
  assert (H3 : rename_flag (player rename_armed) = Some true)
    by (vm_compute; reflexivity).
  assert (H4 : rename_target (player rename_armed) = Some 5000)
    by (vm_compute; reflexivity).
  assert (Hd : tracked_delete (Some 1) 0 rename_armed = Some after_delete)
    by (vm_compute; reflexivity).
  split; [auto|]. split; [exact Hd|].
  destruct (delete_keeps_rename_pending tracked_env (Some 1) 0 5000 rename_armed H1 H2)
    as (s' & Hd' & Ht & _ & _ & _ & _ & _ & _ & Hf & Hg & Hconfirm).
  assert (Hs : s' = after_delete) by congruence. subst s'.
  assert (Ht' : beastmaster_tamed_pets after_delete = [mkTamedRow 7 99 "Wolf" 5])
    by (vm_compute; reflexivity).
  split; [exact Ht'|]. split; [congruence|]. split; [congruence|].
  assert (Hacc : name_accepted tracked_env (trim "Fang") after_delete = true)
    by (vm_compute; reflexivity).
  assert (Hplain : sql_plain (trim "Fang") = true) by (vm_compute; reflexivity).
  destruct (Hconfirm "Fang" H3 H4 Hacc) as (_ & R2 & R3 & _).
  split; [rewrite (R2 Hplain); exact Ht' | exact R3].
Defined.

Lemma slot_map_rewritten creature idx e s s' k v :
  slot_entry (player s) idx = Some e ->
  tracked_delete creature idx s = Some s' ->
  slot_map (player s) ≫= (.!! k) = Some v ->
  slot_map (player s') ≫= (.!! k) = None ->
  ~ delete_as_specified creature idx s.
Proof.
  intros He Hd Hs Hs' H. destruct (H e s' He Hd) as (_ & _ & Hc).
  unfold slot_map, Get_PetMap in Hs, Hs'. rewrite Hc in Hs'. congruence.
Qed.

Lemma delete_without_list creature idx e s :
  slot_entry (player s) idx = Some e ->
  tracked_delete creature idx s = None ->
  ~ delete_ends_as_specified creature idx s.
Proof.
  intros He Hd H. destruct (H e He) as [s' Hs']. congruence.
Qed.

Lemma confirm_renames_other_rows env creature idx e s s' args :
  slot_entry (player s) idx = Some e ->
  tracked_delete creature idx s = Some s' ->
  rename_flag (player s) = Some true ->
  rename_target (player s) = Some e ->
  name_accepted env (trim args) s' = true ->
  beastmaster_tamed_pets (HandlePetnameRenameCommand env args s') <>
    update_name (beastmaster_tamed_pets s') (trim args) (guid (player s)) e ->
  ~ confirm_as_specified env creature idx s args.
Proof.
  intros He Hd Hf Ht Hacc Hne H. destruct (H e s' He Hd Hf Ht Hacc) as [_ Hu].
  contradiction.
Qed.

(** C10 as stated fails three times.  In its frame: the delete action also
    rewrites the menu slot map stored on the player (here slot 1 disappears
    from it).  In that the delete action ends: once a reload has switched
    tracking off, the render after the delete finds no list and
    dereferences a null pointer.  In the update of the confirm command: a
    name with an apostrophe makes the UPDATE another text, and the one
    here, with the WHERE clause commented away, renames the row that is
    left. *)
Lemma delete_frame_counterexample :
  (slot_map (player rename_armed) = Some (list_to_map [(0, 5000); (1, 99)]) /\
   tracked_delete (Some 1) 0 rename_armed = Some after_delete /\
   slot_map (player after_delete) = Some {[0 := 99]} /\
   ~ delete_as_specified (Some 1) 0 rename_armed) /\
  (trackTamedPets (config (rt reloaded_untracked)) = false /\
   slot_entry (player reloaded_untracked) 0 = Some 5000 /\
   rename_flag (player reloaded_untracked) = Some true /\
   tracked_delete (Some 1) 0 reloaded_untracked = None /\
   ~ delete_ends_as_specified (Some 1) 0 reloaded_untracked) /\
  (name_accepted tracked_env (trim "x' -- y") after_delete = true /\
   beastmaster_tamed_pets after_delete = [mkTamedRow 7 99 "Wolf" 5] /\
   beastmaster_tamed_pets (HandlePetnameRenameCommand tracked_env "x' -- y" after_delete)
     = [mkTamedRow 7 99 "x" 5] /\
   ~ confirm_as_specified tracked_env (Some 1) 0 rename_armed "x' -- y").
Proof.
  assert (Hslot : slot_entry (player rename_armed) 0 = Some 5000)
    by (vm_compute; reflexivity).
  assert (Hdel : tracked_delete (Some 1) 0 rename_armed = Some after_delete)
    by (vm_compute; reflexivity).
  split; [|split].
  - split; [vm_compute; reflexivity|]. split; [exact Hdel|].
    split; [vm_compute; reflexivity|].
    apply (slot_map_rewritten (Some 1) 0 5000 rename_armed after_delete 1 99);
      vm_compute; reflexivity.
  - assert (Hs : slot_entry (player reloaded_untracked) 0 = Some 5000)
      by (vm_compute; reflexivity).
    assert (Hn : tracked_delete (Some 1) 0 reloaded_untracked = None)
      by (vm_compute; reflexivity).
    split; [vm_compute; reflexivity|]. split; [exact Hs|].
    split; [vm_compute; reflexivity|]. split; [exact Hn|].
    exact (delete_without_list (Some 1) 0 5000 reloaded_untracked Hs Hn).
  - assert (Hacc : name_accepted tracked_env (trim "x' -- y") after_delete = true)
      by (vm_compute; reflexivity).
    assert (Hcode : beastmaster_tamed_pets
                      (HandlePetnameRenameCommand tracked_env "x' -- y" after_delete)
                    = [mkTamedRow 7 99 "x" 5]) by (vm_compute; reflexivity).
    split; [exact Hacc|]. split; [vm_compute; reflexivity|]. split; [exact Hcode|].
    apply (confirm_renames_other_rows tracked_env (Some 1) 0 5000 rename_armed
             after_delete "x' -- y" Hslot Hdel);
      [vm_compute; reflexivity | vm_compute; reflexivity | exact Hacc |].
    rewrite Hcode.
    assert (Hspec : update_name (beastmaster_tamed_pets after_delete) (trim "x' -- y")
                      (guid (player rename_armed)) 5000
                    = [mkTamedRow 7 99 "Wolf" 5]) by (vm_compute; reflexivity).
    rewrite Hspec. discriminate.
Qed.

(** ** The action codes *)

Ltac unfold_codes :=
  unfold IsBrowseNormal, IsBrowseExotic, IsBrowseRare, IsBrowseRareExotic,
    IsAdoptAction, IsTrackedMenu, IsTrackedSummon, IsTrackedRename, IsTrackedDelete,
    Gossip.PetsStart, Gossip.ExoticStart, Gossip.RareStart, Gossip.RareExoticStart,
    Gossip.PetEntryOffset, Gossip.MainMenu, Gossip.RemoveSkills,
    Gossip.TrackedPetsMenu, Tracked.MenuBase, Tracked.SummonBase,
    Tracked.RenameBase, Tracked.DeleteBase in *.

(** Decide every comparison of the goal from the bounds at hand. *)
Ltac decide_comparisons :=
  repeat match goal with
         | |- context [?x <=? ?y] =>
             first [ rewrite (proj2 (Z.leb_le x y)) by lia
                   | rewrite (proj2 (Z.leb_gt x y)) by lia ]
         | |- context [?x <? ?y] =>
             first [ rewrite (proj2 (Z.ltb_lt x y)) by lia
                   | rewrite (proj2 (Z.ltb_ge x y)) by lia ]
         | |- context [?x =? ?y] =>
             first [ rewrite (proj2 (Z.eqb_eq x y)) by lia
                   | rewrite (proj2 (Z.eqb_neq x y)) by lia ]
         end.

(** X26.  The menu anchor, the four browse ranges and the adopt range do not
    overlap, and neither do the four tracked ranges among themselves. *)
Lemma browse_and_tracked_ranges_disjoint (a : Z) :
  (length (filter (fun b : bool => b = true)
                  [(a =? Gossip.MainMenu)%Z; IsBrowseNormal a; IsBrowseExotic a;
                   IsBrowseRare a; IsBrowseRareExotic a; IsAdoptAction a]) <= 1)%nat /\
  (length (filter (fun b : bool => b = true)
                  [(a =? Gossip.MainMenu)%Z; IsBrowseNormal a; IsBrowseExotic a;
                   IsBrowseRare a; IsBrowseRareExotic a;
                   IsTrackedMenu a; IsTrackedSummon a; IsTrackedRename a;
                   IsTrackedDelete a]) <= 1)%nat.
Proof.
  unfold_codes.
  assert (Hcases : a < 50 \/ a = 50 \/ 50 < a < 501 \/ 501 <= a < 601 \/
                   601 <= a < 701 \/ 701 <= a < 801 \/ 801 <= a < 901 \/
                   901 <= a < 1000 \/ 1000 <= a < 2000 \/ 2000 <= a < 3000 \/
                   3000 <= a < 4000 \/ 4000 <= a < 5000 \/ 5000 <= a) by lia.
  repeat (destruct Hcases as [Hc|Hcases]);
    (split; decide_comparisons; vm_compute; lia).
Qed.

(** X25.  Re-encoding what the chain of tests made of a code gives the code. *)
Lemma encode_decode h a :
  0 <= a < 2 ^ 32 -> decode h a <> INone -> encode h (decode h a) = a.
Proof.
  intros Ha. unfold decode. unfold_codes.
  repeat match goal with
         | |- context [if ?x =? ?y then _ else _] => destruct (Z.eqb_spec x y)
         | |- context [(?x <=? ?y) && _] => destruct (Z.leb_spec x y); simpl
         | |- context [if ?x <? ?y then _ else _] => destruct (Z.ltb_spec x y)
         | |- context [if ?x <=? ?y then _ else _] => destruct (Z.leb_spec x y)
         end;
    intros Hd; try congruence; simpl; unfold Gossip.PetsStart, Gossip.ExoticStart,
      Gossip.RareStart, Gossip.RareExoticStart, Gossip.PetEntryOffset,
      Gossip.MainMenu, Gossip.RemoveSkills, Gossip.TrackedPetsMenu,
      Tracked.SummonBase, Tracked.RenameBase, Tracked.DeleteBase;
    rewrite ?to_int_small by lia;
    rewrite ?(wrap32_small (a - 901)), ?(wrap32_small (a - 1000 + 1)) by lia;
    rewrite ?wrap32_small by lia; lia.
Qed.

(** C1 (the defect).  Every code of the four tracked ranges also satisfies
    the adopt test, whose range starts at 901 and has no upper end: the
    adopt range is not above the other ranges but contains the tracked ones.
    [GossipSelect] tests the tracked ranges first and returns, so the adopt
    codes of the catalogue entries 99..4098 never reach [CreatePet]: the
    code 1000 that [AddPetsToGossip] gives the adopt item of entry 99 opens
    page 1 of the tracked menu and no pet is created. *)
Theorem adopt_codes_shadowed :
  (forall a,
      IsTrackedMenu a || IsTrackedSummon a || IsTrackedRename a || IsTrackedDelete a
        = true ->
      IsAdoptAction a = true) /\
  (forall h e,
      99 <= e <= 4098 ->
      encode h (IAdopt e) = e + Gossip.PetEntryOffset /\
      decode h (encode h (IAdopt e)) <> IAdopt e) /\
  (IsAdoptAction 1000 = true /\ IsTrackedMenu 1000 = true /\
   decode acore 1000 = ITrackedMenu 1) /\
  (let env := sample_env (sample_conf true true false ∅) in
   let s := sample_sys env [] (sample_player 3 20 false ∅) in
   (* the first browse page offers entry 99 under the code 1000 *)
   (fun s' => item_action <$> PlayerMenu (player s')) <$> GossipSelect env (Some 1) 501 s
     = Some [50; 1000; 1002] /\
   (* that code shows the tracked menu and adopts nothing *)
   (fun s' => (GetPet (player s'), out s')) <$> GossipSelect env (Some 1) 1000 s
     = Some (None, [SendGossipMenu Gossip.GossipBrowse []]) /\
   (* whereas the adoption it stands for would have given the wolf *)
   (fun s' => pet_entry <$> GetPet (player s')) <$> CreatePet env (Some 1) 1000 s
     = Some (Some 99)).
Proof.
  split; [|split; [|split]].
  - intros a. unfold_codes. lia.
  - intros h e He. unfold encode, decode. unfold_codes.
    rewrite wrap32_small by lia. split; [reflexivity|].
    repeat match goal with
           | |- context [if ?x =? ?y then _ else _] => destruct (Z.eqb_spec x y)
           | |- context [(?x <=? ?y) && _] => destruct (Z.leb_spec x y); simpl
           | |- context [if ?x <? ?y then _ else _] => destruct (Z.ltb_spec x y)
           | |- context [if ?x <=? ?y then _ else _] => destruct (Z.leb_spec x y)
           end; try discriminate; lia.
  - repeat split.
  - repeat split; vm_compute; reflexivity.
Qed.

(** * Further properties *)

(** ** The option parsers *)

Lemma collect_acc (step : gset Z -> string -> gset Z) items :
  (forall acc item, step acc item = step ∅ item ∪ acc) ->
  forall acc, foldl step acc items = foldl step ∅ items ∪ acc.
Proof.
  intros Hu. induction items as [|it items IH]; intros acc; simpl.
  - now rewrite union_empty_l_L.
  - rewrite IH, (IH (step ∅ it)), (Hu acc it). now rewrite (assoc_L (∪)).
Qed.

Lemma collect_comma (step : gset Z -> string -> gset Z) a b :
  (forall acc item, step acc item = step ∅ item ∪ acc) ->
  (forall acc, step acc "" = acc) ->
  forall item,
    foldl step ∅ (getline_items item (a +:+ "," +:+ b)) =
    foldl step ∅ (getline_items item a) ∪ foldl step ∅ (getline_items "" b).
Proof.
  intros Hu He. induction a as [|c a IH]; intros item.
  - rewrite append_nil_l, append_cons. simpl.
    rewrite (collect_acc step _ Hu (step ∅ item)).
    destruct (String.eqb_spec item "") as [->|Hne]; simpl.
    + now rewrite He, union_empty_r_L, union_empty_l_L.
    + apply (comm_L (∪)).
  - rewrite append_cons. simpl. destruct (Ascii.eqb c ","); simpl.
    + rewrite (collect_acc step _ Hu (step ∅ item)),
        (collect_acc step (getline_items "" a) Hu (step ∅ item)).
      rewrite IH. rewrite <- !(assoc_L (∪)). f_equal. apply (comm_L (∪)).
    + apply IH.
Qed.

Lemma stoul_empty : stoul "" = None.
Proof. reflexivity. Qed.

(** X1.  Gluing two option values with a comma gives the union of what each
    parses to, for the entry lists and for the race and class lists. *)
Theorem parse_comma_union a b :
  ParseEntryList (a +:+ "," +:+ b) = ParseEntryList a ∪ ParseEntryList b /\
  ParseAllowedClasses (a +:+ "," +:+ b) = ParseAllowedClasses a ∪ ParseAllowedClasses b /\
  ParseAllowedRaces (a +:+ "," +:+ b) = ParseAllowedRaces a ∪ ParseAllowedRaces b.
Proof.
  unfold ParseAllowedRaces, ParseAllowedClasses, ParseEntryList, parse_uint8_list.
  assert (H8 : forall (acc : gset Z) item,
             match stoul item with
             | Some v => let x := v mod 2 ^ 8 in
                         if 0 <? x then {[x]} ∪ acc else acc
             | None => acc
             end =
             match stoul item with
             | Some v => let x := v mod 2 ^ 8 in
                         if 0 <? x then {[x]} ∪ ∅ else ∅
             | None => ∅
             end ∪ acc).
  { intros acc item. destruct (stoul item) as [v|]; simpl;
      [destruct (0 <? v mod 2 ^ 8)|]; set_solver. }
  assert (H32 : forall (acc : gset Z) item,
             match stoul item with
             | Some v => {[wrap32 v]} ∪ acc
             | None => acc
             end =
             match stoul item with
             | Some v => {[wrap32 v]} ∪ ∅
             | None => ∅
             end ∪ acc).
  { intros acc item. destruct (stoul item) as [v|]; set_solver. }
  repeat split; apply collect_comma; auto.
Qed.

(** X2.  The race and class parsers keep only values from 1 to 255: an item
    that reads as 0, or as a multiple of 256, adds nothing. *)
Theorem parse_uint8_range csv v :
  v ∈ ParseAllowedClasses csv \/ v ∈ ParseAllowedRaces csv -> 1 <= v <= 255.
Proof.
  unfold ParseAllowedRaces, ParseAllowedClasses, parse_uint8_list.
  assert (H : forall items (acc : gset Z),
             (forall x, x ∈ acc -> 1 <= x <= 255) ->
             forall x,
               x ∈ foldl (fun (result : gset Z) item =>
                            match stoul item with
                            | Some v => let x := v mod 2 ^ 8 in
                                        if 0 <? x then {[x]} ∪ result else result
                            | None => result
                            end) acc items ->
               1 <= x <= 255).
  { induction items as [|it items IH]; intros acc Hacc; simpl; [exact Hacc|].
    apply IH. destruct (stoul it) as [w|]; [|exact Hacc]. simpl.
    destruct (0 <? w mod 2 ^ 8) eqn:E; [|exact Hacc].
    intros x [->%elem_of_singleton|Hx]%elem_of_union; [|auto].
    pose proof (Z.mod_pos_bound w (2 ^ 8) ltac:(lia)). lia. }
  intros [Hv|Hv]; revert Hv; apply H; set_solver.
Qed.

Lemma parse_uint8_range_witness :
  (4 ∈ ParseAllowedClasses " 3, 4,x,0,256,-1" \/
   4 ∈ ParseAllowedRaces " 3, 4,x,0,256,-1") /\
  ParseAllowedClasses " 3, 4,x,0,256,-1" = {[3; 4; 255]} /\
  ParseAllowedClasses "0" = ∅ /\
  1 <= 4 <= 255.
Proof.
  assert (H : 4 ∈ ParseAllowedClasses " 3, 4,x,0,256,-1" \/
              4 ∈ ParseAllowedRaces " 3, 4,x,0,256,-1").
  { left. refine (bool_decide_unpack _ _). vm_compute. exact I. }
  split; [exact H|]. split; [vm_compute; reflexivity|].
  split; [vm_compute; reflexivity|].
  exact (parse_uint8_range _ 4 H).
Defined.

(** ** The word list *)

(** X3.  Loading the word list twice in a row is the same as loading it
    once: the second call finds the list it would build. *)
Theorem LoadProfanityList_idempotent env s :
  LoadProfanityListIfNeeded env (LoadProfanityListIfNeeded env s) =
  LoadProfanityListIfNeeded env s.
Proof.
  unfold LoadProfanityListIfNeeded.
  destruct (file_mtime (profanity_txt env) =? 0) eqn:E0; [reflexivity|].
  destruct ((file_mtime (profanity_txt env) =? sProfanityListMTime s)
            && negb (bool_decide (sProfanityList s = ∅))) eqn:E1.
  { now rewrite E1. }
  destruct (file_lines (profanity_txt env)) as [lines|] eqn:El; simpl.
  - rewrite Z.eqb_refl. simpl. case_match; reflexivity.
  - rewrite (bool_decide_eq_true_2 (∅ = ∅)) by reflexivity.
    rewrite andb_false_r. reflexivity.
Qed.

Lemma str_tolower_empty l : str_tolower l = "" <-> l = "".
Proof. destruct l; simpl; split; congruence. Qed.

Lemma lowered_lines_spec lines : forall (acc : gset string) w,
  w ∈ foldl (fun (acc : gset string) word =>
               let word := str_tolower word in
               if String.eqb word "" then acc else {[word]} ∪ acc) acc lines <->
  w ∈ acc \/ (w <> "" /\ exists l, l ∈ lines /\ w = str_tolower l).
Proof.
  induction lines as [|l lines IH]; intros acc w; simpl.
  - split; [auto|]. intros [H|(_ & l & Hl & _)]; [exact H|]. inversion Hl.
  - rewrite IH. destruct (String.eqb_spec (str_tolower l) "") as [E|E].
    + split.
      * intros [H|(Hw & l' & Hl' & ->)]; [auto|]. right. split; [exact Hw|].
        exists l'. split; [now right | reflexivity].
      * intros [H|(Hw & l' & Hl' & ->)]; [auto|]. right. split; [exact Hw|].
        apply elem_of_cons in Hl' as [->|Hl']; [congruence|]. eauto.
    + rewrite elem_of_union, elem_of_singleton. split.
      * intros [[->|H]|(Hw & l' & Hl' & ->)]; [|auto|].
        -- right. split; [exact E|]. exists l. split; [now left | reflexivity].
        -- right. split; [exact Hw|]. exists l'. split; [now right | reflexivity].
      * intros [H|(Hw & l' & Hl' & ->)]; [auto|].
        apply elem_of_cons in Hl' as [->|Hl']; [auto|]. right. eauto.
Qed.

(** X4.  When the file is read (it exists, it opens, and its time stamp is
    new or the list in memory is empty), the list becomes the set of the
    non-empty lines in lower case, and a name that contains one of the
    lines, in whatever letter case, is profane while the filter is on. *)
Theorem profanity_file_blocks env s :
  file_mtime (profanity_txt env) <> 0 ->
  (file_mtime (profanity_txt env) <> sProfanityListMTime s \/ sProfanityList s = ∅) ->
  forall lines,
    file_lines (profanity_txt env) = Some lines ->
    (forall w,
        w ∈ sProfanityList (LoadProfanityListIfNeeded env s) <->
        w <> "" /\ exists l, l ∈ lines /\ w = str_tolower l) /\
    (forall l name,
        opt_ProfanityFilter (conf env) = true ->
        l ∈ lines -> l <> "" ->
        substring (str_tolower l) (str_tolower name) ->
        snd (IsProfane env name s) = true).
Proof.
  intros Hm Hnew lines Hl.
  assert (Hlist : forall w,
             w ∈ sProfanityList (LoadProfanityListIfNeeded env s) <->
             w <> "" /\ exists l, l ∈ lines /\ w = str_tolower l).
  { intros w. unfold LoadProfanityListIfNeeded.
    rewrite (proj2 (Z.eqb_neq _ _) Hm).
    assert (E : (file_mtime (profanity_txt env) =? sProfanityListMTime s)
                && negb (bool_decide (sProfanityList s = ∅)) = false).
    { destruct Hnew as [H|H].
      - now rewrite (proj2 (Z.eqb_neq _ _) H).
      - rewrite (bool_decide_eq_true_2 _ H). apply andb_false_r. }
    rewrite E, Hl. simpl. rewrite lowered_lines_spec. set_solver. }
  split; [exact Hlist|].
  intros l name Hf Hin Hne Hsub. apply profane_spec; [exact Hf|].
  exists (str_tolower l). split; [|exact Hsub].
  apply Hlist. split; [now rewrite str_tolower_empty | eauto].
Qed.

Lemma profanity_file_blocks_witness :
  let env := sample_env (sample_conf true true false ∅) in
  let s := mkSys (rt (sample_sys env [] (sample_player 3 20 false ∅))) [] ∅ 0
                 (sample_player 3 20 false ∅) [] in
  (file_mtime (profanity_txt env) <> 0 /\
   (file_mtime (profanity_txt env) <> sProfanityListMTime s \/ sProfanityList s = ∅) /\
   file_lines (profanity_txt env) = Some ["Bad"]) /\
  snd (IsProfane env "BADGER" s) = true.
Proof.
  intros env s.
  assert (H1 : file_mtime (profanity_txt env) <> 0) by (vm_compute; discriminate).
  assert (H2 : file_mtime (profanity_txt env) <> sProfanityListMTime s \/
               sProfanityList s = ∅) by (right; reflexivity).
  assert (H3 : file_lines (profanity_txt env) = Some ["Bad"]) by reflexivity.
  split; [auto|].
  destruct (profanity_file_blocks env s H1 H2 ["Bad"] H3) as [_ Hb].
  apply (Hb "Bad"); [reflexivity | now left | discriminate |].
  exists "", "ger". reflexivity.
Defined.

(** ** More on the catalogue *)

Lemma load_row_fields r row :
  allPetsByEntry (load_row r row) =
    <[tame_entry row := fetch_info row]> (allPetsByEntry r) /\
  tamedEntriesCache (load_row r row) = tamedEntriesCache r /\
  trackedPetsCache (load_row r row) = trackedPetsCache r /\
  config (load_row r row) = config r.
Proof. unfold load_row. repeat case_match; auto. Qed.

Lemma load_rows_fields rows : forall r,
  tamedEntriesCache (foldl load_row r rows) = tamedEntriesCache r /\
  trackedPetsCache (foldl load_row r rows) = trackedPetsCache r /\
  config (foldl load_row r rows) = config r.
Proof.
  induction rows as [|row rows IH]; intros r; simpl; [auto|].
  destruct (IH (load_row r row)) as (-> & -> & ->).
  destruct (load_row_fields r row) as (_ & -> & -> & ->). auto.
Qed.

Lemma load_rows_by_entry rows : forall r e,
  allPetsByEntry (foldl load_row r rows) !! e =
  match last (filter (fun row => tame_entry row = e) rows) with
  | Some row => Some (fetch_info row)
  | None => allPetsByEntry r !! e
  end.
Proof.
  induction rows as [|row rows IH] using rev_ind; intros r e; [reflexivity|].
  rewrite foldl_app, filter_app. simpl.
  destruct (load_row_fields (foldl load_row r rows) row) as (-> & _).
  rewrite filter_cons, filter_nil.
  destruct (decide (tame_entry row = e)) as [<-|Hne].
  - rewrite last_snoc. apply lookup_insert_eq.
  - rewrite app_nil_r, lookup_insert_ne by exact Hne. apply IH.
Qed.

(** X6.  After a load, [FindPetInfo] answers with the last row of
    beastmaster_tames that carries the entry (a later row replaces an
    earlier one), and with nothing exactly when no row carries it. *)
Theorem FindPetInfo_after_load env s e :
  FindPetInfo (LoadSystem env s) e =
    fetch_info <$> last (filter (fun row => tame_entry row = e) (beastmaster_tames env)) /\
  (FindPetInfo (LoadSystem env s) e = None <->
   e ∉ tame_entry <$> beastmaster_tames env).
Proof.
  assert (H : FindPetInfo (LoadSystem env s) e =
              fetch_info <$> last (filter (fun row => tame_entry row = e)
                                          (beastmaster_tames env))).
  { unfold FindPetInfo, LoadSystem. simpl. rewrite LoadSystem_rt_fold.
    rewrite load_rows_by_entry. simpl. rewrite lookup_empty.
    now destruct (last _). }
  split; [exact H|]. rewrite H, fmap_None, last_None. split.
  - intros Hf (row & -> & Hin)%list_elem_of_fmap.
    assert (Hr : row ∈ filter (fun row0 => tame_entry row0 = tame_entry row)
                              (beastmaster_tames env))
      by (apply list_elem_of_filter; auto).
    rewrite Hf in Hr. inversion Hr.
  - intros Hn. destruct (filter _ _) as [|row l] eqn:E; [reflexivity|].
    exfalso. apply Hn.
    assert (Hr : row ∈ filter (fun row0 => tame_entry row0 = e) (beastmaster_tames env))
      by (rewrite E; left).
    apply list_elem_of_filter in Hr as [<- Hr]. apply list_elem_of_fmap. eauto.
Qed.

(** X7.  The level bounds of the snapshot are in order: when both are set
    (not 0), the minimum is not above the maximum; they are the two
    configured values, swapped if need be. *)
Theorem read_config_levels c :
  let cfg := read_config c in
  (minLevel cfg <> 0 -> maxLevel cfg <> 0 -> minLevel cfg <= maxLevel cfg) /\
  ((minLevel cfg, maxLevel cfg) = (opt_MinLevel c, opt_MaxLevel c) \/
   (minLevel cfg, maxLevel cfg) = (opt_MaxLevel c, opt_MinLevel c)).
Proof.
  unfold read_config. simpl.
  destruct (opt_MaxLevel c =? 0) eqn:E1, (opt_MaxLevel c <? opt_MinLevel c) eqn:E2,
    (opt_MinLevel c =? 0) eqn:E3; simpl; split; auto; lia.
Qed.

(** X8.  A reload does not touch the per-player caches, the player or the
    tracked table, and a second load in a row changes nothing more. *)
Theorem LoadSystem_idempotent env s :
  LoadSystem env (LoadSystem env s) = LoadSystem env s /\
  tamedEntriesCache (rt (LoadSystem env s)) = tamedEntriesCache (rt s) /\
  trackedPetsCache (rt (LoadSystem env s)) = trackedPetsCache (rt s) /\
  config (rt (LoadSystem env s)) = read_config (conf env) /\
  player (LoadSystem env s) = player s /\
  beastmaster_tamed_pets (LoadSystem env s) = beastmaster_tamed_pets s.
Proof.
  assert (Hc : tamedEntriesCache (LoadSystem_rt env (rt s)) = tamedEntriesCache (rt s) /\
               trackedPetsCache (LoadSystem_rt env (rt s)) = trackedPetsCache (rt s) /\
               config (LoadSystem_rt env (rt s)) = read_config (conf env)).
  { rewrite LoadSystem_rt_fold.
    match goal with |- context [foldl load_row ?c ?rows] =>
      destruct (load_rows_fields rows c) as (-> & -> & ->) end. auto. }
  destruct Hc as (H1 & H2 & H3).
  unfold LoadSystem. simpl. repeat split; auto.
  unfold with_rt. simpl. f_equal.
  rewrite (LoadSystem_rt_fold env (LoadSystem_rt env (rt s))), H1, H2.
  symmetry. apply LoadSystem_rt_fold.
Qed.

(** ** More on the dispatch of [GossipSelect] *)

(** X10.  Outside the band 99..4098 that the tracked ranges take away, and
    apart from the two host options, the code of an adopt item comes back as
    the adoption of its entry: the click runs [CreatePet] for that entry. *)
Theorem adopt_code_reaches_CreatePet env creature e s :
  opt_Enable (conf env) = true ->
  0 <= e -> e + Gossip.PetEntryOffset < 2 ^ 32 ->
  e < 99 \/ 4098 < e ->
  e + Gossip.PetEntryOffset <> GOSSIP_OPTION_STABLEPET (host env) ->
  e + Gossip.PetEntryOffset <> GOSSIP_OPTION_VENDOR (host env) ->
  decode (host env) (encode (host env) (IAdopt e)) = IAdopt e /\
  GossipSelect env creature (encode (host env) (IAdopt e)) s =
    CreatePet env creature (e + Gossip.PetEntryOffset) (dispatch_state env s).
Proof.
  intros Hen He H32 Hband Hst Hv.
  assert (Henc : encode (host env) (IAdopt e) = e + Gossip.PetEntryOffset).
  { unfold encode. apply wrap32_small. unfold Gossip.PetEntryOffset in *. lia. }
  assert (Hdec : decode (host env) (e + Gossip.PetEntryOffset) = IAdopt e).
  { unfold decode. unfold_codes.
    rewrite (proj2 (Z.eqb_neq _ _) Hst), (proj2 (Z.eqb_neq _ _) Hv).
    destruct Hband; decide_comparisons; simpl;
      (rewrite wrap32_small by lia); f_equal; lia. }
  rewrite Henc. split; [exact Hdec|].
  unfold GossipSelect, dispatch_state. rewrite Hen, Hdec. simpl.
  unfold IsAdoptAction, Gossip.PetEntryOffset in *.
  now rewrite (proj2 (Z.leb_le 901 (e + 901))) by lia.
Qed.

Lemma adopt_code_reaches_CreatePet_witness :
  let env := sample_env (sample_conf true true false ∅) in
  let s := sample_sys env [] (sample_player 3 20 false ∅) in
  (opt_Enable (conf env) = true /\ 0 <= 5000 /\
   5000 + Gossip.PetEntryOffset < 2 ^ 32 /\ (5000 < 99 \/ 4098 < 5000) /\
   5000 + Gossip.PetEntryOffset <> GOSSIP_OPTION_STABLEPET (host env) /\
   5000 + Gossip.PetEntryOffset <> GOSSIP_OPTION_VENDOR (host env)) /\
  GossipSelect env (Some 1) (encode (host env) (IAdopt 5000)) s =
    CreatePet env (Some 1) (5000 + Gossip.PetEntryOffset) (dispatch_state env s).
Proof.
  intros env s.
  assert (H1 : opt_Enable (conf env) = true) by reflexivity.
  assert (H2 : 0 <= 5000) by lia.
  assert (H3 : 5000 + Gossip.PetEntryOffset < 2 ^ 32) by (vm_compute; reflexivity).
  assert (H4 : 5000 < 99 \/ 4098 < 5000) by lia.
  assert (H5 : 5000 + Gossip.PetEntryOffset <> GOSSIP_OPTION_STABLEPET (host env))
    by (vm_compute; discriminate).
  assert (H6 : 5000 + Gossip.PetEntryOffset <> GOSSIP_OPTION_VENDOR (host env))
    by (vm_compute; discriminate).
  split; [auto 10|].
  exact (proj2 (adopt_code_reaches_CreatePet env (Some 1) 5000 s H1 H2 H3 H4 H5 H6)).
Defined.

(** X11.  A code that no test of the chain claims does nothing: the menu
    under construction is cleared and the handler returns, without a
    message, without a menu. The "(Already Tamed)" placeholder is such an
    item as long as the host gives the code 0 to neither of its two options. *)
Theorem unclaimed_code_is_inert env creature action s :
  opt_Enable (conf env) = true ->
  decode (host env) action = INone ->
  GossipSelect env creature action s = Some (dispatch_state env s) /\
  out (dispatch_state env s) = out s /\
  beastmaster_tamed_pets (dispatch_state env s) = beastmaster_tamed_pets s /\
  GetPet (player (dispatch_state env s)) = GetPet (player s) /\
  CustomData (player (dispatch_state env s)) = CustomData (player s).
Proof.
  intros Hen Hd. unfold GossipSelect, dispatch_state. rewrite Hen, Hd. simpl.
  assert (Ha : IsAdoptAction action = false).
  { unfold decode in Hd. repeat case_match; try discriminate. reflexivity. }
  rewrite Ha. repeat split; destruct (bool_decide _); reflexivity.
Qed.

Lemma unclaimed_code_is_inert_witness :
  let env := sample_env (sample_conf true true false ∅) in
  let s := sample_sys env [mkTamedRow 7 99 "Wolf" 5] (sample_player 3 20 false ∅) in
  let placeholder := pet_item {[99]} (mkPetInfo 99 "Wolf" 1 "normal" GOSSIP_ICON_TRAINER) in
  (opt_Enable (conf env) = true /\
   decode (host env) (item_action placeholder) = INone) /\
  GossipSelect env (Some 1) (item_action placeholder) s = Some (dispatch_state env s).
Proof.
  intros env s placeholder.
  assert (H1 : opt_Enable (conf env) = true) by reflexivity.
  assert (H2 : decode (host env) (item_action placeholder) = INone)
    by (vm_compute; reflexivity).
  split; [auto|].
  exact (proj1 (unclaimed_code_is_inert env (Some 1) (item_action placeholder) s H1 H2)).
Defined.

Lemma pets_loop_player tamed page pets : forall count s,
  player_sans_menu (player (pets_loop tamed page pets count s)) =
  player_sans_menu (player s).
Proof.
  induction pets as [|pet rest IH]; intros count s; simpl; [reflexivity|].
  rewrite IH. repeat case_match; reflexivity.
Qed.

Lemma browse_branch_player start pets creature action s s' :
  browse_branch start pets creature action s = Some s' ->
  player_sans_menu (player s') = player_sans_menu (player s).
Proof.
  unfold browse_branch, AddPetsToGossip. intros H.
  destruct creature; [|discriminate]. injection H as <-. simpl.
  repeat case_match; simplify_eq; rewrite pets_loop_player;
    repeat case_match; reflexivity.
Qed.

Lemma pets_loop_out tamed page pets : forall count s,
  out (pets_loop tamed page pets count s) = out s.
Proof.
  induction pets as [|pet rest IH]; intros count s; simpl; [reflexivity|].
  rewrite IH. repeat case_match; reflexivity.
Qed.

(** With the creature at hand a browse branch always sends its menu; it
    changes the player in the menu under construction only. *)
Lemma browse_branch_sends start pets c action s :
  exists s',
    browse_branch start pets (Some c) action s = Some s' /\
    player_sans_menu (player s') = player_sans_menu (player s) /\
    out s' = out s ++ [SendGossipMenu Gossip.GossipBrowse (PlayerMenu (player s'))].
Proof.
  eexists. split; [reflexivity|].
  split; [apply (browse_branch_player start pets (Some c) action); reflexivity|].
  unfold SendGossipMenuFor. simpl. f_equal.
  unfold AddPetsToGossip.
  repeat case_match; simplify_eq; rewrite pets_loop_out; reflexivity.
Qed.

Lemma teach_beast_mastery_spec c s :
  exists s',
    teach_beast_mastery (Some c) s = Some s' /\
    has_beast_mastery (player s') = true /\
    (has_beast_mastery (player s) = false ->
     HasSpell (player s') PET_SPELL_BEAST_MASTERY = true /\
     out s' = out s ++ [Whisper ("I have taught you the art of Beast Mastery, "
                                 +:+ player_name (player s) +:+ ".")]).
Proof.
  unfold teach_beast_mastery.
  destruct (has_beast_mastery (player s)) eqn:Hb.
  - exists s. split; [reflexivity|]. split; [exact Hb | discriminate].
  - eexists. split; [reflexivity|].
    assert (Hs : forall sp, HasSpell (with_spells ({[PET_SPELL_BEAST_MASTERY]} ∪ sp)
                                                  (player s))
                                     PET_SPELL_BEAST_MASTERY = true).
    { intros sp. unfold HasSpell. simpl. apply bool_decide_eq_true_2. set_solver. }
    split; [unfold has_beast_mastery; simpl; now rewrite Hs|].
    intros _. split; [apply Hs | reflexivity].
Qed.

(** X13.  Opening the exotic or the rare-exotic category leaves the player
    with Beast Mastery, whatever the class and whatever AllowExotic says:
    the branch teaches the spell to a player who has neither spell nor
    talent, and tells so before it sends the page. *)
Theorem exotic_browse_teaches env c action s :
  opt_Enable (conf env) = true ->
  IsBrowseExotic action = true \/ IsBrowseRareExotic action = true ->
  exists s',
    GossipSelect env (Some c) action s = Some s' /\
    has_beast_mastery (player s') = true /\
    (has_beast_mastery (player s) = false ->
     HasSpell (player s') PET_SPELL_BEAST_MASTERY = true /\
     out s' =
       out s ++ [Whisper ("I have taught you the art of Beast Mastery, "
                          +:+ player_name (player s) +:+ ".");
                 SendGossipMenu Gossip.GossipBrowse (PlayerMenu (player s'))]).
Proof.
  intros Hen Ha. unfold GossipSelect. rewrite Hen. cbn [negb].
  set (s1 := ClearGossipMenuFor
               (if bool_decide (allPets (rt s) = []) then LoadSystem env s else s)).
  assert (Hp1 : player_sans_menu (player s1) = player_sans_menu (player s))
    by (subst s1; destruct (bool_decide _); reflexivity).
  assert (Ho1 : out s1 = out s) by (subst s1; destruct (bool_decide _); reflexivity).
  assert (Hadopt : IsAdoptAction action = false).
  { unfold_codes. destruct Ha as [Ha|Ha];
      apply andb_true_iff in Ha as [H1 H2]; lia. }
  rewrite Hadopt.
  assert (Hbm : forall p p', player_sans_menu p' = player_sans_menu p ->
                             has_beast_mastery p' = has_beast_mastery p /\
                             HasSpell p' PET_SPELL_BEAST_MASTERY =
                               HasSpell p PET_SPELL_BEAST_MASTERY /\
                             player_name p' = player_name p).
  { intros p p' E. unfold has_beast_mastery, HasSpell, HasTalent.
    apply (f_equal spells) in E as E1. apply (f_equal talents) in E as E2.
    apply (f_equal player_name) in E as E3. simpl in *. now rewrite E1, E2, E3. }
  assert (Hgen : forall start pets,
             exists s',
               and_then (and_then (teach_beast_mastery (Some c) s1)
                                  (browse_branch start pets (Some c) action))
                        (fun s => Some s) = Some s' /\
               has_beast_mastery (player s') = true /\
               (has_beast_mastery (player s) = false ->
                HasSpell (player s') PET_SPELL_BEAST_MASTERY = true /\
                out s' =
                  out s ++ [Whisper ("I have taught you the art of Beast Mastery, "
                                     +:+ player_name (player s) +:+ ".");
                            SendGossipMenu Gossip.GossipBrowse (PlayerMenu (player s'))])).
  { intros start pets.
    destruct (teach_beast_mastery_spec c s1) as (s2 & Ht & Hb2 & Hnew).
    destruct (browse_branch_sends start pets c action s2) as (s3 & Hbr & Hp3 & Ho3).
    exists s3. rewrite Ht. unfold and_then at 2. rewrite Hbr. unfold and_then.
    split; [reflexivity|].
    destruct (Hbm _ _ Hp3) as (-> & -> & _).
    destruct (Hbm _ _ Hp1) as (Hb1 & _ & Hn1).
    split; [exact Hb2|]. intros Hb. rewrite Hb1 in Hnew.
    destruct (Hnew Hb) as [Hs Ho2]. split; [exact Hs|].
    rewrite Ho3, Ho2, Ho1, Hn1, <- app_assoc. reflexivity. }
  assert (Hdec : (exists pg, decode (host env) action = IBrowseExotic pg) \/
                 (exists pg, decode (host env) action = IBrowseRareExotic pg)).
  { unfold decode. unfold_codes. destruct Ha as [Ha|Ha];
      apply andb_true_iff in Ha as [H1 H2]; decide_comparisons; simpl; eauto. }
  destruct Hdec as [[pg ->]|[pg ->]]; apply Hgen.
Qed.

Lemma exotic_browse_teaches_witness :
  let env := sample_env (sample_conf true true false ∅) in
  let s := sample_sys env [] (sample_player 1 20 false ∅) in
  (opt_Enable (conf env) = true /\
   (IsBrowseExotic 601 = true \/ IsBrowseRareExotic 601 = true)) /\
  has_beast_mastery (player s) = false /\
  exists s',
    GossipSelect env (Some 1) 601 s = Some s' /\
    HasSpell (player s') PET_SPELL_BEAST_MASTERY = true.
Proof.
  intros env s.
  assert (H1 : opt_Enable (conf env) = true) by reflexivity.
  assert (H2 : IsBrowseExotic 601 = true \/ IsBrowseRareExotic 601 = true)
    by (left; reflexivity).
  assert (H3 : has_beast_mastery (player s) = false) by (vm_compute; reflexivity).
  split; [auto|]. split; [exact H3|].
  destruct (exotic_browse_teaches env 1 601 s H1 H2) as (s' & Hs & _ & Hn).
  exists s'. split; [exact Hs | exact (proj1 (Hn H3))].
Defined.

(** ** What the main menu offers *)

(** X9.  What the main menu offers once the gates are passed. The three
    fixed items are always there. The two exotic categories come together:
    the player needs AllowExotic or Beast Mastery (spell or talent), and a
    hunter needs the talent on top unless HunterBeastMasteryRequired is off,
    so AllowExotic alone never opens them to a hunter without the talent.
    "Unlearn" is for non-hunters who know Call Pet, the tracked list needs
    tracking, the stable is for hunters. *)
Theorem main_menu_offers env creature s items :
  let s1 := after_lazy_load env s in
  let p := player s1 in
  let cfg := config (rt s1) in
  let hunter := getClass p =? CLASS_HUNTER (host env) in
  out (ShowMainMenu env creature s) =
    out s1 ++ [SendGossipMenu Gossip.GossipHello items;
               PlayDirectSound PET_BEASTMASTER_HOWL] ->
  has_label "Browse Pets" items = true /\
  has_label "Browse Rare Pets" items = true /\
  has_label "Buy Pet Food" items = true /\
  has_label "Browse Exotic Pets" items =
    (allowExotic cfg || has_beast_mastery p)
    && (negb hunter || negb (hunterBeastMasteryRequired cfg)
        || HasTalent p PET_SPELL_BEAST_MASTERY) /\
  has_label "Browse Rare Exotic Pets" items = has_label "Browse Exotic Pets" items /\
  has_label "Unlearn Hunter Abilities" items =
    negb hunter && HasSpell p PET_SPELL_CALL_PET /\
  has_label "My Tamed Pets" items = trackTamedPets cfg /\
  has_label "Visit Stable" items = hunter.
Proof.
  intros s1 p cfg hunter. subst s1 p cfg hunter.
  unfold ShowMainMenu, after_lazy_load.
  assert (Hlen : forall (l : list Event) e1 e2, l <> l ++ [e1; e2]).
  { intros l e1 e2 H. apply (f_equal length) in H. rewrite length_app in H.
    simpl in H. lia. }
  assert (Htell : forall msg (s0 : Sys) e1 e2,
             out (tell creature msg s0) <> out s0 ++ [SendGossipMenu Gossip.GossipHello e1; e2]).
  { intros msg s0 e1 e2 H. destruct creature; simpl in H;
      apply app_inv_head in H; discriminate. }
  destruct (opt_Enable (conf env)); simpl; [|intros H; now apply Hlen in H].
  set (s1 := if bool_decide (allPets (rt s) = []) then LoadSystem env s else s).
  destruct (bool_decide (allPets (rt s) = []) && bool_decide (allPets (rt s1) = []));
    [intros H; now apply Htell in H|].
  destruct (hunterOnly (config (rt s1)) && _); [intros H; now apply Htell in H|].
  destruct (negb _ && negb (bool_decide (getClass (player s1) ∈ _)));
    [intros H; now apply Htell in H|].
  destruct (negb _ && negb (bool_decide (getRace (player s1) ∈ _)));
    [intros H; now apply Htell in H|].
  destruct ((GetLevel (player s1) <? _) && _); [intros H; now apply Htell in H|].
  destruct (negb (maxLevel (config (rt s1)) =? 0) && _);
    [intros H; now apply Htell in H|].
  unfold SendGossipMenuFor, has_beast_mastery. simpl. rewrite <- app_assoc. simpl.
  destruct (allowExotic (config (rt s1)));
    destruct (HasSpell (player s1) PET_SPELL_BEAST_MASTERY);
    destruct (HasTalent (player s1) PET_SPELL_BEAST_MASTERY);
    destruct (getClass (player s1) =? CLASS_HUNTER (host env));
    destruct (hunterBeastMasteryRequired (config (rt s1)));
    destruct (HasSpell (player s1) PET_SPELL_CALL_PET);
    destruct (trackTamedPets (config (rt s1)));
    simpl; intros H; apply app_inv_head in H; injection H as <-;
    repeat split; reflexivity.
Qed.

Lemma main_menu_offers_witness :
  let s := sample_sys tracked_env [] (sample_player 3 20 false ∅) in
  let items := PlayerMenu (player (ShowMainMenu tracked_env (Some 1) s)) in
  out (ShowMainMenu tracked_env (Some 1) s) =
    out (after_lazy_load tracked_env s) ++
    [SendGossipMenu Gossip.GossipHello items; PlayDirectSound PET_BEASTMASTER_HOWL] /\
  has_label "Browse Pets" items = true.
Proof.
  intros s items.
  assert (H : out (ShowMainMenu tracked_env (Some 1) s) =
              out (after_lazy_load tracked_env s) ++
              [SendGossipMenu Gossip.GossipHello items;
               PlayDirectSound PET_BEASTMASTER_HOWL])
    by (vm_compute; reflexivity).
  split; [exact H|].
  exact (proj1 (main_menu_offers tracked_env (Some 1) s items H)).
Defined.

(** ** More on the tracked menu *)

Lemma tracked_loop_slots rows : forall shown m s k,
  0 <= shown ->
  snd (tracked_loop rows shown m s) !! k =
  if (shown <=? k) && (k <? Tracked.PageSize) then
    match rows !! Z.to_nat (k - shown) with
    | Some t => Some t.1.1
    | None => m !! k
    end
  else m !! k.
Proof.
  unfold Tracked.PageSize.
  induction rows as [|[[e nm] d] rows IH]; intros shown m s k Hs.
  - simpl. rewrite ?lookup_nil. now destruct (_ && _).
  - simpl tracked_loop. unfold Tracked.PageSize.
    destruct (shown <? 10) eqn:E10.
    + rewrite IH by lia.
      destruct (Z.eq_dec k shown) as [->|Hne].
      * rewrite (proj2 (Z.leb_gt (shown + 1) shown)) by lia. simpl.
        rewrite lookup_insert_eq, Z.leb_refl, E10, Z.sub_diag. reflexivity.
      * rewrite lookup_insert_ne by congruence.
        destruct (shown + 1 <=? k) eqn:E1.
        -- rewrite (proj2 (Z.leb_le shown k)) by lia. simpl.
           destruct (k <? 10); [|reflexivity].
           replace (Z.to_nat (k - shown)) with (S (Z.to_nat (k - (shown + 1)))) by lia.
           simpl. reflexivity.
        -- rewrite (proj2 (Z.leb_gt shown k)) by lia. reflexivity.
    + simpl. destruct (shown <=? k) eqn:E1; [|reflexivity].
      rewrite (proj2 (Z.ltb_ge k 10)) by lia. reflexivity.
Qed.

(** X14.  After a render of the tracked menu the slot map gives, for each of
    the ten slots of the page, the entry of the tracked pet at that place of
    the list (most recent first), and nothing for a place past the end of
    the list or for any other index. The list is the cached one, or on a
    miss the rows of the table, which are cached from then on. *)
Theorem tracked_menu_slots creature page s s' :
  ShowTrackedPetsMenu creature page s = Some s' ->
  1 <= page -> (page - 1) * Tracked.PageSize < 2 ^ 32 ->
  exists l,
    trackedPetsCache (rt s') !! guid (player s) = Some l /\
    l = default (tracked_rows_of (beastmaster_tamed_pets s) (guid (player s)))
                (trackedPetsCache (rt s) !! guid (player s)) /\
    forall idx,
      slot_entry (player s') idx =
      if (0 <=? idx) && (idx <? Tracked.PageSize) then
        (fun t : TrackedTuple => t.1.1)
          <$> l !! Z.to_nat ((page - 1) * Tracked.PageSize + idx)
      else None.
Proof.
  intros H Hp H32. unfold ShowTrackedPetsMenu in H. simpl in H.
  assert (Hgen : forall s1 l,
             rt s1 = rt s \/
             rt s1 = with_trackedPetsCache
                       (<[guid (player s) := l]> (trackedPetsCache (rt s))) (rt s) ->
             trackedPetsCache (rt s1) !! guid (player s) = Some l ->
             (let '(s2, m) :=
                tracked_loop (drop (Z.to_nat (wrap32 ((page - 1) * Tracked.PageSize))) l)
                             0 ∅ s1 in
              Some (SendGossipMenuFor Gossip.GossipBrowse
                      (CustomData_Set "BeastmasterMenuPetMap" (BeastmasterPetMap m) s2)))
             = Some s' ->
             trackedPetsCache (rt s') !! guid (player s) = Some l /\
             forall idx,
               slot_entry (player s') idx =
               if (0 <=? idx) && (idx <? Tracked.PageSize) then
                 (fun t : TrackedTuple => t.1.1)
                   <$> l !! Z.to_nat ((page - 1) * Tracked.PageSize + idx)
               else None).
  { intros s1 l _ Hc Hs.
    pose proof (tracked_loop_frame
                  (drop (Z.to_nat (wrap32 ((page - 1) * Tracked.PageSize))) l) 0 ∅ s1) as Hf.
    pose proof (fun k => tracked_loop_slots
                  (drop (Z.to_nat (wrap32 ((page - 1) * Tracked.PageSize))) l) 0 ∅ s1 k
                  ltac:(lia)) as Hk.
    destruct (tracked_loop _ 0 ∅ s1) as [s2 m]. simpl in Hf, Hk.
    injection Hs as <-. simpl.
    assert (E2 : rt s2 = rt s1) by (apply (f_equal rt) in Hf; exact Hf).
    rewrite E2. split; [exact Hc|]. intros idx.
    unfold slot_entry, Get_PetMap. simpl. rewrite lookup_insert_eq, Hk.
    rewrite wrap32_small by (unfold Tracked.PageSize in *; lia).
    destruct ((0 <=? idx) && (idx <? Tracked.PageSize)) eqn:E; [|apply lookup_empty].
    rewrite lookup_drop, Z.sub_0_r.
    replace (Z.to_nat ((page - 1) * Tracked.PageSize) + Z.to_nat idx)%nat
      with (Z.to_nat ((page - 1) * Tracked.PageSize + idx))
      by (unfold Tracked.PageSize in *; lia).
    match goal with |- match ?x with _ => _ end = _ <$> ?y =>
      change y with x; destruct x end; [reflexivity | apply lookup_empty]. }
  destruct (trackedPetsCache (rt s) !! guid (player s)) as [l|] eqn:Hc.
  - exists l.
    destruct (Hgen (ClearGossipMenuFor s) l (or_introl eq_refl) Hc H) as [H1 H2]. auto.
  - destruct (trackTamedPets (config (rt s))); [|discriminate].
    eexists. match type of H with context [tracked_loop (drop _ ?l0) 0 ∅ ?s1] =>
      destruct (Hgen s1 l0 (or_intror eq_refl)
                     ltac:(simpl; apply lookup_insert_eq) H) as [H1 H2] end.
    split; [exact H1|]. split; [reflexivity | exact H2].
Qed.

Lemma tracked_menu_slots_witness :
  let s := sample_sys tracked_env many_tamed (sample_player 3 20 false ∅) in
  (ShowTrackedPetsMenu (Some 1) 3 s = Some on_page_three /\
   1 <= 3 /\ (3 - 1) * Tracked.PageSize < 2 ^ 32) /\
  slot_entry (player on_page_three) 0 = Some 101 /\
  slot_entry (player on_page_three) 1 = None.
Proof.
  intros s.
  assert (H1 : ShowTrackedPetsMenu (Some 1) 3 s = Some on_page_three)
    by (vm_compute; reflexivity).
  assert (H2 : 1 <= 3) by lia.
  assert (H3 : (3 - 1) * Tracked.PageSize < 2 ^ 32) by (vm_compute; reflexivity).
  split; [auto|].
  destruct (tracked_menu_slots (Some 1) 3 s on_page_three H1 H2 H3) as (l & _ & Hl & Hs).
  assert (El : l = tracked_rows_of many_tamed 7) by (rewrite Hl; vm_compute; reflexivity).
  split; rewrite Hs, El; vm_compute; reflexivity.
Defined.

(** ** The slot branches of the tracked menu *)

(** X15.  Choosing "Rename" on a slot of the tracked menu arms the rename
    for the entry of that slot, replacing whatever was pending, and leaves
    the slot map and the table alone; a cancel command that follows erases
    the two keys again. *)
Theorem tracked_rename_arms creature idx s e :
  slot_entry (player s) idx = Some e ->
  exists s',
    tracked_rename creature idx s = Some s' /\
    rename_flag (player s') = Some true /\
    rename_target (player s') = Some e /\
    slot_map (player s') = slot_map (player s) /\
    beastmaster_tamed_pets s' = beastmaster_tamed_pets s /\
    last (out s') = Some CloseGossipMenu /\
    CustomData (player (HandlePetnameCancelCommand s')) =
      delete "BeastmasterRenamePetEntry"
             (delete "BeastmasterExpectRename" (CustomData (player s))).
Proof.
  intros Hslot. unfold tracked_rename. rewrite Hslot.
  eexists. split; [reflexivity|].
  assert (Hd : forall s0 : Sys,
             CustomData (player (match creature with
                                 | Some _ => emit (Whisper "To rename your pet, type: .petname rename <newname> in chat. To cancel, type: .petname cancel") s0
                                 | None => s0 end)) = CustomData (player s0))
    by (intros; destruct creature; reflexivity).
  assert (Ht : forall s0 : Sys,
             beastmaster_tamed_pets (match creature with
                                 | Some _ => emit (Whisper "To rename your pet, type: .petname rename <newname> in chat. To cancel, type: .petname cancel") s0
                                 | None => s0 end) = beastmaster_tamed_pets s0)
    by (intros; destruct creature; reflexivity).
  unfold rename_flag, rename_target, slot_map, HandlePetnameCancelCommand,
    Get_Bool, Get_UInt32, Get_PetMap.
  cbn [CloseGossipMenuFor emit player beastmaster_tamed_pets out].
  rewrite !Hd, Ht. cbn. map_lookup. cbn. rewrite !Hd. cbn.
  repeat split.
  - apply last_snoc.
  - apply map_eq; intros k.
    destruct (decide (k = "BeastmasterRenamePetEntry")) as [->|H1];
      [map_lookup; reflexivity|].
    destruct (decide (k = "BeastmasterExpectRename")) as [->|H2].
    + rewrite !(lookup_delete_ne _ "BeastmasterRenamePetEntry") by discriminate.
      now rewrite !lookup_delete_eq.
    + rewrite !lookup_delete_ne by congruence.
      now rewrite !lookup_insert_ne by congruence.
Qed.

Lemma tracked_rename_arms_witness :
  slot_entry (player two_listed) 1 = Some 99 /\
  exists s',
    tracked_rename (Some 1) 1 two_listed = Some s' /\
    rename_flag (player s') = Some true /\
    rename_target (player s') = Some 99.
Proof.
  assert (H : slot_entry (player two_listed) 1 = Some 99) by (vm_compute; reflexivity).
  split; [exact H|].
  destruct (tracked_rename_arms (Some 1) 1 two_listed 99 H) as (s' & E & F & T & _).
  exists s'. auto.
Defined.

(** X16.  Summoning from the tracked menu, for a player without a pet and an
    entry the server has a template of: the entry of the slot is
    instantiated with the Call Pet spell at full happiness, under the name
    of the tracked row (the template's name when no row is left), and
    nothing but the player's pet and the messages change. *)
Theorem tracked_summon_spec env c idx s e nm :
  slot_entry (player s) idx = Some e ->
  IsExistPet (player s) = false ->
  creature_template env !! e = Some nm ->
  exists s' petName,
    tracked_summon env (Some c) idx s = Some s' /\
    GetPet (player s') = Some (mkPet e petName PET_SPELL_CALL_PET PET_MAX_HAPPINESS) /\
    IsExistPet (player s') = true /\
    (unique_rows (beastmaster_tamed_pets s) ->
     forall r, r ∈ beastmaster_tamed_pets s ->
               owner_guid r = guid (player s) -> tamed_entry r = e ->
               petName = tamed_name r) /\
    (count_pair (beastmaster_tamed_pets s) (guid (player s)) e = 0%nat ->
     petName = nm) /\
    beastmaster_tamed_pets s' = beastmaster_tamed_pets s /\
    rt s' = rt s /\
    CustomData (player s') = CustomData (player s) /\
    spells (player s') = spells (player s) /\
    out s' = out s ++ [Whisper "Your tracked pet has been summoned!"; CloseGossipMenu].
Proof.
  intros Hslot Hex Htpl. unfold tracked_summon, Player_CreatePet.
  rewrite Hslot, Hex, Htpl.
  eexists. eexists. split; [reflexivity|]. simpl. rewrite <- app_assoc.
  split; [reflexivity|]. split; [reflexivity|].
  unfold count_pair, unique_rows. repeat split.
  - intros Hu r Hin Ho He. specialize (Hu (guid (player s)) e).
    unfold count_pair in Hu.
    assert (Hr : r ∈ filter (fun r0 => owner_guid r0 = guid (player s) /\ tamed_entry r0 = e)
                            (beastmaster_tamed_pets s))
      by (apply list_elem_of_filter; auto).
    destruct (filter _ (beastmaster_tamed_pets s)) as [|x [|y l]];
      [inversion Hr | | simpl in Hu; lia].
    apply list_elem_of_singleton in Hr. now subst.
  - intros Hz. destruct (filter _ (beastmaster_tamed_pets s)); [reflexivity|].
    simpl in Hz. lia.
Qed.

Lemma tracked_summon_spec_witness :
  (slot_entry (player two_listed) 0 = Some 5000 /\
   IsExistPet (player two_listed) = false /\
   creature_template tracked_env !! 5000 = Some "Devilsaur") /\
  exists s' petName,
    tracked_summon tracked_env (Some 1) 0 two_listed = Some s' /\
    GetPet (player s') =
      Some (mkPet 5000 petName PET_SPELL_CALL_PET PET_MAX_HAPPINESS).
Proof.
  assert (H1 : slot_entry (player two_listed) 0 = Some 5000) by (vm_compute; reflexivity).
  assert (H2 : IsExistPet (player two_listed) = false) by (vm_compute; reflexivity).
  assert (H3 : creature_template tracked_env !! 5000 = Some "Devilsaur")
    by (vm_compute; reflexivity).
  split; [auto|].
  destruct (tracked_summon_spec tracked_env 1 0 two_listed 5000 "Devilsaur" H1 H2 H3)
    as (s' & petName & E & P & _).
  exists s', petName. auto.
Defined.

(** X17.  A summon that the server cannot carry out changes nothing but the
    messages: the player who still has a pet is told to abandon or stable
    it, and a slot whose entry has no creature template gives "Failed to
    summon pet.". *)
Theorem tracked_summon_refused env c idx s e :
  slot_entry (player s) idx = Some e ->
  IsExistPet (player s) = true \/ creature_template env !! e = None ->
  exists s',
    tracked_summon env (Some c) idx s = Some s' /\
    player s' = player s /\
    beastmaster_tamed_pets s' = beastmaster_tamed_pets s /\
    rt s' = rt s /\
    out s' = out s ++
      [Whisper (if IsExistPet (player s)
                then "First you must abandon or stable your current pet!"
                else "Failed to summon pet.");
       CloseGossipMenu].
Proof.
  intros Hslot Hwhy. unfold tracked_summon, Player_CreatePet. rewrite Hslot.
  destruct (IsExistPet (player s)) eqn:Hex.
  - eexists. split; [reflexivity|]. simpl. now rewrite <- app_assoc.
  - destruct Hwhy as [?|Hn]; [discriminate|]. rewrite Hn.
    eexists. split; [reflexivity|]. simpl. now rewrite <- app_assoc.
Qed.

Lemma tracked_summon_refused_witness :
  let s := sample_sys tracked_env two_tamed
             (sample_player 3 20 true
                {["BeastmasterMenuPetMap" := BeastmasterPetMap {[0 := 5000]}]}) in
  (slot_entry (player s) 0 = Some 5000 /\
   (IsExistPet (player s) = true \/ creature_template tracked_env !! 5000 = None)) /\
  exists s', tracked_summon tracked_env (Some 1) 0 s = Some s' /\ player s' = player s.
Proof.
  intros s.
  assert (H1 : slot_entry (player s) 0 = Some 5000) by (vm_compute; reflexivity).
  assert (H2 : IsExistPet (player s) = true \/ creature_template tracked_env !! 5000 = None)
    by (left; reflexivity).
  split; [auto|].
  destruct (tracked_summon_refused tracked_env 1 0 s 5000 H1 H2) as (s' & E & P & _).
  exists s'. auto.
Defined.

(** X12.  A click on a summon, rename or delete item whose slot the player's
    slot map does not hold (the map is gone, or the menu was rendered anew
    with fewer rows) does nothing beyond clearing the menu under
    construction. *)
Theorem stale_slot_is_inert env creature action s :
  opt_Enable (conf env) = true ->
  Tracked.SummonBase <= action < Tracked.DeleteBase + 1000 ->
  action <> GOSSIP_OPTION_STABLEPET (host env) ->
  action <> GOSSIP_OPTION_VENDOR (host env) ->
  slot_entry (player s) (action mod 1000) = None ->
  GossipSelect env creature action s =
    Some (ClearGossipMenuFor
            (if bool_decide (allPets (rt s) = []) then LoadSystem env s else s)).
Proof.
  intros Hen Hr Hst Hv Hslot. unfold GossipSelect. rewrite Hen. simpl.
  set (s1 := ClearGossipMenuFor _).
  assert (Hs1 : forall i, slot_entry (player s1) i = slot_entry (player s) i).
  { intros i. unfold s1. destruct (bool_decide _); reflexivity. }
  assert (Hd : decode (host env) action = ITrackedSummon (action mod 1000) \/
               decode (host env) action = ITrackedRename (action mod 1000) \/
               decode (host env) action = ITrackedDelete (action mod 1000)).
  { unfold decode.
    rewrite (proj2 (Z.eqb_neq _ _) Hst), (proj2 (Z.eqb_neq _ _) Hv).
    unfold_codes.
    destruct (Z_lt_le_dec action 3000); [|destruct (Z_lt_le_dec action 4000)].
    - left.
      decide_comparisons.
      simpl. rewrite wrap32_small by lia. f_equal.
      Z.div_mod_to_equations. lia.
    - right; left.
      decide_comparisons.
      simpl. rewrite wrap32_small by lia. f_equal.
      Z.div_mod_to_equations. lia.
    - right; right.
      decide_comparisons.
      simpl. rewrite wrap32_small by lia. f_equal.
      Z.div_mod_to_equations. lia. }
  destruct Hd as [Hd|[Hd|Hd]]; rewrite Hd;
    unfold tracked_summon, tracked_rename, tracked_delete;
    now rewrite Hs1, Hslot.
Qed.

Lemma stale_slot_is_inert_witness :
  (opt_Enable (conf tracked_env) = true /\
   Tracked.SummonBase <= 4003 < Tracked.DeleteBase + 1000 /\
   4003 <> GOSSIP_OPTION_STABLEPET (host tracked_env) /\
   4003 <> GOSSIP_OPTION_VENDOR (host tracked_env) /\
   slot_entry (player two_listed) (4003 mod 1000) = None) /\
  beastmaster_tamed_pets <$> GossipSelect tracked_env (Some 1) 4003 two_listed =
    Some two_tamed.
Proof.
  assert (H1 : opt_Enable (conf tracked_env) = true) by reflexivity.
  assert (H2 : Tracked.SummonBase <= 4003 < Tracked.DeleteBase + 1000)
    by (unfold Tracked.SummonBase, Tracked.DeleteBase; lia).
  assert (H3 : 4003 <> GOSSIP_OPTION_STABLEPET (host tracked_env))
    by (vm_compute; discriminate).
  assert (H4 : 4003 <> GOSSIP_OPTION_VENDOR (host tracked_env))
    by (vm_compute; discriminate).
  assert (H5 : slot_entry (player two_listed) (4003 mod 1000) = None)
    by (vm_compute; reflexivity).
  split; [auto 10|].
  rewrite (stale_slot_is_inert tracked_env (Some 1) 4003 two_listed H1 H2 H3 H4 H5).
  vm_compute. reflexivity.
Defined.

(** ** Adoption *)

Lemma learn_spells_fold l : forall p,
  foldl (fun p spell => if HasSpell p spell then p
                        else with_spells ({[spell]} ∪ spells p) p) p l
    = with_spells (list_to_set l ∪ spells p) p.
Proof.
  induction l as [|x l IH]; intros p.
  - destruct p. unfold with_spells. simpl. f_equal. set_solver.
  - cbn [foldl]. rewrite IH. unfold HasSpell.
    destruct (bool_decide (x ∈ spells p)) eqn:Hx.
    + apply bool_decide_eq_true in Hx. destruct p. unfold with_spells. simpl in *.
      f_equal. set_solver.
    + destruct p. unfold with_spells. simpl. f_equal. set_solver.
Qed.

Lemma learn_hunter_spells_spec p :
  learn_hunter_spells p = with_spells (list_to_set hunterSpells ∪ spells p) p.
Proof. apply learn_spells_fold. Qed.

Lemma remove_spells_fold l : forall acc : gset Z,
  foldl (fun (acc : gset Z) spell => acc ∖ {[spell]}) acc l = acc ∖ list_to_set l.
Proof.
  induction l as [|x l IH]; intros acc; simpl.
  - set_solver.
  - rewrite IH. set_solver.
Qed.

Lemma skills_round_trip (l : list Z) (bm : Z) (sp : gset Z) :
  (forall x, x ∈ sp -> x ∉ l /\ x <> bm) ->
  ((list_to_set l ∪ sp) ∖ list_to_set l) ∖ {[bm]} = sp.
Proof.
  intros H. apply set_eq. intros x. specialize (H x).
  rewrite !elem_of_difference, elem_of_union, elem_of_list_to_set, elem_of_singleton.
  tauto.
Qed.

(** X18.  "Unlearn Hunter Abilities" takes the eight hunter spells and Beast
    Mastery away and keeps every other spell; on a player who had none of
    the nine it undoes what an adoption taught. *)
Theorem remove_skills_spec s :
  (forall x, x ∈ spells (player (remove_skills s)) <->
             x ∈ spells (player s) /\ x ∉ hunterSpells /\ x <> PET_SPELL_BEAST_MASTERY) /\
  ((forall x, x ∈ spells (player s) ->
              x ∉ hunterSpells /\ x <> PET_SPELL_BEAST_MASTERY) ->
   spells (player (remove_skills (with_player (learn_hunter_spells (player s)) s)))
     = spells (player s)) /\
  GetPet (player (remove_skills s)) = GetPet (player s) /\
  beastmaster_tamed_pets (remove_skills s) = beastmaster_tamed_pets s /\
  out (remove_skills s) = out s ++ [CloseGossipMenu].
Proof.
  unfold remove_skills.
  cbn [player with_player with_spells spells GetPet CloseGossipMenuFor emit
       beastmaster_tamed_pets out].
  rewrite !remove_spells_fold.
  rewrite learn_hunter_spells_spec. cbn [spells with_spells].
  split; [|split; [|auto]].
  - intros x.
    rewrite !elem_of_difference, elem_of_list_to_set, elem_of_singleton. tauto.
  - apply skills_round_trip.
Qed.

Lemma remove_skills_spec_witness :
  let s := sample_sys tracked_env []
             (mkPlayer 7 "Rexxar" 1 2 20 false None {[100; 133]} ∅ ∅ []) in
  (forall x, x ∈ spells (player s) ->
             x ∉ hunterSpells /\ x <> PET_SPELL_BEAST_MASTERY) /\
  spells (player (remove_skills (with_player (learn_hunter_spells (player s)) s)))
    = spells (player s).
Proof.
  intros s.
  assert (H : forall x, x ∈ spells (player s) ->
                        x ∉ hunterSpells /\ x <> PET_SPELL_BEAST_MASTERY).
  { intros x Hx. change (spells (player s)) with ({[100; 133]} : gset Z) in Hx.
    unfold hunterSpells, PET_SPELL_BEAST_MASTERY.
    apply elem_of_union in Hx. rewrite !elem_of_singleton in Hx.
    destruct Hx as [-> | ->];
      (split; [|discriminate]); rewrite !elem_of_cons, elem_of_nil; lia. }
  split; [exact H|].
  exact (proj1 (proj2 (remove_skills_spec s)) H).
Defined.

(** X19.  An adoption that passes the gates: the player has no pet, the
    server has a template of the entry, the two exotic restrictions and the
    cap let it through.  The pet of that entry is created at full happiness
    (with Tame Beast for a hunter, Call Pet for the others); with tracking
    on, the table is what [TrackTamedPet] leaves, and when the template's
    name is a plain string the (owner, entry) pair has a row afterwards; a
    non-hunter knows Call Pet afterwards; and the player is
    congratulated. *)
Theorem CreatePet_adopts env c action s nm :
  let petEntry := wrap32 (action - Gossip.PetEntryOffset) in
  let p := player s in
  let cfg := config (rt s) in
  let hunter := getClass p =? CLASS_HUNTER (host env) in
  opt_Enable (conf env) = true ->
  IsExistPet p = false ->
  creature_template env !! petEntry = Some nm ->
  (is_exotic (FindPetInfo s petEntry) = true ->
   if hunter then hunterBeastMasteryRequired cfg = true ->
                  HasTalent p PET_SPELL_BEAST_MASTERY = true
   else allowExotic cfg = true) ->
  (trackTamedPets cfg = true -> 0 < maxTrackedPets cfg ->
   count_tamed (beastmaster_tamed_pets s) (guid p) < maxTrackedPets cfg) ->
  exists s',
    CreatePet env (Some c) action s = Some s' /\
    GetPet (player s') =
      Some (mkPet petEntry nm
                  (if hunter then PET_SPELL_TAME_BEAST else PET_SPELL_CALL_PET)
                  PET_MAX_HAPPINESS) /\
    IsExistPet (player s') = true /\
    beastmaster_tamed_pets s' =
      (if trackTamedPets cfg
       then (BeastmasterDB.TrackTamedPet env p petEntry nm (beastmaster_tamed_pets s)).1
       else beastmaster_tamed_pets s) /\
    (trackTamedPets cfg = true -> sql_plain nm = true ->
     BeastmasterDB.tracked (beastmaster_tamed_pets s') (guid p) petEntry = true) /\
    (hunter = false -> HasSpell (player s') PET_SPELL_CALL_PET = true) /\
    (hunter = true -> spells (player s') = spells p) /\
    CustomData (player s') = CustomData p /\
    out s' = out s ++
      [Whisper ("A fine choice " +:+ player_name p +:+ "! Take good care of your "
                +:+ nm +:+ " and you will never face your enemies alone.");
       CloseGossipMenu].
Proof.
  intros petEntry p cfg hunter Hen Hex Htpl Hexo Hcap.
  unfold CreatePet. rewrite Hen. cbn [negb].
  fold petEntry. fold p. fold cfg. fold hunter. rewrite Hex.
  assert (G1 : is_exotic (FindPetInfo s petEntry) && negb hunter && negb (allowExotic cfg)
               = false).
  { destruct (is_exotic _); [|reflexivity]. specialize (Hexo eq_refl).
    destruct hunter; [reflexivity|]. now rewrite Hexo. }
  assert (G2 : is_exotic (FindPetInfo s petEntry) && hunter
               && hunterBeastMasteryRequired cfg
               && negb (HasTalent p PET_SPELL_BEAST_MASTERY) = false).
  { destruct (is_exotic _); [|reflexivity]. specialize (Hexo eq_refl).
    destruct hunter; [|reflexivity].
    destruct (hunterBeastMasteryRequired cfg); [|reflexivity].
    now rewrite Hexo. }
  assert (G3 : trackTamedPets cfg && (0 <? maxTrackedPets cfg)
               && (maxTrackedPets cfg <=? count_tamed (beastmaster_tamed_pets s) (guid p))
               = false).
  { destruct (trackTamedPets cfg); [|reflexivity].
    destruct (0 <? maxTrackedPets cfg) eqn:Hm; [|reflexivity].
    apply Z.ltb_lt in Hm. specialize (Hcap eq_refl Hm). simpl.
    apply Z.leb_gt. exact Hcap. }
  rewrite G1, G2, G3. unfold Player_CreatePet. rewrite Hex, Htpl.
  set (spell := if hunter then PET_SPELL_TAME_BEAST else PET_SPELL_CALL_PET).
  cbn [pet_name pet_entry pet_created_by].
  set (s1 := with_player (with_pet (mkPet petEntry nm spell 0) p) s).
  set (s2 := if trackTamedPets cfg then _ else s1).
  assert (H2 : player s2 = player s1 /\ out s2 = out s /\
               beastmaster_tamed_pets s2 =
                 (if trackTamedPets cfg
                  then (BeastmasterDB.TrackTamedPet env p petEntry nm
                          (beastmaster_tamed_pets s)).1
                  else beastmaster_tamed_pets s)).
  { unfold s2. destruct (trackTamedPets cfg); [|auto].
    unfold BeastmasterDB.TrackTamedPet.
    change (guid (player s1)) with (guid p).
    change (beastmaster_tamed_pets s1) with (beastmaster_tamed_pets s).
    destruct (BeastmasterDB.tracked (beastmaster_tamed_pets s) (guid p) petEntry); auto. }
  destruct H2 as (Hp2 & Ho2 & Ht2).
  set (pet := mkPet petEntry nm spell PET_MAX_HAPPINESS).
  set (s3 := with_player (with_pet pet (player s2)) s2).
  set (s4 := if negb hunter && negb (HasSpell (player s3) PET_SPELL_CALL_PET)
             then with_player (learn_hunter_spells (player s3)) s3 else s3).
  assert (H3 : GetPet (player s3) = Some pet /\ IsExistPet (player s3) = true /\
               spells (player s3) = spells p /\ CustomData (player s3) = CustomData p).
  { unfold s3. cbn [player with_player with_pet GetPet IsExistPet spells CustomData].
    rewrite Hp2. auto. }
  destruct H3 as (Hg3 & He3 & Hs3 & Hc3).
  assert (H4 : GetPet (player s4) = Some pet /\ IsExistPet (player s4) = true /\
               CustomData (player s4) = CustomData p /\
               beastmaster_tamed_pets s4 = beastmaster_tamed_pets s2 /\
               out s4 = out s /\
               (hunter = false -> HasSpell (player s4) PET_SPELL_CALL_PET = true) /\
               (hunter = true -> spells (player s4) = spells p)).
  { unfold s4. destruct hunter; cbn [negb andb].
    - repeat split; auto; discriminate.
    - destruct (HasSpell (player s3) PET_SPELL_CALL_PET) eqn:Hh; cbn [negb].
      + repeat split; auto; discriminate.
      + rewrite learn_hunter_spells_spec.
        cbn [player with_player with_spells beastmaster_tamed_pets out GetPet
             IsExistPet CustomData].
        repeat split; auto; try discriminate.
        intros _. unfold HasSpell. apply bool_decide_eq_true.
        cbn [spells]. apply elem_of_union_l, elem_of_list_to_set.
        unfold hunterSpells, PET_SPELL_CALL_PET. apply list_elem_of_here. }
  destruct H4 as (Hg4 & He4 & Hc4 & Ht4 & Ho4 & Hn4 & Hh4).
  exists (CloseGossipMenuFor
            (emit (Whisper ("A fine choice " +:+ player_name p
                            +:+ "! Take good care of your "
                            +:+ nm +:+ " and you will never face your enemies alone."))
                  s4)).
  split; [reflexivity|].
  cbn [CloseGossipMenuFor emit player beastmaster_tamed_pets out].
  rewrite Hg4, He4, Hc4, Ht4, Ho4, Ht2, <- app_assoc.
  repeat split; auto.
  intros Htr Hplain. rewrite Htr. unfold BeastmasterDB.TrackTamedPet, Execute_pasted.
  rewrite Hplain.
  destruct (BeastmasterDB.tracked (beastmaster_tamed_pets s) (guid p) petEntry) eqn:Hk;
    [exact Hk|].
  cbn [fst]. unfold BeastmasterDB.tracked. rewrite existsb_app. simpl.
  rewrite !Z.eqb_refl. simpl. apply orb_true_r.
Qed.

Lemma CreatePet_adopts_witness :
  let s := sample_sys tracked_env [] (sample_player 1 20 false ∅) in
  (opt_Enable (conf tracked_env) = true /\
   IsExistPet (player s) = false /\
   creature_template tracked_env !! wrap32 (1000 - Gossip.PetEntryOffset) = Some "Wolf") /\
  exists s',
    CreatePet tracked_env (Some 1) 1000 s = Some s' /\
    GetPet (player s') =
      Some (mkPet (wrap32 (1000 - Gossip.PetEntryOffset)) "Wolf"
              (if getClass (player s) =? CLASS_HUNTER (host tracked_env)
               then PET_SPELL_TAME_BEAST else PET_SPELL_CALL_PET)
              PET_MAX_HAPPINESS).
Proof.
  intros s.
  assert (H1 : opt_Enable (conf tracked_env) = true) by reflexivity.
  assert (H2 : IsExistPet (player s) = false) by reflexivity.
  assert (H3 : creature_template tracked_env !! wrap32 (1000 - Gossip.PetEntryOffset)
               = Some "Wolf") by (vm_compute; reflexivity).
  assert (E : is_exotic (FindPetInfo s (wrap32 (1000 - Gossip.PetEntryOffset))) = false)
    by (vm_compute; reflexivity).
  assert (H4 : is_exotic (FindPetInfo s (wrap32 (1000 - Gossip.PetEntryOffset))) = true ->
               if getClass (player s) =? CLASS_HUNTER (host tracked_env)
               then hunterBeastMasteryRequired (config (rt s)) = true ->
                    HasTalent (player s) PET_SPELL_BEAST_MASTERY = true
               else allowExotic (config (rt s)) = true)
    by (intros H; exfalso; revert H; rewrite E; discriminate).
  assert (H5 : trackTamedPets (config (rt s)) = true ->
               0 < maxTrackedPets (config (rt s)) ->
               count_tamed (beastmaster_tamed_pets s) (guid (player s))
               < maxTrackedPets (config (rt s)))
    by (intros _ _; vm_compute; reflexivity).
  split; [auto|].
  destruct (CreatePet_adopts tracked_env 1 1000 s "Wolf" H1 H2 H3 H4 H5)
    as (s' & Hc & Hp & _).
  exists s'. split; [exact Hc|exact Hp].
Defined.

(** X20.  No exotic pet without the licence: when an adoption of an entry
    that the catalogue marks exotic changes the player's pet, the player is
    a hunter (with the Beast Mastery talent where the option requires it) or
    the option AllowExotic is on. *)
Theorem CreatePet_exotic_gate env creature action s s' :
  CreatePet env creature action s = Some s' ->
  is_exotic (FindPetInfo s (wrap32 (action - Gossip.PetEntryOffset))) = true ->
  GetPet (player s') <> GetPet (player s) ->
  if getClass (player s) =? CLASS_HUNTER (host env)
  then hunterBeastMasteryRequired (config (rt s)) = true ->
       HasTalent (player s) PET_SPELL_BEAST_MASTERY = true
  else allowExotic (config (rt s)) = true.
Proof.
  intros H Hexo Hchg. unfold CreatePet in H. rewrite Hexo in H.
  assert (Hr : forall msg, whisper_close creature msg s = Some s' -> False).
  { unfold whisper_close, whisper. intros msg Hm. destruct creature; [|discriminate].
    simpl in Hm. injection Hm as <-. now apply Hchg. }
  destruct (negb (opt_Enable (conf env))).
  { injection H as <-. now destruct Hchg. }
  destruct (IsExistPet (player s)); [now apply Hr in H|].
  destruct (getClass (player s) =? CLASS_HUNTER (host env)); cbn [andb negb] in H.
  - intros Hreq. rewrite Hreq in H. cbn [andb] in H.
    destruct (HasTalent (player s) PET_SPELL_BEAST_MASTERY); [reflexivity|].
    now apply Hr in H.
  - destruct (allowExotic (config (rt s))); [reflexivity|]. now apply Hr in H.
Qed.

Lemma CreatePet_exotic_gate_witness :
  let p := mkPlayer 7 "Rexxar" 3 2 20 false None ∅ {[PET_SPELL_BEAST_MASTERY]} ∅ [] in
  let s := sample_sys tracked_env [] p in
  let s' := default s (CreatePet tracked_env (Some 1) 5901 s) in
  (CreatePet tracked_env (Some 1) 5901 s = Some s' /\
   is_exotic (FindPetInfo s (wrap32 (5901 - Gossip.PetEntryOffset))) = true /\
   GetPet (player s') <> GetPet (player s)) /\
  (hunterBeastMasteryRequired (config (rt s)) = true ->
   HasTalent (player s) PET_SPELL_BEAST_MASTERY = true).
Proof.
  intros p s s'.
  assert (H1 : CreatePet tracked_env (Some 1) 5901 s = Some s')
    by (vm_compute; reflexivity).
  assert (H2 : is_exotic (FindPetInfo s (wrap32 (5901 - Gossip.PetEntryOffset))) = true)
    by (vm_compute; reflexivity).
  assert (H3 : GetPet (player s') <> GetPet (player s)) by (vm_compute; discriminate).
  split; [auto|].
  exact (CreatePet_exotic_gate tracked_env (Some 1) 5901 s s' H1 H2 H3).
Defined.

(** ** The tamed-entry cache *)

Lemma pets_loop_rt_table tamed page pets : forall count s,
  rt (pets_loop tamed page pets count s) = rt s /\
  beastmaster_tamed_pets (pets_loop tamed page pets count s) = beastmaster_tamed_pets s.
Proof.
  induction pets as [|pet rest IH]; intros count s; simpl; [auto|].
  destruct (IH (wrap32 (count + 1))
               (if (wrap32 ((page - 1) * Gossip.PageSize) <? count)
                   && (count <=? wrap32 (page * Gossip.PageSize))
                then if bool_decide (entry pet ∈ tamed)
                     then AddGossipItemFor GOSSIP_ICON_CHAT
                            (name pet +:+ " (Already Tamed)") 0 s
                     else AddGossipItemFor (icon pet) (name pet)
                            (wrap32 (entry pet + Gossip.PetEntryOffset)) s
                else s)) as [H1 H2].
  rewrite H1, H2. repeat case_match; auto.
Qed.

Lemma tamed_entries_of_app tbl r g :
  tamed_entries_of (tbl ++ [r]) g =
  if bool_decide (owner_guid r = g) then {[tamed_entry r]} ∪ tamed_entries_of tbl g
  else tamed_entries_of tbl g.
Proof.
  unfold tamed_entries_of. rewrite filter_app, fmap_app, list_to_set_app_L.
  rewrite filter_cons, filter_nil.
  destruct (decide (owner_guid r = g)) as [Hg|Hg].
  - rewrite (bool_decide_eq_true_2 _ Hg). simpl. set_solver.
  - rewrite (bool_decide_eq_false_2 _ Hg). simpl. set_solver.
Qed.

Lemma tamed_entries_of_delete tbl g e g' :
  tamed_entries_of (delete_tamed tbl g e) g' =
  if bool_decide (g' = g) then tamed_entries_of tbl g ∖ {[e]}
  else tamed_entries_of tbl g'.
Proof.
  unfold tamed_entries_of, delete_tamed. apply set_eq. intros x.
  destruct (bool_decide (g' = g)) eqn:Hg.
  - apply bool_decide_eq_true in Hg. subst g'.
    rewrite elem_of_difference, !elem_of_list_to_set, !list_elem_of_fmap.
    setoid_rewrite list_elem_of_filter. setoid_rewrite list_elem_of_filter.
    rewrite elem_of_singleton. split.
    + intros (r & -> & Ho & Hn & Hin). split; [eauto|]. intros He. apply Hn. auto.
    + intros ((r & -> & Ho & Hin) & Hne). exists r. repeat split; auto.
      intros [_ He]. auto.
  - apply bool_decide_eq_false in Hg.
    rewrite !elem_of_list_to_set, !list_elem_of_fmap.
    setoid_rewrite list_elem_of_filter. setoid_rewrite list_elem_of_filter.
    split.
    + intros (r & -> & Ho & Hn & Hin). eauto.
    + intros (r & -> & Ho & Hin). exists r. repeat split; auto.
      intros [Ho' _]. congruence.
Qed.

(** What an adoption does to the table and the runtime: nothing, or the
    INSERT of a row of the player, with the template's name pasted in,
    together with the entry added to the player's cached set. *)
Lemma CreatePet_effect env creature action s s' :
  CreatePet env creature action s = Some s' ->
  (rt s' = rt s /\ beastmaster_tamed_pets s' = beastmaster_tamed_pets s) \/
  (exists nm,
     creature_template env !! wrap32 (action - Gossip.PetEntryOffset) = Some nm /\
     beastmaster_tamed_pets s' =
       Execute_pasted env nm
         (BeastmasterDB.insert_text (guid (player s))
            (wrap32 (action - Gossip.PetEntryOffset)) nm)
         (fun t => t ++ [mkTamedRow (guid (player s))
                           (wrap32 (action - Gossip.PetEntryOffset)) nm (now env)])
         (beastmaster_tamed_pets s) /\
     rt s' = with_tamedEntriesCache
               (<[guid (player s) :=
                    {[wrap32 (action - Gossip.PetEntryOffset)]} ∪
                    default ∅ (tamedEntriesCache (rt s) !! guid (player s))]>
                  (tamedEntriesCache (rt s))) (rt s)).
Proof.
  intros H. unfold CreatePet, Player_CreatePet in H.
  assert (Hr : forall msg, whisper_close creature msg s = Some s' ->
                           rt s' = rt s /\
                           beastmaster_tamed_pets s' = beastmaster_tamed_pets s).
  { unfold whisper_close, whisper. intros msg Hm. destruct creature; [|discriminate].
    simpl in Hm. injection Hm as <-. auto. }
  destruct (negb (opt_Enable (conf env))); [injection H as <-; auto|].
  destruct (IsExistPet (player s)); [left; eapply Hr, H|].
  destruct (_ && _ && negb (allowExotic _)); [left; eapply Hr, H|].
  destruct (_ && _ && _ && negb (HasTalent _ _)); [left; eapply Hr, H|].
  destruct (_ && _ && (_ <=? _)); [left; eapply Hr, H|].
  destruct (creature_template env !! _) as [nm|] eqn:Htpl.
  2:{ left. unfold whisper in H. destruct creature; [|discriminate].
      injection H as <-. auto. }
  unfold whisper_close, whisper in H. destruct creature; [|discriminate].
  cbn [fmap option_fmap option_map] in H. injection H as <-.
  cbn [CloseGossipMenuFor emit rt beastmaster_tamed_pets].
  match goal with
  | |- context [if ?b then with_player (learn_hunter_spells ?q) ?x else ?y] =>
      assert (Hl : rt (if b then with_player (learn_hunter_spells q) x else y) = rt x /\
                   beastmaster_tamed_pets
                     (if b then with_player (learn_hunter_spells q) x else y)
                   = beastmaster_tamed_pets x)
        by (destruct b; auto);
      destruct Hl as [Hl1 Hl2]; rewrite Hl1, Hl2
  end.
  cbn [with_player rt beastmaster_tamed_pets].
  destruct (trackTamedPets (config (rt s))); [|auto].
  unfold BeastmasterDB.TrackTamedPet.
  cbn [player with_player with_pet guid beastmaster_tamed_pets].
  destruct (BeastmasterDB.tracked _ _ _); [auto|].
  right. exists nm. repeat split.
Qed.

Ltac cache_cbn :=
  cbn [rt with_rt with_table with_player with_tamedEntriesCache
       with_trackedPetsCache with_CustomData tamedEntriesCache
       beastmaster_tamed_pets player guid config emit ClearTrackedPetsCache
       CustomData_Erase default].

(** X21.  The cached tamed-entry sets stay in step with the table: browsing
    fills the player's set from the table, a delete from the tracked menu
    takes the entry out of it, and an adoption by a player whose set is
    cached puts the new entry in, provided the name of the template (which
    is pasted into the INSERT) is a plain string. *)
Theorem tamed_cache_preserved env creature action pets page e s :
  tamed_cache_ok s ->
  tamed_cache_ok (AddPetsToGossip pets page s) /\
  (trackTamedPets (config (rt s)) = true ->
   tamedEntriesCache (rt (AddPetsToGossip pets page s)) !! guid (player s) =
     Some (tamed_entries_of (beastmaster_tamed_pets s) (guid (player s))) /\
   tamed_cache_ok (forget_tracked e s)) /\
  (is_Some (tamedEntriesCache (rt s) !! guid (player s)) ->
   (forall nm, creature_template env !! wrap32 (action - Gossip.PetEntryOffset) = Some nm ->
               sql_plain nm = true) ->
   forall s', CreatePet env creature action s = Some s' -> tamed_cache_ok s').
Proof.
  intros Hok. split; [|split].
  - unfold AddPetsToGossip.
    destruct (trackTamedPets (config (rt s))).
    + destruct (tamedEntriesCache (rt s) !! guid (player s)) as [t1|] eqn:Hc.
      * intros g t. destruct (pets_loop_rt_table t1 page pets 1 s) as [-> ->].
        apply Hok.
      * intros g t.
        match goal with
        | |- context [pets_loop ?a ?b ?c ?d ?x] =>
            destruct (pets_loop_rt_table a b c d x) as [-> ->]
        end.
        cache_cbn. intros Hl.
        destruct (decide (g = guid (player s))) as [->|Hg].
        -- rewrite lookup_insert_eq in Hl. congruence.
        -- rewrite lookup_insert_ne in Hl by congruence. now apply Hok.
    + intros g t. destruct (pets_loop_rt_table ∅ page pets 1 s) as [-> ->]. apply Hok.
  - intros Htr. split.
    + unfold AddPetsToGossip. rewrite Htr.
      destruct (tamedEntriesCache (rt s) !! guid (player s)) as [t1|] eqn:Hc.
      * destruct (pets_loop_rt_table t1 page pets 1 s) as [-> _].
        rewrite Hc. f_equal. now apply Hok.
      * match goal with
        | |- context [pets_loop ?a ?b ?c ?d ?x] =>
            destruct (pets_loop_rt_table a b c d x) as [-> _]
        end.
        cache_cbn. now rewrite lookup_insert_eq.
    + unfold forget_tracked. cache_cbn. rewrite Htr.
      intros g t.
      destruct (tamedEntriesCache (rt s) !! guid (player s)) as [t1|] eqn:Hc; cache_cbn.
      * rewrite tamed_entries_of_delete.
        destruct (decide (g = guid (player s))) as [->|Hg].
        -- rewrite lookup_insert_eq, bool_decide_eq_true_2 by reflexivity.
           intros [= <-]. f_equal. now apply Hok.
        -- rewrite lookup_insert_ne, bool_decide_eq_false_2 by congruence.
           apply Hok.
      * rewrite tamed_entries_of_delete.
        destruct (decide (g = guid (player s))) as [->|Hg].
        -- rewrite Hc. discriminate.
        -- rewrite bool_decide_eq_false_2 by congruence. apply Hok.
  - intros [t0 Hc] Hplain s' H. apply CreatePet_effect in H.
    destruct H as [[Hrt Ht]|(nm & Htpl & Ht & Hrt)]; intros g t; rewrite Hrt, Ht.
    + apply Hok.
    + unfold Execute_pasted. rewrite (Hplain nm Htpl).
      cache_cbn. rewrite tamed_entries_of_app. cbn [owner_guid tamed_entry].
      destruct (decide (g = guid (player s))) as [->|Hg].
      * rewrite lookup_insert_eq, bool_decide_eq_true_2 by reflexivity.
        intros [= <-]. rewrite Hc. cache_cbn. f_equal. now apply Hok.
      * rewrite lookup_insert_ne, bool_decide_eq_false_2 by congruence. apply Hok.
Qed.

Lemma tamed_cache_preserved_witness :
  let s := sample_sys tracked_env [mkTamedRow 7 99 "Wolf" 5]
             (sample_player 3 20 false ∅) in
  let s1 := AddPetsToGossip (normalPets (rt s)) 1 s in
  let s2 := default s1 (CreatePet tracked_env (Some 1) 1002 s1) in
  tamed_cache_ok s /\
  tamed_cache_ok s1 /\
  tamedEntriesCache (rt s1) !! guid (player s) =
    Some (tamed_entries_of (beastmaster_tamed_pets s) (guid (player s))) /\
  beastmaster_tamed_pets s2 = [mkTamedRow 7 99 "Wolf" 5; mkTamedRow 7 101 "Boar" 1000] /\
  tamed_cache_ok s2.
Proof.
  intros s s1 s2.
  assert (E : tamedEntriesCache (rt s) = ∅) by (vm_compute; reflexivity).
  assert (H : tamed_cache_ok s).
  { intros g t Hl. rewrite E, lookup_empty in Hl. discriminate. }
  split; [exact H|].
  destruct (tamed_cache_preserved tracked_env (Some 1) 0 (normalPets (rt s)) 1 0 s H)
    as (H1 & H2 & _).
  destruct (H2 eq_refl) as [H3 _].
  split; [exact H1|]. split; [exact H3|].
  split; [vm_compute; reflexivity|].
  assert (Hadopt : CreatePet tracked_env (Some 1) 1002 s1 = Some s2)
    by (vm_compute; reflexivity).
  assert (Hname : creature_template tracked_env !! wrap32 (1002 - Gossip.PetEntryOffset)
                  = Some "Boar") by (vm_compute; reflexivity).
  assert (Hg : guid (player s1) = guid (player s)) by (vm_compute; reflexivity).
  assert (Hcached : is_Some (tamedEntriesCache (rt s1) !! guid (player s1)))
    by (rewrite Hg; unfold s1; rewrite H3; eauto).
  refine (proj2 (proj2 (tamed_cache_preserved tracked_env (Some 1) 1002 [] 1 0 s1 H1))
            Hcached _ s2 Hadopt).
  intros nm Hn. rewrite Hname in Hn. injection Hn as <-. reflexivity.
Defined.

(** ** The summon command and its cooldown *)

(** X22.  After a call of the summon command that was served at [t0] (also
    one whose summon failed), a call of the same player before [t0 +
    cooldown] is refused with the seconds that remain and changes nothing; a
    call from [t0 + cooldown] on is served and restarts the cooldown. The
    times of the other players are never touched. *)
Theorem summon_cooldown cooldown t0 t1 b0 b1 p m :
  (HandleBeastmasterCommand cooldown t0 b0 p m).1 !! guid p = Some t0 ->
  let m0 := (HandleBeastmasterCommand cooldown t0 b0 p m).1 in
  let r1 := HandleBeastmasterCommand cooldown t1 b1 p m0 in
  (t1 - t0 < cooldown ->
   r1 = (m0, SysMessage ("You must wait " +:+ pretty (cooldown - (t1 - t0))
                         +:+ " seconds before summoning the Beastmaster again."))) /\
  (cooldown <= t1 - t0 ->
   r1.1 !! guid p = Some t1 /\
   r1.2 = SysMessage (if b1
                      then "The Beastmaster has arrived and will remain for 2 minutes."
                      else "Failed to summon the Beastmaster. Please contact an admin.")) /\
  (forall q, guid q <> guid p -> r1.1 !! guid q = m !! guid q).
Proof.
  intros H0 m0 r1. subst r1.
  assert (Hm0 : forall q, guid q <> guid p -> m0 !! guid q = m !! guid q).
  { intros q Hq. unfold m0, HandleBeastmasterCommand.
    destruct (m !! guid p) as [last|]; [destruct (t0 - last <? cooldown)|]; cbn;
      rewrite ?lookup_insert_ne by congruence; reflexivity. }
  fold m0 in H0. clearbody m0. unfold HandleBeastmasterCommand. rewrite H0.
  split; [|split].
  - intros Hlt. apply Z.ltb_lt in Hlt. now rewrite Hlt.
  - intros Hge. apply Z.ltb_ge in Hge. rewrite Hge. cbn.
    rewrite lookup_insert_eq. now destruct b1.
  - intros q Hq. destruct (t1 - t0 <? cooldown); cbn;
      rewrite ?lookup_insert_ne by congruence; auto.
Qed.

Lemma summon_cooldown_witness :
  let p := sample_player 3 20 false ∅ in
  let m0 := (HandleBeastmasterCommand 120 1000 true p ∅).1 in
  m0 !! guid p = Some 1000 /\
  HandleBeastmasterCommand 120 1090 true p m0 =
    (m0, SysMessage ("You must wait " +:+ pretty (120 - (1090 - 1000))
                     +:+ " seconds before summoning the Beastmaster again.")) /\
  (HandleBeastmasterCommand 120 1120 false p m0).1 !! guid p = Some 1120.
Proof.
  intros p m0.
  assert (H : (HandleBeastmasterCommand 120 1000 true p ∅).1 !! guid p = Some 1000)
    by (vm_compute; reflexivity).
  split; [exact H|]. split.
  - apply (proj1 (summon_cooldown 120 1000 1090 true true p ∅ H)). lia.
  - apply (proj1 (proj2 (summon_cooldown 120 1000 1120 true false p ∅ H))). lia.
Defined.

(** ** Trimming *)

Lemma erase_front_spaces_fix t :
  from_option isspace false (str_front t) = false -> erase_front_spaces t = t.
Proof. destruct t as [|c t]; simpl; [reflexivity|]. now intros ->. Qed.

Lemma pop_back_spaces_fix n t :
  from_option isspace false (str_back t) = false -> pop_back_spaces n t = t.
Proof.
  destruct n; [reflexivity|]. cbn [pop_back_spaces].
  destruct (str_back t); simpl; [now intros ->|reflexivity].
Qed.

Lemma erase_front_spaces_pad pre t :
  str_forall isspace pre = true ->
  erase_front_spaces (pre +:+ t) = erase_front_spaces t.
Proof.
  induction pre as [|c pre IH]; str_simpl; [reflexivity|]. simpl.
  intros H. apply andb_true_iff in H as [Hc Hp]. rewrite Hc. auto.
Qed.

Lemma str_back_snoc s c : str_back (s +:+ String c "") = Some c.
Proof.
  induction s as [|x s IH]; str_simpl; [reflexivity|].
  simpl. rewrite IH. destruct (s +:+ String c "") eqn:E; [|reflexivity].
  apply append_eq_nil in E as [_ E]. discriminate.
Qed.

Lemma str_pop_back_snoc s c : str_pop_back (s +:+ String c "") = s.
Proof.
  induction s as [|x s IH]; str_simpl; [reflexivity|].
  simpl. rewrite IH. destruct (s +:+ String c "") eqn:E; [|reflexivity].
  apply append_eq_nil in E as [_ E]. discriminate.
Qed.

Lemma pop_back_spaces_pad k : forall post t n,
  String.length post = k ->
  str_forall isspace post = true ->
  (String.length (t +:+ post) <= n)%nat ->
  from_option isspace false (str_back t) = false ->
  pop_back_spaces n (t +:+ post) = t.
Proof.
  induction k as [|k IH]; intros post t n Hk Hsp Hn Hb.
  - destruct post; [|discriminate]. rewrite append_nil_r.
    now apply pop_back_spaces_fix.
  - destruct (str_back post) as [c|] eqn:Hc.
    2:{ apply str_back_none in Hc. subst post. discriminate. }
    apply str_back_pop in Hc as [E Hl]. rewrite E in Hsp, Hn |- *.
    rewrite str_forall_app in Hsp. apply andb_true_iff in Hsp as [Hsp Hcs].
    simpl in Hcs. rewrite andb_true_r in Hcs.
    rewrite <- append_assoc in Hn |- *.
    rewrite append_length in Hn. simpl in Hn.
    destruct n as [|n]; [lia|].
    cbn [pop_back_spaces]. rewrite str_back_snoc, Hcs, str_pop_back_snoc.
    apply IH; auto; lia.
Qed.

(** X23.  White space typed around an acceptable name does not matter: the
    trimmed text is the name itself, and the confirm command does with the
    padded text what it does with the name. *)
Theorem trim_padded_name env pre nm post s :
  IsValidPetName nm = true ->
  str_forall isspace pre = true ->
  str_forall isspace post = true ->
  trim (pre +:+ nm +:+ post) = nm /\
  trim nm = nm /\
  HandlePetnameRenameCommand env (pre +:+ nm +:+ post) s =
    HandlePetnameRenameCommand env nm s.
Proof.
  intros Hv Hpre Hpost. apply IsValidPetName_spec in Hv.
  destruct Hv as (_ & (a & mid & z & E & _) & Hf & Hb).
  assert (Hfix : erase_front_spaces (nm +:+ post) = nm +:+ post).
  { rewrite E in Hf |- *. str_simpl. simpl in Hf |- *. now rewrite Hf. }
  assert (H1 : trim (pre +:+ nm +:+ post) = nm).
  { unfold trim. rewrite erase_front_spaces_pad, Hfix by assumption.
    apply pop_back_spaces_pad with (String.length post); auto. }
  assert (H2 : trim nm = nm).
  { unfold trim. rewrite erase_front_spaces_fix by assumption.
    now apply pop_back_spaces_fix. }
  split; [exact H1|]. split; [exact H2|].
  unfold HandlePetnameRenameCommand. now rewrite H1, H2.
Qed.

Lemma trim_padded_name_witness :
  (IsValidPetName "Al-Tair" = true /\
   str_forall isspace "  " = true /\ str_forall isspace " " = true) /\
  trim ("  " +:+ "Al-Tair" +:+ " ") = "Al-Tair".
Proof.
  assert (H1 : IsValidPetName "Al-Tair" = true) by (vm_compute; reflexivity).
  assert (H2 : str_forall isspace "  " = true) by (vm_compute; reflexivity).
  assert (H3 : str_forall isspace " " = true) by (vm_compute; reflexivity).
  split; [auto|].
  exact (proj1 (trim_padded_name tracked_env "  " "Al-Tair" " "
                  (sample_sys tracked_env [] (sample_player 3 20 false ∅)) H1 H2 H3)).
Defined.

(** ** Instances of earlier lemmas *)

Lemma LoadProfanityListIfNeeded_lower_witness :
  let env := sample_env (sample_conf true true false ∅) in
  let s := mkSys (rt (sample_sys env [] (sample_player 3 20 false ∅))) []
                 {["old"]} 0 (sample_player 3 20 false ∅) [] in
  (forall w, w ∈ sProfanityList s -> str_tolower w = w) /\
  (forall w, w ∈ sProfanityList (LoadProfanityListIfNeeded env s) -> str_tolower w = w).
Proof.
  intros env s.
  assert (H : forall w, w ∈ sProfanityList s -> str_tolower w = w).
  { intros w Hw. change (sProfanityList s) with ({["old"]} : gset string) in Hw.
    apply elem_of_singleton in Hw. now subst w. }
  split; [exact H|].
  exact (LoadProfanityListIfNeeded_lower env s H).
Defined.


Lemma encode_decode_witness :
  (0 <= 2003 < 2 ^ 32 /\ decode acore 2003 <> INone) /\
  encode acore (decode acore 2003) = 2003.
Proof.
  assert (H1 : 0 <= 2003 < 2 ^ 32) by lia.
  assert (H2 : decode acore 2003 <> INone) by (vm_compute; discriminate).
  split; [auto|].
  exact (encode_decode acore 2003 H1 H2).
Defined.

(** ** What an accepted rename changes *)

Lemma update_name_spec tbl nm g e :
  (forall r, r ∈ update_name tbl nm g e ->
             owner_guid r = g -> tamed_entry r = e -> tamed_name r = nm) /\
  (forall r, r ∈ update_name tbl nm g e ->
             ~ (owner_guid r = g /\ tamed_entry r = e) -> r ∈ tbl) /\
  (fun r => (owner_guid r, tamed_entry r, date_tamed r)) <$> update_name tbl nm g e =
  (fun r => (owner_guid r, tamed_entry r, date_tamed r)) <$> tbl.
Proof.
  unfold update_name. split; [|split].
  - intros r (r0 & -> & Hin)%list_elem_of_fmap Ho He.
    destruct (bool_decide (owner_guid r0 = g /\ tamed_entry r0 = e)) eqn:Hd;
      [reflexivity|].
    apply bool_decide_eq_false in Hd. tauto.
  - intros r (r0 & -> & Hin)%list_elem_of_fmap Hn.
    destruct (bool_decide (owner_guid r0 = g /\ tamed_entry r0 = e)) eqn:Hd;
      [|exact Hin].
    apply bool_decide_eq_true in Hd. simpl in Hn. tauto.
  - rewrite <- list_fmap_compose. apply list_fmap_ext. intros i r _. simpl.
    now destruct (bool_decide _).
Qed.

(** X27.  An accepted rename with a name that has no apostrophe gives the
    new name to the row of the pending entry and to no other row, keeps owners, entries and dates of all rows, and
    evicts the player's cached tracked list and slot map, so that with
    tracking on the next render of the tracked menu reads the list, with
    the new name, from the table. *)
Theorem rename_takes_effect env args s e creature page :
  rename_flag (player s) = Some true ->
  rename_target (player s) = Some e ->
  name_accepted env (trim args) s = true ->
  sql_plain (trim args) = true ->
  let s' := HandlePetnameRenameCommand env args s in
  let g := guid (player s) in
  (forall r, r ∈ beastmaster_tamed_pets s' ->
             owner_guid r = g -> tamed_entry r = e -> tamed_name r = trim args) /\
  (forall r, r ∈ beastmaster_tamed_pets s' ->
             ~ (owner_guid r = g /\ tamed_entry r = e) -> r ∈ beastmaster_tamed_pets s) /\
  (fun r => (owner_guid r, tamed_entry r, date_tamed r)) <$> beastmaster_tamed_pets s' =
  (fun r => (owner_guid r, tamed_entry r, date_tamed r)) <$> beastmaster_tamed_pets s /\
  trackedPetsCache (rt s') !! g = None /\
  slot_map (player s') = None /\
  (trackTamedPets (config (rt s)) = true ->
   exists s'',
     ShowTrackedPetsMenu creature page s' = Some s'' /\
     trackedPetsCache (rt s'') !! g =
       Some (tracked_rows_of (beastmaster_tamed_pets s') g)).
Proof.
  intros Hf Ht Hacc Hplain s' g.
  assert (Hs' : beastmaster_tamed_pets s' =
                  update_name (beastmaster_tamed_pets s) (trim args) g e /\
                trackedPetsCache (rt s') = delete g (trackedPetsCache (rt s)) /\
                config (rt s') = config (rt s) /\
                guid (player s') = g /\
                slot_map (player s') = None).
  { unfold s', HandlePetnameRenameCommand.
    unfold rename_flag, rename_target in Hf, Ht. rewrite Hf, Ht.
    unfold name_accepted in Hacc. apply andb_true_iff in Hacc as [Hv Hp].
    rewrite (IsValidPetName_nonempty _ Hv), Hv. simpl.
    pose proof (IsProfane_frame env (trim args) s) as (Hrt & Htbl & Hpl & Hout).
    destruct (IsProfane env (trim args) s) as [s1 profane]. simpl in *.
    apply negb_true_iff in Hp. subst profane.
    unfold slot_map, Get_PetMap, Execute_pasted. simpl. rewrite Hplain, Htbl, Hrt, Hpl.
    rewrite lookup_delete_eq. auto. }
  destruct Hs' as (Htbl & Hcache & Hcfg & Hg & Hslot).
  destruct (update_name_spec (beastmaster_tamed_pets s) (trim args) g e)
    as (U1 & U2 & U3).
  rewrite Htbl, Hcache, lookup_delete_eq.
  split; [exact U1|]. split; [exact U2|]. split; [exact U3|].
  split; [reflexivity|]. split; [exact Hslot|].
  intros Htr. unfold ShowTrackedPetsMenu.
  cbn [ClearGossipMenuFor with_player player rt with_PlayerMenu guid
       beastmaster_tamed_pets].
  rewrite Hg, Hcache, lookup_delete_eq, Hcfg, Htr, Htbl.
  match goal with
  | |- context [tracked_loop ?rows 0 ∅ ?s1] =>
      pose proof (tracked_loop_frame rows 0 ∅ s1) as Hfr;
        destruct (tracked_loop rows 0 ∅ s1) as [s2 m]
  end.
  eexists. split; [reflexivity|].
  apply (f_equal rt) in Hfr. simpl in Hfr. simpl. rewrite Hfr. simpl.
  apply lookup_insert_eq.
Qed.

Lemma rename_takes_effect_witness :
  let s := default rename_armed (tracked_rename (Some 1) 0 rename_armed) in
  (rename_flag (player s) = Some true /\
   rename_target (player s) = Some 5000 /\
   name_accepted tracked_env (trim " Al-Tair ") s = true /\
   sql_plain (trim " Al-Tair ") = true) /\
  forall r, r ∈ beastmaster_tamed_pets
                  (HandlePetnameRenameCommand tracked_env " Al-Tair " s) ->
            owner_guid r = guid (player s) -> tamed_entry r = 5000 ->
            tamed_name r = trim " Al-Tair ".
Proof.
  intros s.
  assert (H1 : rename_flag (player s) = Some true) by (vm_compute; reflexivity).
  assert (H2 : rename_target (player s) = Some 5000) by (vm_compute; reflexivity).
  assert (H3 : name_accepted tracked_env (trim " Al-Tair ") s = true)
    by (vm_compute; reflexivity).
  assert (H4 : sql_plain (trim " Al-Tair ") = true) by (vm_compute; reflexivity).
  split; [auto|].
  exact (proj1 (rename_takes_effect tracked_env " Al-Tair " s 5000 (Some 1) 1
                  H1 H2 H3 H4)).
Defined.
